(** * universe-bulk-creator: a shallow embedding of the bulk event creator

    The development follows the layout of the repository:
    - [Js]          the fragment of the JavaScript run time the sources rely on
                    (truthiness, string methods, a matcher for regular
                    expression literals);
    - [Validator]   [src/services/validator.js];
    - [Universe]    the request transformer of [src/services/universe.js];
    - [Airtable]    the status writes of [src/services/airtable.js];
    - [Creator]     the orchestrator of [src/index.js]
                    ([createBatches], [processEvent], [processBatch]);
    - [Host], [Scenario]   a host, a sample row and answers of the remote
                    services, for running the definitions;
    - the vocabulary of the statements;
    - [ValidatorBatch], [AirtableFetch], [Run]   [validateBatch],
                    [getUnprocessedEvents], and the constructor,
                    [processBatches] and [run] of [src/index.js];
    - [UniverseService]   the access token and [createEvent] of
                    [src/services/universe.js];
    - the vocabulary of the further statements, and the properties.

    Strings are modelled by [string], holding the UTF-8 bytes of the text:
    white space is recognised in that encoding; a length counts bytes and
    [toLowerCase] folds the letters A to Z, which is what the sources do on
    ASCII text.  JavaScript numbers that come out of Airtable number columns
    are modelled by rationals, time values of [Date] objects by [option Z]
    ([None] is the invalid date), thrown [Error]s by their [message]. *)

From Stdlib Require Import List String Ascii Bool ZArith QArith Lia.
From Stdlib Require Import DecimalString.
Import ListNotations.

Local Open Scope string_scope.
Local Open Scope Z_scope.

(* ====================================================================== *)
(** ** The JavaScript fragment *)
(* ====================================================================== *)

Module Js.

(** Dynamically typed values, as far as the sources distinguish them. *)
Inductive value : Type :=
| Undefined
| Null
| Bool (b : bool)
| Num (q : Q)
| NaN
| Str (s : string).

(** [v === true]. *)
Definition strict_true (v : value) : bool :=
  match v with
  | Bool true => true
  | _ => false
  end.

(** Truthiness of an optional text field ([undefined] when absent). *)
Definition truthy_str (o : option string) : bool :=
  match o with
  | Some s => negb (String.eqb s "")
  | None => false
  end.

(** Truthiness of an optional number field. *)
Definition truthy_num (o : option Q) : bool :=
  match o with
  | Some q => negb (Qeq_bool q 0)
  | None => false
  end.

(** [x < k] for an optional number field; a comparison with [undefined] is
    false. *)
Definition num_lt (o : option Q) (k : Q) : bool :=
  match o with
  | Some q => negb (Qle_bool k q)
  | None => false
  end.

(** Interpolation [`${x}`] of an optional text field. *)
Definition tpl (o : option string) : string :=
  match o with
  | Some s => s
  | None => "undefined"
  end.

(** Interpolation of an integer. *)
Definition tpl_int (z : Z) : string := NilZero.string_of_int (Z.to_int z).

(** *** String methods *)

(** The white space that [trim] removes, [WhiteSpace] and [LineTerminator]
    of the language, each character by the bytes of its UTF-8 encoding:
    TAB, LF, VT, FF, CR, SP, U+00A0, U+1680, U+2000 to U+200A, U+2028,
    U+2029, U+202F, U+205F, U+3000 and U+FEFF. *)
Definition bytes (l : list nat) : string :=
  string_of_list_ascii (map ascii_of_nat l).

Definition white_space : list string :=
  map bytes
    [ [9]; [10]; [11]; [12]; [13]; [32];
      [194; 160];
      [225; 154; 128];
      [226; 128; 128]; [226; 128; 129]; [226; 128; 130]; [226; 128; 131];
      [226; 128; 132]; [226; 128; 133]; [226; 128; 134]; [226; 128; 135];
      [226; 128; 136]; [226; 128; 137]; [226; 128; 138];
      [226; 128; 168]; [226; 128; 169]; [226; 128; 175];
      [226; 129; 159];
      [227; 128; 128];
      [239; 187; 191] ]%nat.

(** [s] without [p] at its start, when it starts with [p]. *)
Fixpoint drop_prefix (p s : string) : option string :=
  match p, s with
  | EmptyString, _ => Some s
  | String a p', String b s' =>
      if Ascii.eqb a b then drop_prefix p' s' else None
  | String _ _, EmptyString => None
  end.

(** [s] without the first of the strings [ws] that it starts with. *)
Fixpoint drop_first (ws : list string) (s : string) : option string :=
  match ws with
  | [] => None
  | w :: rest =>
      match drop_prefix w s with
      | Some r => Some r
      | None => drop_first rest s
      end
  end.

(** Dropping strings of [ws] from the start of [s] for as long as there is
    one; [fuel] bounds the number of them. *)
Fixpoint drop_all (ws : list string) (fuel : nat) (s : string) : string :=
  match fuel with
  | O => s
  | S fuel' =>
      match drop_first ws s with
      | Some r => drop_all ws fuel' r
      | None => s
      end
  end.

Definition trimStart (s : string) : string :=
  drop_all white_space (String.length s) s.

Definition rev_string (s : string) : string :=
  string_of_list_ascii (rev (list_ascii_of_string s)).

(** The white space at the end is the reversed white space at the start of
    the reversed string. *)
Definition trimEnd (s : string) : string :=
  rev_string
    (drop_all (map rev_string white_space) (String.length s) (rev_string s)).

Definition trim (s : string) : string := trimEnd (trimStart s).

Definition lower_char (c : ascii) : ascii :=
  let n := nat_of_ascii c in
  if (Nat.leb 65 n && Nat.leb n 90)%bool then ascii_of_nat (n + 32) else c.

Fixpoint toLowerCase (s : string) : string :=
  match s with
  | String c s' => String (lower_char c) (toLowerCase s')
  | EmptyString => EmptyString
  end.

(** [s.split(sep)] for a non-empty separator.  [skip] counts the characters
    of a separator occurrence that are still to be dropped, [acc] is the
    segment being read. *)
Fixpoint split_go (sep s acc : string) (skip : nat) : list string :=
  match s with
  | EmptyString => [acc]
  | String c s' =>
      match skip with
      | S k => split_go sep s' acc k
      | O =>
          if String.prefix sep s
          then acc :: split_go sep s' "" (String.length sep - 1)
          else split_go sep s' (acc ++ String c "") 0
      end
  end.

Definition split (sep s : string) : list string := split_go sep s "" 0.

(** [l.join(sep)]. *)
Definition join (sep : string) (l : list string) : string := String.concat sep l.

(** [s.replace(/\n/g, by)] and the like: every occurrence of one character. *)
Fixpoint replace_char (c : ascii) (by_ s : string) : string :=
  match s with
  | String d s' =>
      (if Ascii.eqb c d then by_ else String d "") ++ replace_char c by_ s'
  | EmptyString => EmptyString
  end.

Fixpoint repeat_char (c : ascii) (n : nat) : string :=
  match n with
  | O => EmptyString
  | S k => String c (repeat_char c k)
  end.

(** [s.padStart(n, c)] for a one character filler. *)
Definition padStart (n : nat) (c : ascii) (s : string) : string :=
  repeat_char c (n - String.length s) ++ s.

(** [s.substring(0, n)]. *)
Definition substring0 (n : nat) (s : string) : string := String.substring 0 n s.

(** [l.includes(x)] on a list of strings. *)
Definition includes (l : list string) (x : string) : bool :=
  existsb (String.eqb x) l.

(** [l[0]]. *)
Definition first (l : list string) : string :=
  match l with
  | x :: _ => x
  | [] => "undefined"
  end.

(** [Number(s)] on the strings that reach it in the sources: runs of decimal
    digits (the empty string converts to 0); anything else is [NaN]. *)
Definition digit_val (c : ascii) : option Z :=
  let n := nat_of_ascii c in
  if (Nat.leb 48 n && Nat.leb n 57)%bool then Some (Z.of_nat (n - 48)) else None.

Fixpoint Number_go (s : string) (acc : Z) : option Z :=
  match s with
  | EmptyString => Some acc
  | String c s' =>
      match digit_val c with
      | Some d => Number_go s' (10 * acc + d)
      | None => None
      end
  end.

Definition Number (s : string) : option Z := Number_go s 0.

(** *** Regular expression literals

    [re.test(s)] for an anchored pattern [/^...$/] (no flags) holds when the
    whole of [s] belongs to the language of the pattern; membership is
    computed with derivatives. *)
Inductive regex : Type :=
| ReNone
| ReEps
| ReChar (c : ascii)
| ReRange (lo hi : ascii)
| ReSeq (r1 r2 : regex)
| ReAlt (r1 r2 : regex)
| ReOpt (r : regex).

Fixpoint nullable (r : regex) : bool :=
  match r with
  | ReNone | ReChar _ | ReRange _ _ => false
  | ReEps | ReOpt _ => true
  | ReSeq r1 r2 => nullable r1 && nullable r2
  | ReAlt r1 r2 => nullable r1 || nullable r2
  end.

Definition in_range (lo hi c : ascii) : bool :=
  (Nat.leb (nat_of_ascii lo) (nat_of_ascii c)
   && Nat.leb (nat_of_ascii c) (nat_of_ascii hi))%bool.

Fixpoint deriv (c : ascii) (r : regex) : regex :=
  match r with
  | ReNone | ReEps => ReNone
  | ReChar d => if Ascii.eqb c d then ReEps else ReNone
  | ReRange lo hi => if in_range lo hi c then ReEps else ReNone
  | ReSeq r1 r2 =>
      if nullable r1
      then ReAlt (ReSeq (deriv c r1) r2) (deriv c r2)
      else ReSeq (deriv c r1) r2
  | ReAlt r1 r2 => ReAlt (deriv c r1) (deriv c r2)
  | ReOpt r1 => deriv c r1
  end.

Fixpoint test (r : regex) (s : string) : bool :=
  match s with
  | EmptyString => nullable r
  | String c s' => test (deriv c r) s'
  end.

(** [l.slice(start, end)]: a negative index counts from the end of the
    list, an index past the end is clamped. *)
Definition slice {A : Type} (l : list A) (start end_ : Z) : list A :=
  let len := Z.of_nat (List.length l) in
  let k := if start <? 0 then Z.max (len + start) 0 else Z.min start len in
  let final := if end_ <? 0 then Z.max (len + end_) 0 else Z.min end_ len in
  firstn (Z.to_nat (final - k)) (skipn (Z.to_nat k) l).

(** A call either returns a value or throws an [Error], of which the
    sources only read the [message]; for an asynchronous call these are the
    two ways its promise settles. *)
Inductive completion (A : Type) : Type :=
| Return (a : A)
| Throw (message : string).
Arguments Return {A} a.
Arguments Throw {A} message.

(** *** Time values *)

(** [a >= b] and [a < b] on time values; any comparison that involves the
    invalid date is false. *)
Definition time_ge (a b : option Z) : bool :=
  match a, b with
  | Some x, Some y => y <=? x
  | _, _ => false
  end.

Definition time_lt (a b : option Z) : bool :=
  match a, b with
  | Some x, Some y => x <? y
  | _, _ => false
  end.

(** The built-ins whose result depends on the host: date parsing, the local
    time zone, the clock, the random source and [parseInt]/[parseFloat] on
    numbers. *)
Record Runtime : Type := {
  (** [new Date(s).getTime()]; [None] for an invalid date. *)
  Date_parse : string -> option Z;
  (** [d.setHours(h, m, 0, 0)] in the time zone of the process. *)
  Date_setHours : Z -> Z -> Z -> Z;
  (** [Date.now()]. *)
  Date_now : Z;
  (** [d.toISOString()] of a valid date. *)
  Date_toISOString : Z -> string;
  (** [Math.random().toString(36).substring(2, 8)]. *)
  Math_random36 : string;
  (** [parseFloat(x)] and [parseInt(x)] of a number. *)
  parseFloat : Q -> Q;
  parseInt : Q -> Z
}.

(** [d.setHours(h, m, 0, 0)] on a time value that may be invalid, with
    components that may be [NaN]. *)
Definition setHours (rt : Runtime) (d : option Z) (h m : option Z) : option Z :=
  match d, h, m with
  | Some t, Some h', Some m' => Some (Date_setHours rt t h' m')
  | _, _, _ => None
  end.

End Js.

Import Js.

(* ====================================================================== *)
(** ** Source records *)
(* ====================================================================== *)

(** An event as [getUnprocessedEvents] hands it over: the Airtable record id
    and the fields of the row.  Airtable leaves an empty cell out of the
    row, hence the options; text and date columns arrive as strings, number
    columns as numbers.  The check box columns are kept as untyped values:
    the sources compare them with [=== true]. *)
Record AirtableEvent : Type := {
  airtableId : string;
  title : option string;
  description : option string;
  startDate : option string;
  startTime : option string;
  endDate : option string;
  endTime : option string;
  address : option string;
  venueName : option string;
  cityName : option string;
  region : option string;
  countryCode : option string;
  dateDisplayOption : option string;
  privacy : option string;
  categoryId : option string;
  latitude : option Q;
  longitude : option Q;
  rateName : option string;
  ratePrice : option Q;
  rateCapacity : option Q;
  rateDescription : option string;
  capacity : option Q;
  maxQuantity : option Q;
  transactionCurrency : option string;
  availableCountries : option string;
  tiktokPixelCodes : option string;
  facebookPixelCodes : option string;
  googleAnalytics4Id : option string;
  publish : value;
  virtual : value;
  allowWaitlist : value;
  socialButtons : value;
  hiddenDate : value;
  timedEntry : value
}.

(* ====================================================================== *)
(** ** src/services/validator.js *)
(* ====================================================================== *)

Module Validator.

Record ValidationResult : Type := {
  isValid : bool;
  errors : list string;
  warnings : list string
}.

(** [/^([0-1]?[0-9]|2[0-3]):[0-5][0-9]$/] *)
Definition timeRegex : regex :=
  ReSeq
    (ReAlt (ReSeq (ReOpt (ReRange "0" "1")) (ReRange "0" "9"))
           (ReSeq (ReChar "2") (ReRange "0" "3")))
    (ReSeq (ReChar ":") (ReSeq (ReRange "0" "5") (ReRange "0" "9"))).

(** [if (c) l.push(msg)] *)
Definition push (c : bool) (msg : string) (l : list string) : list string :=
  if c then l ++ [msg] else l.

(** One component of [const [h, m] = time.split(':').map(Number)]. *)
Definition component (i : nat) (l : list (option Z)) : option Z :=
  match nth_error l i with
  | Some n => n
  | None => None
  end.

(** [(end - start) / (1000 * 60 * 60)] *)
Definition durationHours (endT startT : option Z) : option Q :=
  match endT, startT with
  | Some e, Some s => Some (inject_Z (e - s) / inject_Z (1000 * 60 * 60))%Q
  | _, _ => None
  end.

Definition exceeds (d : option Q) (k : Q) : bool :=
  match d with
  | Some q => negb (Qle_bool q k)
  | None => false
  end.

(** The pixel code columns: [s.split(',').map(c => c.trim())] has an empty
    entry. *)
Definition has_empty_code (s : string) : bool :=
  existsb (fun code => Nat.eqb (String.length code) 0) (map trim (split "," s)).

Section WithRuntime.

Variable rt : Runtime.

Definition validateEvent (eventData : AirtableEvent) : ValidationResult :=
  let errors := [] in
  let warnings := [] in
  (* Required fields *)
  let errors :=
    push (negb (truthy_str (option_map trim (title eventData))))
         "Title is required" errors in
  let errors :=
    push (negb (truthy_str (startDate eventData))) "Start date is required" errors in
  let errors :=
    push (negb (truthy_str (startTime eventData))) "Start time is required" errors in
  let errors :=
    push (negb (truthy_str (endDate eventData))) "End date is required" errors in
  let errors :=
    push (negb (truthy_str (endTime eventData))) "End time is required" errors in
  let errors :=
    push (negb (truthy_str (option_map trim (address eventData))))
         "Address is required" errors in
  let errors :=
    push (negb (truthy_str (option_map trim (venueName eventData))))
         "Venue name is required" errors in
  let errors :=
    push (negb (truthy_str (option_map trim (cityName eventData))))
         "City name is required" errors in
  (* Date and time validation *)
  let '(errors, warnings) :=
    if truthy_str (startDate eventData) && truthy_str (startTime eventData)
       && truthy_str (endDate eventData) && truthy_str (endTime eventData)
    then
      let startOk := test timeRegex (tpl (startTime eventData)) in
      let endOk := test timeRegex (tpl (endTime eventData)) in
      let errors :=
        push (negb startOk)
             "Start time must be in HH:MM format (e.g., 19:30)" errors in
      let errors :=
        push (negb endOk)
             "End time must be in HH:MM format (e.g., 22:00)" errors in
      let '(errors, warnings) :=
        if startOk && endOk then
          let startD := Date_parse rt (tpl (startDate eventData)) in
          let endD := Date_parse rt (tpl (endDate eventData)) in
          let startHM := map Number (split ":" (tpl (startTime eventData))) in
          let endHM := map Number (split ":" (tpl (endTime eventData))) in
          let startDateTime :=
            setHours rt startD (component 0 startHM) (component 1 startHM) in
          let endDateTime :=
            setHours rt endD (component 0 endHM) (component 1 endHM) in
          let errors :=
            push (time_ge startDateTime endDateTime)
                 "Event end must be after event start (supports multi-day events)"
                 errors in
          let warnings :=
            push (exceeds (durationHours endDateTime startDateTime) 168)
                 "Event duration is longer than 7 days" warnings in
          (errors, warnings)
        else (errors, warnings) in
      let startD := Date_parse rt (tpl (startDate eventData)) in
      let today := setHours rt (Some (Date_now rt)) (Some 0) (Some 0) in
      let warnings :=
        push (time_lt startD today) "Event start date is in the past" warnings in
      (errors, warnings)
    else (errors, warnings) in
  (* Rate validation *)
  let errors :=
    push (truthy_num (ratePrice eventData) && num_lt (ratePrice eventData) 0)
         "Rate price cannot be negative" errors in
  let errors :=
    push (truthy_num (capacity eventData) && num_lt (capacity eventData) 1)
         "Capacity must be at least 1" errors in
  (* Country code validation *)
  let errors :=
    push (truthy_str (countryCode eventData)
          && negb (Nat.eqb (String.length (tpl (countryCode eventData))) 2))
         "Country code must be 2 characters (e.g., CA, US)" errors in
  (* Date display option validation *)
  let errors :=
    push (truthy_str (dateDisplayOption eventData)
          && negb (includes ["FULL"; "SHORT"; "HIDDEN"]
                            (tpl (dateDisplayOption eventData))))
         "Date display option must be FULL, SHORT, or HIDDEN" errors in
  (* Privacy validation *)
  let errors :=
    push (truthy_str (privacy eventData)
          && negb (includes ["PUBLIC"; "PRIVATE"; "UNLISTED";
                             "public"; "private"; "unlisted"]
                            (tpl (privacy eventData))))
         "Privacy must be PUBLIC, PRIVATE, or UNLISTED (case insensitive)"
         errors in
  (* Analytics fields validation *)
  let warnings :=
    push (truthy_str (tiktokPixelCodes eventData)
          && has_empty_code (tpl (tiktokPixelCodes eventData)))
         "TikTok pixel codes should not contain empty values" warnings in
  let warnings :=
    push (truthy_str (facebookPixelCodes eventData)
          && has_empty_code (tpl (facebookPixelCodes eventData)))
         "Facebook pixel codes should not contain empty values" warnings in
  {| isValid := Nat.eqb (List.length errors) 0;
     errors := errors;
     warnings := warnings |}.

End WithRuntime.

End Validator.

(* ====================================================================== *)
(** ** src/services/universe.js: the request transformer *)
(* ====================================================================== *)

Module Universe.

(** The objects of the request.  A key that the transformer only sets under
    a condition is an option: [None] is the absent key. *)
Module TimeSlot.
Record t : Type := { startAt : string; endAt : string }.
End TimeSlot.

Module Rate.
Record t : Type := {
  name : string;
  price : Q;
  capacity : option Z;        (* [null] when the row has no rate capacity *)
  description : string;
  state : string
}.
End Rate.

Module EventInput.
Record t : Type := {
  title : option string;
  descriptionHtml : string;
  address : option string;
  latitude : Q;
  longitude : Q;
  category_id : string;
  timeSlots : list TimeSlot.t;
  rates : list Rate.t;
  privacy : option string;
  virtual : option bool;
  venueName : option string;
  region : option string;
  allowWaitlist : option bool;
  socialButtons : option bool;
  hiddenDate : option bool;
  timedEntry : option bool;
  maxQuantity : option Z;
  transactionCurrency : option string;
  availableCountries : option (list string);
  tiktokPixelCodes : option (list string);
  facebookPixelCodes : option (list string);
  googleAnalytics4Id : option string
}.
End EventInput.

Module EventCreateInput.
Record t : Type := {
  clientMutationId : string;
  publish : bool;
  event : EventInput.t
}.
End EventCreateInput.

(** What [createEvent] resolves to: the created event with the mutation id
    that the API echoed. *)
Module Event.
Record t : Type := {
  id : string;
  slug : string;
  state : string;
  clientMutationId : option string
}.
End Event.

(** The first argument of [combineDateAndTime]: a string or a [Date]. *)
Inductive date_arg : Type :=
| DateString (s : string)
| DateObject (t : option Z).

Definition nl : string := String (ascii_of_nat 10) "".

Section WithRuntime.

Variable rt : Runtime.

Definition generateClientMutationId (operation : string) (identifier : option string)
  : string :=
  let timestamp := Date_now rt in
  let random := Math_random36 rt in
  let id := if truthy_str identifier then "-" ++ tpl identifier else "" in
  operation ++ "-" ++ tpl_int timestamp ++ "-" ++ random ++ id.

Definition formatDescription (description : option string) : string :=
  if negb (truthy_str description) then ""
  else
    join ""
      (map (fun paragraph => "<p>" ++ replace_char (ascii_of_nat 10) "<br>" paragraph ++ "</p>")
         (filter (fun paragraph => Nat.ltb 0 (String.length paragraph))
            (map trim (split (nl ++ nl) (tpl description))))).

Definition combineDateAndTime (date : date_arg) (time : string) : completion string :=
  let dateStr :=
    match date with
    | DateString s => Return (first (split "T" s))
    | DateObject (Some t) => Return (first (split "T" (Date_toISOString rt t)))
    | DateObject None => Throw "Invalid time value"
    end in
  match dateStr with
  | Return dateStr =>
      let timeStr := padStart 5 "0" time in
      Return (dateStr ++ "T" ++ timeStr ++ ":00")
  | Throw e => Throw e
  end.

(** [if (v === true) input.key = true] *)
Definition flag (v : value) : option bool :=
  if strict_true v then Some true else None.

Definition split_trim (s : string) : list string := map trim (split "," s).

Definition transformToEventCreateInput (airtableData : AirtableEvent)
  : completion EventCreateInput.t :=
  let timeSlots :=
    if truthy_str (startDate airtableData) && truthy_str (startTime airtableData)
       && truthy_str (endDate airtableData) && truthy_str (endTime airtableData)
    then
      match combineDateAndTime (DateString (tpl (startDate airtableData)))
                               (tpl (startTime airtableData)) with
      | Return startDateTime =>
          match combineDateAndTime (DateString (tpl (endDate airtableData)))
                                   (tpl (endTime airtableData)) with
          | Return endDateTime =>
              Return [ {| TimeSlot.startAt := startDateTime;
                          TimeSlot.endAt := endDateTime |} ]
          | Throw e => Throw e
          end
      | Throw e => Throw e
      end
    else Return [] in
  match timeSlots with
  | Throw e => Throw e
  | Return timeSlots =>
      let rates :=
        if truthy_str (rateName airtableData) && truthy_num (ratePrice airtableData)
        then
          [ {| Rate.name := tpl (rateName airtableData);
               Rate.price :=
                 match ratePrice airtableData with
                 | Some p => parseFloat rt p
                 | None => 0%Q
                 end;
               Rate.capacity :=
                 match rateCapacity airtableData with
                 | Some c => if truthy_num (Some c) then Some (parseInt rt c) else None
                 | None => None
                 end;
               Rate.description :=
                 if truthy_str (rateDescription airtableData)
                 then tpl (rateDescription airtableData) else "";
               Rate.state := "ACTIVE" |} ]
        else [] in
      let privacy :=
        if truthy_str (privacy airtableData) then
          let privacyValue := toLowerCase (tpl (privacy airtableData)) in
          let privacyValue :=
            if String.eqb privacyValue "private" then "unlisted" else privacyValue in
          Some privacyValue
        else None in
      let keep (o : option string) := if truthy_str o then o else None in
      let list_of (o : option string) :=
        if truthy_str o then Some (split_trim (tpl o)) else None in
      Return
        {| EventCreateInput.clientMutationId :=
             generateClientMutationId "event-create" (Some (airtableId airtableData));
           EventCreateInput.publish := strict_true (publish airtableData);
           EventCreateInput.event :=
             {| EventInput.title := title airtableData;
                EventInput.descriptionHtml :=
                  formatDescription (description airtableData);
                EventInput.address := address airtableData;
                EventInput.latitude :=
                  match latitude airtableData with
                  | Some x => if truthy_num (Some x) then parseFloat rt x
                              else (43653226 # 1000000)%Q
                  | None => (43653226 # 1000000)%Q
                  end;
                EventInput.longitude :=
                  match longitude airtableData with
                  | Some x => if truthy_num (Some x) then parseFloat rt x
                              else (- (793831843 # 10000000))%Q
                  | None => (- (793831843 # 10000000))%Q
                  end;
                EventInput.category_id :=
                  if truthy_str (categoryId airtableData)
                  then tpl (categoryId airtableData)
                  else "52cc8f6154c5317943000003";
                EventInput.timeSlots := timeSlots;
                EventInput.rates := rates;
                EventInput.privacy := privacy;
                EventInput.virtual := flag (virtual airtableData);
                EventInput.venueName := keep (venueName airtableData);
                EventInput.region := keep (region airtableData);
                EventInput.allowWaitlist := flag (allowWaitlist airtableData);
                EventInput.socialButtons := flag (socialButtons airtableData);
                EventInput.hiddenDate := flag (hiddenDate airtableData);
                EventInput.timedEntry := flag (timedEntry airtableData);
                EventInput.maxQuantity :=
                  match maxQuantity airtableData with
                  | Some x => if truthy_num (Some x) then Some (parseInt rt x) else None
                  | None => None
                  end;
                EventInput.transactionCurrency :=
                  keep (transactionCurrency airtableData);
                EventInput.availableCountries :=
                  list_of (availableCountries airtableData);
                EventInput.tiktokPixelCodes := list_of (tiktokPixelCodes airtableData);
                EventInput.facebookPixelCodes :=
                  list_of (facebookPixelCodes airtableData);
                EventInput.googleAnalytics4Id :=
                  keep (googleAnalytics4Id airtableData) |} |}
  end.

End WithRuntime.

Definition getEventUrl (eventSlug : string) : string :=
  "https://www.universe.com/" ++ eventSlug.

End Universe.

(* ====================================================================== *)
(** ** Effects: remote calls, timers and the log *)
(* ====================================================================== *)

(** The fields of one [table.update(recordId, fields)]. *)
Module Table.
Record fields : Type := {
  status : string;
  universeEventId : option string;
  universeUrl : option string;
  errorMessage : option string;
  clientMutationId : option string;
  createdAt : option string;
  lastUpdated : string
}.
End Table.

Module Eff.

Inductive level : Type := LInfo | LSuccess | LWarn | LError.

(** What a record's processing does to the outside, in the order in which
    it happens. *)
Inductive effect : Type :=
| CreateEvent (eventData : AirtableEvent)            (* universe.createEvent *)
| PublishEvent (eventId : string)                    (* universe.publishEvent *)
| TableUpdate (recordId : string) (data : Table.fields)   (* table.update *)
| Delay (ms : Z)                                     (* setTimeout *)
| Log (l : level) (message : string) (data : option string).

(** How the remote services answer: the outcome of the n-th call of each
    kind that the processing of one record makes. *)
Record World : Type := {
  createEvent_outcome : nat -> completion Universe.Event.t;
  publishEvent_outcome : nat -> completion unit;
  tableUpdate_outcome : nat -> completion unit
}.

Record State : Type := {
  createCalls : nat;
  publishCalls : nat;
  updateCalls : nat;
  trace : list effect
}.

Definition initial : State :=
  {| createCalls := 0; publishCalls := 0; updateCalls := 0; trace := [] |}.

(** An asynchronous function resolves, rejects, or (in the model) runs out
    of fuel. *)
Inductive result (A : Type) : Type :=
| Ret (a : A)
| Exn (message : string)
| Fuel.
Arguments Ret {A} a.
Arguments Exn {A} message.
Arguments Fuel {A}.

Definition M (A : Type) : Type := State -> result A * State.

Definition ret {A : Type} (a : A) : M A := fun st => (Ret a, st).

Definition throw {A : Type} (message : string) : M A := fun st => (Exn message, st).

Definition out_of_fuel {A : Type} : M A := fun st => (Fuel, st).

Definition bind {A B : Type} (m : M A) (k : A -> M B) : M B :=
  fun st =>
    match m st with
    | (Ret a, st') => k a st'
    | (Exn e, st') => (Exn e, st')
    | (Fuel, st') => (Fuel, st')
    end.

(** [try { m } catch (error) { h error }] *)
Definition try_catch {A : Type} (m : M A) (h : string -> M A) : M A :=
  fun st =>
    match m st with
    | (Exn e, st') => h e st'
    | r => r
    end.

Definition lift {A : Type} (c : completion A) : result A :=
  match c with
  | Return a => Ret a
  | Throw e => Exn e
  end.

Definition emit (e : effect) (st : State) : State :=
  {| createCalls := createCalls st;
     publishCalls := publishCalls st;
     updateCalls := updateCalls st;
     trace := trace st ++ [e] |}.

Definition delay (ms : Z) : M unit := fun st => (Ret tt, emit (Delay ms) st).

Definition log (l : level) (message : string) (data : option string) : M unit :=
  fun st => (Ret tt, emit (Log l message data) st).

Section WithWorld.

Variable w : World.

Definition createEvent (eventData : AirtableEvent) : M Universe.Event.t :=
  fun st =>
    (lift (createEvent_outcome w (createCalls st)),
     {| createCalls := S (createCalls st);
        publishCalls := publishCalls st;
        updateCalls := updateCalls st;
        trace := trace st ++ [CreateEvent eventData] |}).

Definition publishEvent (eventId : string) : M unit :=
  fun st =>
    (lift (publishEvent_outcome w (publishCalls st)),
     {| createCalls := createCalls st;
        publishCalls := S (publishCalls st);
        updateCalls := updateCalls st;
        trace := trace st ++ [PublishEvent eventId] |}).

Definition table_update (recordId : string) (data : Table.fields) : M unit :=
  fun st =>
    (lift (tableUpdate_outcome w (updateCalls st)),
     {| createCalls := createCalls st;
        publishCalls := publishCalls st;
        updateCalls := S (updateCalls st);
        trace := trace st ++ [TableUpdate recordId data] |}).

End WithWorld.

End Eff.

Declare Scope eff_scope.
Delimit Scope eff_scope with eff.
Notation "x <- m ;; k" := (Eff.bind m (fun x => k))
  (at level 61, m at next level, right associativity) : eff_scope.
Notation "m ;; k" := (Eff.bind m (fun _ => k))
  (at level 61, right associativity) : eff_scope.

(* ====================================================================== *)
(** ** src/services/airtable.js: the status writes *)
(* ====================================================================== *)

Module Airtable.

Import Eff.

Section WithWorld.

Variable rt : Runtime.
Variable w : World.

(** [new Date().toISOString().split('T')[0]] *)
Definition today : string := first (split "T" (Date_toISOString rt (Date_now rt))).

Definition keep (o : option string) : option string :=
  if truthy_str o then o else None.

Definition updateEventStatus (recordId status : string)
    (universeEventId errorMessage clientMutationId : option string) : M unit :=
  try_catch
    (let updateData :=
       {| Table.status := status;
          Table.lastUpdated := today;
          Table.universeEventId := keep universeEventId;
          Table.errorMessage := keep errorMessage;
          Table.clientMutationId := keep clientMutationId;
          Table.universeUrl := None;
          Table.createdAt := None |} in
     table_update w recordId updateData ;;
     log LInfo ("Updated Airtable record " ++ recordId ++ " with status: " ++ status)
         None)%eff
    (fun error =>
       log LError ("Failed to update Airtable record " ++ recordId ++ ":") (Some error) ;;
       throw error)%eff.

Definition markAsCreated (recordId universeEventId universeUrl : string)
    (clientMutationId : option string) : M unit :=
  try_catch
    (let updateData :=
       {| Table.status := "Created";
          Table.universeEventId := Some universeEventId;
          Table.universeUrl := Some universeUrl;
          Table.createdAt := Some today;
          Table.lastUpdated := today;
          Table.clientMutationId := keep clientMutationId;
          Table.errorMessage := None |} in
     table_update w recordId updateData)
    (fun error =>
       log LError ("Failed to mark record " ++ recordId ++ " as created:") (Some error) ;;
       throw error)%eff.

Definition markAsError (recordId errorMessage : string) : M unit :=
  try_catch
    (table_update w recordId
       {| Table.status := "Error";
          Table.errorMessage := Some (substring0 1000 errorMessage);
          Table.lastUpdated := today;
          Table.universeEventId := None;
          Table.universeUrl := None;
          Table.createdAt := None;
          Table.clientMutationId := None |})
    (fun error =>
       log LError ("Failed to mark record " ++ recordId ++ " as error:") (Some error)).

End WithWorld.

End Airtable.

(* ====================================================================== *)
(** ** src/index.js: the orchestrator *)
(* ====================================================================== *)

Module Creator.

Import Eff.

Section BulkEventCreator.

Variable rt : Runtime.
(** [this.batchSize] and [this.maxRetries]. *)
Variable batchSize : Z.
Variable maxRetries : Z.

(** [createBatches]: the [for] loop, with the loop variable [i] and the
    array [batches] it pushes to. *)
Fixpoint createBatches_loop {A : Type} (fuel : nat) (events : list A) (i : Z)
    (batches : list (list A)) : option (list (list A)) :=
  match fuel with
  | O => None
  | S fuel' =>
      if i <? Z.of_nat (List.length events)
      then createBatches_loop fuel' events (i + batchSize)
             (batches ++ [slice events i (i + batchSize)])
      else Some batches
  end.

Definition createBatches {A : Type} (events : list A) : option (list (list A)) :=
  createBatches_loop (S (List.length events)) events 0 [].

(** The body of the [try] block of [processEvent]: one attempt. *)
Definition attempt (w : World) (event : AirtableEvent) : M Universe.Event.t :=
  (universeEvent <- createEvent w event ;;
   (if strict_true (publish event)
       && negb (String.eqb (Universe.Event.state universeEvent) "POSTED")
    then
      try_catch
        (publishEvent w (Universe.Event.id universeEvent) ;;
         log LInfo ("Event published: " ++ tpl (title event)) None)
        (fun publishError =>
           log LWarn ("Event created but failed to publish: " ++ tpl (title event))
               (Some publishError))
    else ret tt) ;;
   let eventUrl := Universe.getEventUrl (Universe.Event.slug universeEvent) in
   Airtable.markAsCreated rt w (airtableId event) (Universe.Event.id universeEvent)
     eventUrl (Universe.Event.clientMutationId universeEvent) ;;
   log LSuccess ("Event created: " ++ tpl (title event) ++ " -> " ++ eventUrl) None ;;
   ret universeEvent)%eff.

(** [processEvent(event, retryCount)]; the recursion is the retry. *)
Fixpoint processEvent_fuel (fuel : nat) (w : World) (event : AirtableEvent)
    (retryCount : Z) : M Universe.Event.t :=
  match fuel with
  | O => out_of_fuel
  | S fuel' =>
      try_catch (attempt w event)
        (fun error =>
           if retryCount <? maxRetries then
             (log LWarn
                ("Retrying event " ++ tpl (title event) ++ " (attempt "
                 ++ tpl_int (retryCount + 1) ++ "/" ++ tpl_int (maxRetries + 1) ++ ")")
                None ;;
              delay (1000 * (retryCount + 1)) ;;
              processEvent_fuel fuel' w event (retryCount + 1))%eff
           else
             (Airtable.markAsError rt w (airtableId event) error ;;
              throw error)%eff)
  end.

(** Every retry increases [retryCount], and there is none from
    [maxRetries] on: this much fuel is never used up
    (see [processEvent_unfold]). *)
Definition processEvent (w : World) (event : AirtableEvent) (retryCount : Z)
  : M Universe.Event.t :=
  processEvent_fuel (S (Z.to_nat (maxRetries - retryCount))) w event retryCount.

(** [processBatch]: every event of the batch is processed on its own, with
    the answers [worlds] gives for its record, and [Promise.allSettled]
    collects the outcomes in the order of the batch. *)
Record BatchResult : Type := { success : nat; errors : nat }.

Definition settle (worlds : string -> World) (events : list AirtableEvent)
  : list (result Universe.Event.t) :=
  map (fun event => fst (processEvent (worlds (airtableId event)) event 0 initial))
      events.

Definition tally (results : list (result Universe.Event.t)) : BatchResult :=
  fold_left
    (fun acc r =>
       match r with
       | Ret _ => {| success := S (success acc); errors := errors acc |}
       | Exn _ => {| success := success acc; errors := S (errors acc) |}
       | Fuel => acc
       end)
    results {| success := 0; errors := 0 |}.

Definition processBatch (worlds : string -> World) (events : list AirtableEvent)
  : BatchResult :=
  tally (settle worlds events).

End BulkEventCreator.

End Creator.

(* ====================================================================== *)
(** ** A host and a sample row, for running the definitions *)
(* ====================================================================== *)

Module Host.

(** Days between 1970-01-01 and a date of the proleptic Gregorian calendar,
    and back. *)
Definition days_from_civil (y m d : Z) : Z :=
  let y' := if m <=? 2 then y - 1 else y in
  let era := y' / 400 in
  let yoe := y' - era * 400 in
  let doy := (153 * (if 2 <? m then m - 3 else m + 9) + 2) / 5 + d - 1 in
  let doe := yoe * 365 + yoe / 4 - yoe / 100 + doy in
  era * 146097 + doe - 719468.

Definition civil_from_days (z : Z) : Z * Z * Z :=
  let z' := z + 719468 in
  let era := z' / 146097 in
  let doe := z' - era * 146097 in
  let yoe := (doe - doe / 1460 + doe / 36524 - doe / 146096) / 365 in
  let doy := doe - (365 * yoe + yoe / 4 - yoe / 100) in
  let mp := (5 * doy + 2) / 153 in
  let d := doy - (153 * mp + 2) / 5 + 1 in
  let m := if mp <? 10 then mp + 3 else mp - 9 in
  ((if m <=? 2 then yoe + era * 400 + 1 else yoe + era * 400), m, d).

Definition msPerDay : Z := 86400000.

Definition digits (n : nat) (z : Z) : string :=
  padStart n "0" (tpl_int z).

(** [new Date("YYYY-MM-DD")]: midnight UTC of that day. *)
Definition parse_iso_date (s : string) : option Z :=
  match split "-" s with
  | [ys; ms; ds] =>
      if (Nat.eqb (String.length ys) 4 && Nat.eqb (String.length ms) 2
          && Nat.eqb (String.length ds) 2)%bool
      then
        match Number ys, Number ms, Number ds with
        | Some y, Some m, Some d =>
            if (1 <=? m) && (m <=? 12) && (1 <=? d)
               && (days_from_civil y m d <? days_from_civil y (m + 1) 1)
            then Some (days_from_civil y m d * msPerDay)
            else None
        | _, _, _ => None
        end
      else None
  | _ => None
  end.

Definition toISOString (t : Z) : string :=
  let '(y, m, d) := civil_from_days (t / msPerDay) in
  let r := t mod msPerDay in
  digits 4 y ++ "-" ++ digits 2 m ++ "-" ++ digits 2 d ++ "T"
  ++ digits 2 (r / 3600000) ++ ":" ++ digits 2 (r / 60000 mod 60) ++ ":"
  ++ digits 2 (r / 1000 mod 60) ++ "." ++ digits 3 (r mod 1000) ++ "Z".

(** Node in the UTC time zone, the clock stopped at 2025-07-01T12:00:00Z. *)
Definition utc : Runtime :=
  {| Date_parse := parse_iso_date;
     Date_setHours := fun t h m => t / msPerDay * msPerDay + (h * 60 + m) * 60000;
     Date_now := days_from_civil 2025 7 1 * msPerDay + 12 * 3600000;
     Date_toISOString := toISOString;
     Math_random36 := "k3x9qa";
     parseFloat := fun q => q;
     parseInt := fun q => Z.quot (Qnum q) (Z.pos (Qden q)) |}.

(** A complete row; the arguments are the cells that the examples vary. *)
Definition row (startTime' privacy' : option string) (capacity' : option Q)
    (publish' : value) : AirtableEvent :=
  {| airtableId := "rec001";
     title := Some "Summer Concert";
     description := Some "An evening of music.";
     startDate := Some "2025-07-31";
     startTime := startTime';
     endDate := Some "2025-07-31";
     endTime := Some "22:00";
     address := Some "1 Main Street";
     venueName := Some "Town Hall";
     cityName := Some "Toronto";
     region := None;
     countryCode := Some "CA";
     dateDisplayOption := None;
     privacy := privacy';
     categoryId := None;
     latitude := None;
     longitude := None;
     rateName := Some "General";
     ratePrice := Some (25 # 1)%Q;
     rateCapacity := None;
     rateDescription := None;
     capacity := capacity';
     maxQuantity := None;
     transactionCurrency := None;
     availableCountries := None;
     tiktokPixelCodes := None;
     facebookPixelCodes := None;
     googleAnalytics4Id := None;
     publish := publish';
     virtual := Undefined;
     allowWaitlist := Undefined;
     socialButtons := Undefined;
     hiddenDate := Undefined;
     timedEntry := Undefined |}.

(** What the API answers when it creates the sample row. *)
Definition created : Universe.Event.t :=
  {| Universe.Event.id := "evt42";
     Universe.Event.slug := "summer-concert";
     Universe.Event.state := "DRAFT";
     Universe.Event.clientMutationId := Some "event-create-1-k3x9qa-rec001" |}.

End Host.

(* ====================================================================== *)
(** * Vocabulary of the statements *)
(* ====================================================================== *)

(** ** Answers of the remote services used in the examples *)

Module Scenario.

Import Eff.

(** A sound row that does not ask for publication, and one that does. *)
Definition draft : AirtableEvent := Host.row (Some "19:00") None None Undefined.
Definition posted : AirtableEvent := Host.row (Some "19:00") None None (Bool true).

(** Create and publish work; the first status write is refused, the later
    ones go through. *)
Definition flaky_write : World :=
  {| createEvent_outcome := fun _ => Return Host.created;
     publishEvent_outcome := fun _ => Return tt;
     tableUpdate_outcome :=
       fun n => match n with
                | O => Throw "ECONNRESET"
                | S _ => Return tt
                end |}.

(** Create and publish work; every status write is refused. *)
Definition no_write : World :=
  {| createEvent_outcome := fun _ => Return Host.created;
     publishEvent_outcome := fun _ => Return tt;
     tableUpdate_outcome := fun _ => Throw "ECONNRESET" |}.


(** Create works, the publish call is refused. *)
Definition no_publish : World :=
  {| createEvent_outcome := fun _ => Return Host.created;
     publishEvent_outcome := fun _ => Throw "Publish errors: Not authorized";
     tableUpdate_outcome := fun _ => Return tt |}.

End Scenario.

(** ** The rules of the validator *)

Module ValidatorSpec.

Import Validator.

Definition dates_present (e : AirtableEvent) : bool :=
  truthy_str (startDate e) && truthy_str (startTime e)
  && truthy_str (endDate e) && truthy_str (endTime e).

Definition start_format_error : string :=
  "Start time must be in HH:MM format (e.g., 19:30)".
Definition end_format_error : string :=
  "End time must be in HH:MM format (e.g., 22:00)".
Definition price_error : string := "Rate price cannot be negative".
Definition capacity_error : string := "Capacity must be at least 1".
Definition privacy_error : string :=
  "Privacy must be PUBLIC, PRIVATE, or UNLISTED (case insensitive)".

(** The instants that the ordering rule compares. *)
Definition instant (rt : Runtime) (date time : option string) : option Z :=
  setHours rt (Date_parse rt (tpl date))
    (component 0 (map Number (split ":" (tpl time))))
    (component 1 (map Number (split ":" (tpl time)))).

(** The rules that feed the error list, in the order of the source: the
    condition under which a rule fires, and its message. *)
Definition rules (rt : Runtime) (e : AirtableEvent) : list (bool * string) :=
  [ (negb (truthy_str (option_map trim (title e))), "Title is required");
    (negb (truthy_str (startDate e)), "Start date is required");
    (negb (truthy_str (startTime e)), "Start time is required");
    (negb (truthy_str (endDate e)), "End date is required");
    (negb (truthy_str (endTime e)), "End time is required");
    (negb (truthy_str (option_map trim (address e))), "Address is required");
    (negb (truthy_str (option_map trim (venueName e))), "Venue name is required");
    (negb (truthy_str (option_map trim (cityName e))), "City name is required");
    (dates_present e && negb (test timeRegex (tpl (startTime e))),
     start_format_error);
    (dates_present e && negb (test timeRegex (tpl (endTime e))),
     end_format_error);
    (dates_present e
     && (test timeRegex (tpl (startTime e)) && test timeRegex (tpl (endTime e)))
     && time_ge (instant rt (startDate e) (startTime e))
                (instant rt (endDate e) (endTime e)),
     "Event end must be after event start (supports multi-day events)");
    (truthy_num (ratePrice e) && num_lt (ratePrice e) 0, price_error);
    (truthy_num (capacity e) && num_lt (capacity e) 1, capacity_error);
    (truthy_str (countryCode e)
     && negb (Nat.eqb (String.length (tpl (countryCode e))) 2),
     "Country code must be 2 characters (e.g., CA, US)");
    (truthy_str (dateDisplayOption e)
     && negb (includes ["FULL"; "SHORT"; "HIDDEN"] (tpl (dateDisplayOption e))),
     "Date display option must be FULL, SHORT, or HIDDEN");
    (truthy_str (privacy e)
     && negb (includes ["PUBLIC"; "PRIVATE"; "UNLISTED";
                        "public"; "private"; "unlisted"] (tpl (privacy e))),
     privacy_error) ].

Definition fired (l : list (bool * string)) : list string :=
  map snd (filter fst l).

Definition privacy_values : list string :=
  ["PUBLIC"; "PRIVATE"; "UNLISTED"; "public"; "private"; "unlisted"].

End ValidatorSpec.

(** ** Flags of the request *)

Module TransformerSpec.

(** What it means for a flag of the request to follow [=== true]: the key
    is there, with the value [true], exactly when the cell is the boolean
    [true]; for any other cell the key is absent. *)
Definition strict_flag (cell : value) (key : option bool) : Prop :=
  (key = Some true <-> cell = Bool true) /\ (cell <> Bool true -> key = None).

Definition strict_publish (cell : value) (key : bool) : Prop :=
  (key = true <-> cell = Bool true) /\ (cell <> Bool true -> key = false).

End TransformerSpec.

(** ** Traces of the per-record protocol *)

Module Protocol.

Import Eff Airtable Creator.

(** The fields that [markAsError] and [markAsCreated] write. *)
Definition error_fields (rt : Runtime) (errorMessage : string) : Table.fields :=
  {| Table.status := "Error";
     Table.errorMessage := Some (substring0 1000 errorMessage);
     Table.lastUpdated := today rt;
     Table.universeEventId := None;
     Table.universeUrl := None;
     Table.createdAt := None;
     Table.clientMutationId := None |}.

Definition created_fields (rt : Runtime) (universeEventId universeUrl : string)
    (clientMutationId : option string) : Table.fields :=
  {| Table.status := "Created";
     Table.universeEventId := Some universeEventId;
     Table.universeUrl := Some universeUrl;
     Table.createdAt := Some (today rt);
     Table.lastUpdated := today rt;
     Table.clientMutationId := keep clientMutationId;
     Table.errorMessage := None |}.

(** The states that the remote calls lead to. *)
Definition created_call (event : AirtableEvent) (st : State) : State :=
  {| createCalls := S (createCalls st);
     publishCalls := publishCalls st;
     updateCalls := updateCalls st;
     trace := trace st ++ [CreateEvent event] |}.

Definition publish_call (eventId : string) (st : State) : State :=
  {| createCalls := createCalls st;
     publishCalls := S (publishCalls st);
     updateCalls := updateCalls st;
     trace := trace st ++ [PublishEvent eventId] |}.

Definition update_call (recordId : string) (data : Table.fields) (st : State)
  : State :=
  {| createCalls := createCalls st;
     publishCalls := publishCalls st;
     updateCalls := S (updateCalls st);
     trace := trace st ++ [TableUpdate recordId data] |}.

(** The trace without the log entries: the remote calls and the waits. *)
Definition is_log (e : effect) : bool :=
  match e with
  | Log _ _ _ => true
  | _ => false
  end.

Definition actions (t : list effect) : list effect :=
  filter (fun e => negb (is_log e)) t.

(** The messages of [processEvent] and of [markAsCreated]. *)
Definition publish_warning (event : AirtableEvent) (publishError : string) : effect :=
  Log LWarn ("Event created but failed to publish: " ++ tpl (title event))
      (Some publishError).

Definition published_entry (event : AirtableEvent) : effect :=
  Log LInfo ("Event published: " ++ tpl (title event)) None.

Definition success_entry (event : AirtableEvent) (universeEvent : Universe.Event.t)
  : effect :=
  Log LSuccess
      ("Event created: " ++ tpl (title event) ++ " -> "
       ++ Universe.getEventUrl (Universe.Event.slug universeEvent)) None.

Definition retry_warning (maxRetries : Z) (event : AirtableEvent) (retryCount : Z)
  : effect :=
  Log LWarn
      ("Retrying event " ++ tpl (title event) ++ " (attempt "
       ++ tpl_int (retryCount + 1) ++ "/" ++ tpl_int (maxRetries + 1) ++ ")")
      None.

Definition created_failure (recordId e : string) : effect :=
  Log LError ("Failed to mark record " ++ recordId ++ " as created:") (Some e).

Definition error_failure (recordId e : string) : effect :=
  Log LError ("Failed to mark record " ++ recordId ++ " as error:") (Some e).

(** The Created write of an attempt. *)
Definition created_write (rt : Runtime) (event : AirtableEvent)
    (universeEvent : Universe.Event.t) : effect :=
  TableUpdate (airtableId event)
    (created_fields rt (Universe.Event.id universeEvent)
       (Universe.getEventUrl (Universe.Event.slug universeEvent))
       (Universe.Event.clientMutationId universeEvent)).

Definition error_write (rt : Runtime) (event : AirtableEvent) (message : string)
  : effect :=
  TableUpdate (airtableId event) (error_fields rt message).

(** Publication is attempted when the row asks for it and the event is not
    posted yet. *)
Definition wants_publish (event : AirtableEvent) (universeEvent : Universe.Event.t)
  : bool :=
  strict_true (publish event)
  && negb (String.eqb (Universe.Event.state universeEvent) "POSTED").

(** The publish step of an attempt always completes: its own [catch] turns
    a failure into a warning. *)
Definition after_publish (w : World) (event : AirtableEvent)
    (universeEvent : Universe.Event.t) (st : State) : State :=
  if wants_publish event universeEvent then
    match publishEvent_outcome w (publishCalls st) with
    | Return _ =>
        emit (published_entry event)
          (publish_call (Universe.Event.id universeEvent) st)
    | Throw e =>
        emit (publish_warning event e)
          (publish_call (Universe.Event.id universeEvent) st)
    end
  else st.

(** The [catch] block of [processEvent]. *)
Definition handler (rt : Runtime) (maxRetries : Z) (w : World)
    (event : AirtableEvent) (retryCount : Z) (error : string)
  : M Universe.Event.t :=
  if retryCount <? maxRetries then
    (log LWarn
       ("Retrying event " ++ tpl (title event) ++ " (attempt "
        ++ tpl_int (retryCount + 1) ++ "/" ++ tpl_int (maxRetries + 1) ++ ")")
       None ;;
     delay (1000 * (retryCount + 1)) ;;
     processEvent rt maxRetries w event (retryCount + 1))%eff
  else
    (markAsError rt w (airtableId event) error ;;
     throw error)%eff.

(** The calls and waits of [n] failed attempts starting at [retryCount]:
    each attempt calls create and is followed by a wait of 1000 ms times
    the number of the attempt. *)
Definition failed_attempts (event : AirtableEvent) (retryCount : Z) (n : nat)
  : list effect :=
  flat_map
    (fun k => [CreateEvent event; Delay (1000 * (retryCount + Z.of_nat k))])
    (seq 1 n).

(** The publish call of an attempt, when there is one. *)
Definition publish_action (event : AirtableEvent) (universeEvent : Universe.Event.t)
  : list effect :=
  if wants_publish event universeEvent
  then [PublishEvent (Universe.Event.id universeEvent)]
  else [].

(** Two worlds that answer the create calls and the status writes alike
    (they may differ on the publish calls), and two states with the same
    counters and the same calls and waits. *)
Definition same_answers (w w' : World) : Prop :=
  (forall n, createEvent_outcome w n = createEvent_outcome w' n)
  /\ (forall n, tableUpdate_outcome w n = tableUpdate_outcome w' n).

Definition same_calls (st st' : State) : Prop :=
  createCalls st = createCalls st'
  /\ publishCalls st = publishCalls st'
  /\ updateCalls st = updateCalls st'
  /\ actions (trace st) = actions (trace st').

End Protocol.

(* ====================================================================== *)
(** ** More of the sources: batches of validations, the run, the service *)
(* ====================================================================== *)

(** [l.forEach(f)] and [for (const x of l) await f(x)]. *)
Module Loop.

Import Eff.

Fixpoint forEach {A : Type} (f : A -> M unit) (l : list A) : M unit :=
  match l with
  | [] => ret tt
  | x :: rest => (f x ;; forEach f rest)%eff
  end.

End Loop.

(** *** src/services/validator.js: [validateBatch] *)

Module ValidatorBatch.

Import Eff Loop.

Module Validated.
Record t : Type := {
  airtableId : string;
  title : option string;
  validation : Validator.ValidationResult
}.
End Validated.

Module Batch.
Record t : Type := {
  valid : list Validated.t;
  invalid : list Validated.t;
  totalCount : nat
}.
End Batch.

Section WithRuntime.

Variable rt : Runtime.

Definition validateBatch (events : list AirtableEvent) : M Batch.t :=
  let results :=
    map (fun event =>
           {| Validated.airtableId := airtableId event;
              Validated.title := title event;
              Validated.validation := Validator.validateEvent rt event |})
        events in
  let validEvents :=
    filter (fun r => Validator.isValid (Validated.validation r)) results in
  let invalidEvents :=
    filter (fun r => negb (Validator.isValid (Validated.validation r))) results in
  (log LInfo
     ("Validation complete: " ++ tpl_int (Z.of_nat (List.length validEvents))
      ++ " valid, " ++ tpl_int (Z.of_nat (List.length invalidEvents))
      ++ " invalid events") None ;;
   (if (0 <? List.length invalidEvents)%nat then
      log LWarn "Invalid events found:" None ;;
      forEach
        (fun event =>
           log LWarn
             ("- " ++ tpl (Validated.title event) ++ ": "
              ++ join ", " (Validator.errors (Validated.validation event)))
             None)
        invalidEvents
    else ret tt) ;;
   ret {| Batch.valid := validEvents;
          Batch.invalid := invalidEvents;
          Batch.totalCount := List.length events |})%eff.

End WithRuntime.

End ValidatorBatch.

(** *** src/services/airtable.js: [getUnprocessedEvents] *)

Module AirtableFetch.

Import Eff.

(** [selected] is how [table.select({filterByFormula}).all()] settles, its
    records already turned into events (the record id and the fields). *)
Definition getUnprocessedEvents (selected : completion (list AirtableEvent))
  : M (list AirtableEvent) :=
  try_catch
    (events <- (fun st => (lift selected, st)) ;;
     log LInfo
       ("Found " ++ tpl_int (Z.of_nat (List.length events))
        ++ " unprocessed events in Airtable") None ;;
     ret events)%eff
    (fun error =>
       log LError "Failed to fetch events from Airtable:" (Some error) ;;
       throw error)%eff.

End AirtableFetch.

(** *** src/index.js: the constructor, [processBatches] and [run] *)

Module Run.

Import Eff Loop.

(** What [parseInt] makes of the three environment variables ([None] is
    [NaN]: the variable is not set, or does not start with a number). *)
Record Env : Type := {
  BATCH_SIZE : option Z;
  DELAY_BETWEEN_BATCHES : option Z;
  MAX_RETRIES : option Z
}.

(** [parseInt(x) || d] *)
Definition or_default (n : option Z) (d : Z) : Z :=
  match n with
  | Some z => if z =? 0 then d else z
  | None => d
  end.

Record Settings : Type := {
  batchSize : Z;
  delayBetweenBatches : Z;
  maxRetries : Z
}.

Definition settings (env : Env) : Settings :=
  {| batchSize := or_default (BATCH_SIZE env) 5;
     delayBetweenBatches := or_default (DELAY_BETWEEN_BATCHES env) 2000;
     maxRetries := or_default (MAX_RETRIES env) 3 |}.

Section BulkEventCreator.

Variable rt : Runtime.
Variable this : Settings.
(** The answers to the calls that process one record, by record id, and the
    answers to the status writes that the run itself makes. *)
Variable worlds : string -> World.
Variable w : World.

(** The [for] loop of [processBatches]: [n] is [batches.length], [batches]
    what is left from index [i] on; the counters are the local variables.
    The spinner and the console lines are left out. *)
Fixpoint processBatches_loop (n : nat) (batches : list (list AirtableEvent))
    (i : nat) (successCount errorCount : nat) : M Creator.BatchResult :=
  match batches with
  | [] =>
      ret {| Creator.success := successCount; Creator.errors := errorCount |}
  | batch :: rest =>
      (counts <-
         try_catch
           (results <-
              ret (Creator.processBatch rt (maxRetries this) worlds batch) ;;
            (if Z.of_nat i <? Z.of_nat n - 1
             then delay (delayBetweenBatches this)
             else ret tt) ;;
            ret ((successCount + Creator.success results)%nat,
                 (errorCount + Creator.errors results)%nat))
           (fun error =>
              forEach
                (fun event =>
                   Airtable.markAsError rt w (airtableId event)
                     ("Batch processing failed: " ++ error))
                batch ;;
              ret (successCount, (errorCount + List.length batch)%nat)) ;;
       processBatches_loop n rest (S i) (fst counts) (snd counts))%eff
  end.

Definition processBatches (events : list AirtableEvent) : M Creator.BatchResult :=
  match Creator.createBatches (batchSize this) events with
  | Some batches => processBatches_loop (List.length batches) batches 0 0 0
  | None => out_of_fuel
  end.

(** [events.find(e => e.airtableId === id)] *)
Definition find_event (events : list AirtableEvent) (id : string)
  : option AirtableEvent :=
  find (fun e => String.eqb (airtableId e) id) events.

(** [validation.valid.map(v => events.find(...))]; an entry is [None] when
    [find] gives [undefined]. *)
Definition validEvents (events : list AirtableEvent)
    (valid : list ValidatorBatch.Validated.t) : list (option AirtableEvent) :=
  map (fun v => find_event events (ValidatorBatch.Validated.airtableId v)) valid.

Fixpoint defined (l : list (option AirtableEvent)) : option (list AirtableEvent) :=
  match l with
  | [] => Some []
  | Some e :: rest =>
      match defined rest with
      | Some es => Some (e :: es)
      | None => None
      end
  | None :: _ => None
  end.

(** [run]; [selected] is how the Airtable query settles.  An [undefined]
    entry of [validEvents] cannot occur (every valid result comes from an
    event of the list); the model gives that case the [TypeError] that
    reading a field of [undefined] raises. *)
Definition run (selected : completion (list AirtableEvent)) : M unit :=
  try_catch
    (events <- AirtableFetch.getUnprocessedEvents selected ;;
     if (List.length events =? 0)%nat then ret tt
     else
       validation <- ValidatorBatch.validateBatch rt events ;;
       (if (0 <? List.length (ValidatorBatch.Batch.invalid validation))%nat then
          forEach
            (fun invalid =>
               Airtable.markAsError rt w
                 (ValidatorBatch.Validated.airtableId invalid)
                 (join "; "
                    (Validator.errors (ValidatorBatch.Validated.validation invalid))))
            (ValidatorBatch.Batch.invalid validation)
        else ret tt) ;;
       let validEvents :=
         validEvents events (ValidatorBatch.Batch.valid validation) in
       if (List.length validEvents =? 0)%nat then ret tt
       else
         match defined validEvents with
         | Some l => (_ <- processBatches l ;; ret tt)
         | None => throw "Cannot read properties of undefined (reading 'airtableId')"
         end)%eff
    (fun error => log LError "Failed to run bulk creator:" (Some error)).

End BulkEventCreator.

End Run.


(** *** src/services/universe.js: the access token and [createEvent] *)

Module UniverseService.

(** A thrown error, with the parts of it that the service reads:
    [error.message], [error.response?.data] and [error.response?.errors]
    (the last two rendered as the logger prints them). *)
Record error : Type := {
  message : string;
  response_data : option string;
  response_errors : option string
}.

(** [new Error(message)] *)
Definition Error (message : string) : error :=
  {| message := message; response_data := None; response_errors := None |}.

Inductive outcome (A : Type) : Type :=
| Resolved (a : A)
| Rejected (e : error).
Arguments Resolved {A} a.
Arguments Rejected {A} e.

(** [response.data] of the token request. *)
Record TokenResponse : Type := {
  access_token : string;
  expires_in : Z
}.

(** [result.eventCreate]: the mutation id the API echoes, its error list
    ([None] when the key is [null] or missing) and the event. *)
Module Payload.
Record t : Type := {
  clientMutationId : option string;
  errors : option (list string);
  event_id : string;
  event_title : option string;
  event_slug : string;
  event_state : string
}.
End Payload.

Inductive effect : Type :=
| TokenPost                                                  (* axios.post *)
| Request (bearer : string) (input : Universe.EventCreateInput.t)  (* client.request *)
| Log (l : Eff.level) (message : string) (data : option string).

(** The network and the clock: how the n-th token request and the n-th
    GraphQL request settle, and what the n-th reading of [Date.now()]
    gives. *)
Record Net : Type := {
  post_outcome : nat -> outcome TokenResponse;
  request_outcome : nat -> outcome Payload.t;
  now : nat -> Z
}.

(** The fields of the service object ([client] is kept as the bearer token
    its header carries), and what it has done so far. *)
Record Service : Type := {
  accessToken : option string;
  tokenExpiration : option Z;
  client : option string;
  posts : nat;
  requests : nat;
  reads : nat;
  output : list effect
}.

(** A service as the constructor leaves it. *)
Definition fresh : Service :=
  {| accessToken := None; tokenExpiration := None; client := None;
     posts := 0; requests := 0; reads := 0; output := [] |}.

Definition N (A : Type) : Type := Service -> outcome A * Service.

Definition ret {A : Type} (a : A) : N A := fun s => (Resolved a, s).

Definition throw {A : Type} (e : error) : N A := fun s => (Rejected e, s).

Definition bind {A B : Type} (m : N A) (k : A -> N B) : N B :=
  fun s =>
    match m s with
    | (Resolved a, s') => k a s'
    | (Rejected e, s') => (Rejected e, s')
    end.

Definition try_catch {A : Type} (m : N A) (h : error -> N A) : N A :=
  fun s =>
    match m s with
    | (Rejected e, s') => h e s'
    | r => r
    end.

Definition emit (e : effect) (s : Service) : Service :=
  {| accessToken := accessToken s; tokenExpiration := tokenExpiration s;
     client := client s; posts := posts s; requests := requests s;
     reads := reads s; output := output s ++ [e] |}.

Definition log (l : Eff.level) (message : string) (data : option string) : N unit :=
  fun s => (Resolved tt, emit (Log l message data) s).

Section WithNet.

Variable net : Net.

(** [Date.now()] *)
Definition Date_now : N Z :=
  fun s =>
    (Resolved (now net (reads s)),
     {| accessToken := accessToken s; tokenExpiration := tokenExpiration s;
        client := client s; posts := posts s; requests := requests s;
        reads := S (reads s); output := output s |}).

(** [axios.post('https://www.universe.com/oauth/token', ...)] *)
Definition post_token : N TokenResponse :=
  fun s =>
    (post_outcome net (posts s),
     {| accessToken := accessToken s; tokenExpiration := tokenExpiration s;
        client := client s; posts := S (posts s); requests := requests s;
        reads := reads s; output := output s ++ [TokenPost] |}).

(** [this.client.request(mutation, { input })]; without a client the call
    is a [TypeError]. *)
Definition request (input : Universe.EventCreateInput.t) : N Payload.t :=
  fun s =>
    match client s with
    | Some bearer =>
        (request_outcome net (requests s),
         {| accessToken := accessToken s; tokenExpiration := tokenExpiration s;
            client := client s; posts := posts s; requests := S (requests s);
            reads := reads s; output := output s ++ [Request bearer input] |})
    | None =>
        (Rejected (Error "Cannot read properties of null (reading 'request')"), s)
    end.

(** The assignments of [getAccessToken] after a token response. *)
Definition store (token : string) (expiration : Z) : N unit :=
  fun s =>
    (Resolved tt,
     {| accessToken := Some token; tokenExpiration := Some expiration;
        client := Some token; posts := posts s; requests := requests s;
        reads := reads s; output := output s |}).

(** [this.tokenExpiration > t]; [null] compares as 0. *)
Definition expires_after (expiration : option Z) (t : Z) : bool :=
  match expiration with
  | Some e => t <? e
  | None => t <? 0
  end.

Definition or_message (data : option string) (message : string) : string :=
  if truthy_str data then tpl data else message.

Definition getAccessToken : N string :=
  fun s =>
    let refresh : N string :=
      try_catch
        (bind post_token (fun response =>
         bind Date_now (fun t =>
         bind (store (access_token response) (t + expires_in response * 1000))
              (fun _ =>
         bind (log Eff.LInfo "Universe access token obtained" None) (fun _ =>
         ret (access_token response))))))
        (fun error =>
           bind (log Eff.LError "Failed to get Universe access token:"
                     (Some (or_message (response_data error) (message error))))
                (fun _ => throw error)) in
    if truthy_str (accessToken s) then
      match Date_now s with
      | (Resolved t, s') =>
          if expires_after (tokenExpiration s') t
          then (Resolved (tpl (accessToken s')), s')
          else refresh s'
      | (Rejected e, s') => (Rejected e, s')
      end
    else refresh s.

(** [errors && errors.length > 0] *)
Definition has_errors (errors : option (list string)) : bool :=
  match errors with
  | Some l => (0 <? List.length l)%nat
  | None => false
  end.

Definition errors_list (errors : option (list string)) : list string :=
  match errors with
  | Some l => l
  | None => []
  end.

Definition lift_completion {A : Type} (c : completion A) : N A :=
  match c with
  | Return a => ret a
  | Throw m => throw (Error m)
  end.

Section WithRuntime.

Variable rt : Runtime.

Definition createEvent (eventData : AirtableEvent) : N Universe.Event.t :=
  bind getAccessToken (fun _ =>
  try_catch
    (bind (lift_completion (Universe.transformToEventCreateInput rt eventData))
          (fun input =>
     bind (log Eff.LInfo
             ("Creating event: " ++ tpl (title eventData) ++ " (ClientMutationId: "
              ++ Universe.EventCreateInput.clientMutationId input ++ ")") None)
          (fun _ =>
     bind (request input) (fun result =>
     if has_errors (Payload.errors result) then
       throw (Error ("Universe API errors: "
                     ++ join ", " (errors_list (Payload.errors result))))
     else
       bind (log Eff.LInfo
               ("Event created successfully: " ++ tpl (Payload.event_title result)
                ++ " (ID: " ++ Payload.event_id result ++ ", MutationId: "
                ++ tpl (Payload.clientMutationId result) ++ ")") None)
            (fun _ =>
       ret {| Universe.Event.id := Payload.event_id result;
              Universe.Event.slug := Payload.event_slug result;
              Universe.Event.state := Payload.event_state result;
              Universe.Event.clientMutationId :=
                Payload.clientMutationId result |})))))
    (fun error =>
       bind (log Eff.LError ("Failed to create event: " ++ tpl (title eventData))
                 (Some (message error)))
            (fun _ =>
       bind (match response_errors error with
             | Some errs => log Eff.LError "GraphQL errors:" (Some errs)
             | None => ret tt
             end)
            (fun _ => throw error)))).

End WithRuntime.

End WithNet.

End UniverseService.


(* ====================================================================== *)
(** * Vocabulary of the further statements *)
(* ====================================================================== *)

(** ** The language of a pattern *)

Module RegexSpec.

(** The strings that a pattern denotes. *)
Inductive matches : regex -> string -> Prop :=
| MEps : matches ReEps ""
| MChar (c : ascii) : matches (ReChar c) (String c "")
| MRange (lo hi c : ascii) :
    in_range lo hi c = true -> matches (ReRange lo hi) (String c "")
| MSeq (r1 r2 : regex) (s1 s2 : string) :
    matches r1 s1 -> matches r2 s2 -> matches (ReSeq r1 r2) (s1 ++ s2)
| MAltL (r1 r2 : regex) (s : string) : matches r1 s -> matches (ReAlt r1 r2) s
| MAltR (r1 r2 : regex) (s : string) : matches r2 s -> matches (ReAlt r1 r2) s
| MOptNone (r : regex) : matches (ReOpt r) ""
| MOptSome (r : regex) (s : string) : matches r s -> matches (ReOpt r) s.

Definition digit (c : ascii) : Prop := in_range "0" "9" c = true.

(** A time of day written [H:MM] or [HH:MM]: an hour from 0 to 23 with
    one or two digits, a colon, a minute from 00 to 59. *)
Definition time_of_day (s : string) : Prop :=
  (exists h m1 m2,
      s = String h (String ":" (String m1 (String m2 "")))
      /\ digit h /\ in_range "0" "5" m1 = true /\ digit m2)
  \/ (exists h1 h2 m1 m2,
         s = String h1 (String h2 (String ":" (String m1 (String m2 ""))))
         /\ ((in_range "0" "1" h1 = true /\ digit h2)
             \/ (h1 = "2"%char /\ in_range "0" "3" h2 = true))
         /\ in_range "0" "5" m1 = true /\ digit m2).

End RegexSpec.


(** ** More of the rules of the validator *)

Module ValidatorMore.

Import Validator ValidatorSpec.

(** A cell that the presence rules take for missing: an absent or empty
    cell, and for the trimmed fields also a cell of white space. *)
Definition missing (cell : option string) : Prop :=
  cell = None \/ cell = Some "".

Definition blank (cell : option string) : Prop :=
  match cell with
  | Some s => trim s = ""
  | None => True
  end.

Definition ordering_error : string :=
  "Event end must be after event start (supports multi-day events)".
Definition duration_warning : string := "Event duration is longer than 7 days".
Definition past_warning : string := "Event start date is in the past".
Definition tiktok_warning : string :=
  "TikTok pixel codes should not contain empty values".
Definition facebook_warning : string :=
  "Facebook pixel codes should not contain empty values".

(** The messages of the eight presence rules, in the order of the source. *)
Definition required_errors : list string :=
  [ "Title is required"; "Start date is required"; "Start time is required";
    "End date is required"; "End time is required"; "Address is required";
    "Venue name is required"; "City name is required" ].

(** The rules that feed the warning list, in the order of the source. *)
Definition warn_rules (rt : Runtime) (e : AirtableEvent) : list (bool * string) :=
  [ (dates_present e
     && (test timeRegex (tpl (startTime e)) && test timeRegex (tpl (endTime e)))
     && exceeds (durationHours (instant rt (endDate e) (endTime e))
                               (instant rt (startDate e) (startTime e))) 168,
     duration_warning);
    (dates_present e
     && time_lt (Date_parse rt (tpl (startDate e)))
                (setHours rt (Some (Date_now rt)) (Some 0) (Some 0)),
     past_warning);
    (truthy_str (tiktokPixelCodes e) && has_empty_code (tpl (tiktokPixelCodes e)),
     tiktok_warning);
    (truthy_str (facebookPixelCodes e)
     && has_empty_code (tpl (facebookPixelCodes e)),
     facebook_warning) ].

End ValidatorMore.


(** ** A row with no cell, and the values of some keys of the request *)

Module Samples.

(** A row of which Airtable only has the record id. *)
Definition bare : AirtableEvent :=
  {| airtableId := "rec000";
     title := None; description := None;
     startDate := None; startTime := None; endDate := None; endTime := None;
     address := None; venueName := None; cityName := None; region := None;
     countryCode := None; dateDisplayOption := None; privacy := None;
     categoryId := None; latitude := None; longitude := None;
     rateName := None; ratePrice := None; rateCapacity := None;
     rateDescription := None; capacity := None; maxQuantity := None;
     transactionCurrency := None; availableCountries := None;
     tiktokPixelCodes := None; facebookPixelCodes := None;
     googleAnalytics4Id := None;
     publish := Undefined; virtual := Undefined; allowWaitlist := Undefined;
     socialButtons := Undefined; hiddenDate := Undefined;
     timedEntry := Undefined |}.

End Samples.

Module TransformerMore.

Import Universe.

(** The instant strings of the one schedule entry. *)
Definition instant_string (date time : option string) : string :=
  first (split "T" (tpl date)) ++ "T" ++ padStart 5 "0" (tpl time) ++ ":00".

(** A text key of the request: present with the cell's value when the cell
    is a non-empty string, absent otherwise. *)
Definition text_key (cell : option string) : option string :=
  if truthy_str cell then cell else None.

(** A list key of the request: the comma separated pieces, trimmed. *)
Definition list_key (cell : option string) : option (list string) :=
  if truthy_str cell then Some (map trim (split "," (tpl cell))) else None.

(** A number cell that the transformer takes into account: present and not
    zero. *)
Definition nonzero (cell : option Q) : Prop :=
  exists q, cell = Some q /\ ~ (q == 0)%Q.

Definition default_latitude : Q := (43653226 # 1000000)%Q.
Definition default_longitude : Q := (- (793831843 # 10000000))%Q.

End TransformerMore.


(** ** Characters of a string *)

Module Chars.

(** The character [c] occurs in [s]. *)
Fixpoint occurs (c : ascii) (s : string) : Prop :=
  match s with
  | EmptyString => False
  | String d s' => d = c \/ occurs c s'
  end.

(** The line feed. *)
Definition LF : ascii := ascii_of_nat 10.

(** [s] is made of strings of [ws], one after the other. *)
Inductive made_of (ws : list string) : string -> Prop :=
| made_nil : made_of ws ""
| made_cons (w s : string) : In w ws -> made_of ws s -> made_of ws (w ++ s).

(** [s] holds white space and nothing else. *)
Definition white_only (s : string) : Prop := made_of white_space s.

(** No string of [ws] is the start of another one. *)
Definition apart (ws : list string) : bool :=
  forallb
    (fun w => forallb (fun w' => String.eqb w w' || negb (String.prefix w w')) ws)
    ws.

End Chars.


(** ** Batches of validations and the run *)

Module RunSpec.

Import Eff.

(** The entry of [validateBatch] for an event. *)
Definition validated (rt : Runtime) (event : AirtableEvent)
  : ValidatorBatch.Validated.t :=
  {| ValidatorBatch.Validated.airtableId := airtableId event;
     ValidatorBatch.Validated.title := title event;
     ValidatorBatch.Validated.validation := Validator.validateEvent rt event |}.

Definition is_valid (rt : Runtime) (event : AirtableEvent) : bool :=
  Validator.isValid (Validator.validateEvent rt event).

(** [st'] comes from [st] by log entries alone. *)
Definition only_logged (st st' : State) : Prop :=
  createCalls st' = createCalls st
  /\ publishCalls st' = publishCalls st
  /\ updateCalls st' = updateCalls st
  /\ exists entries,
       trace st' = (trace st ++ entries)%list
       /\ Forall (fun e => Protocol.is_log e = true) entries.


(** How a record's processing settled. *)
Definition resolved {A : Type} (r : result A) : bool :=
  match r with
  | Ret _ => true
  | _ => false
  end.

Definition rejected {A : Type} (r : result A) : bool :=
  match r with
  | Exn _ => true
  | _ => false
  end.

End RunSpec.


Module WaitSpec.

Import Eff.


End WaitSpec.


(** ** The service object of universe.js *)

Module ServiceSpec.

Import UniverseService.

(** The service after one more reading of the clock. *)
Definition tick (s : Service) : Service :=
  {| accessToken := accessToken s; tokenExpiration := tokenExpiration s;
     client := client s; posts := posts s; requests := requests s;
     reads := S (reads s); output := output s |}.

(** The test at the head of [getAccessToken]: there is a token and it has
    not expired at the next reading of the clock. *)
Definition usable (net : Net) (s : Service) : bool :=
  truthy_str (accessToken s)
  && expires_after (tokenExpiration s) (now net (reads s)).

(** The service after that test; the clock is read only when there is a
    token. *)
Definition tested (s : Service) : Service :=
  if truthy_str (accessToken s) then tick s else s.

(** The client carries the token of the service: so the constructor leaves
    it, and so [getAccessToken] sets the two. *)
Definition coherent (s : Service) : Prop := client s = accessToken s.

Definition token_log : effect :=
  Log Eff.LInfo "Universe access token obtained" None.

Definition token_failure (e : error) : effect :=
  Log Eff.LError "Failed to get Universe access token:"
    (Some (or_message (response_data e) (message e))).

(** The service after a token request that [r] answers, and after one that
    fails with [e]. *)
Definition refreshed (net : Net) (r : TokenResponse) (s : Service) : Service :=
  {| accessToken := Some (access_token r);
     tokenExpiration := Some (now net (reads s) + expires_in r * 1000);
     client := Some (access_token r);
     posts := S (posts s); requests := requests s; reads := S (reads s);
     output := output s ++ [TokenPost; token_log] |}.

Definition unrefreshed (e : error) (s : Service) : Service :=
  {| accessToken := accessToken s; tokenExpiration := tokenExpiration s;
     client := client s;
     posts := S (posts s); requests := requests s; reads := reads s;
     output := output s ++ [TokenPost; token_failure e] |}.

Definition creating (eventData : AirtableEvent)
    (input : Universe.EventCreateInput.t) : effect :=
  Log Eff.LInfo
    ("Creating event: " ++ tpl (title eventData) ++ " (ClientMutationId: "
     ++ Universe.EventCreateInput.clientMutationId input ++ ")") None.

Definition create_failure (eventData : AirtableEvent) (e : error) : effect :=
  Log Eff.LError ("Failed to create event: " ++ tpl (title eventData))
    (Some (message e)).

(** The requests among the effects. *)
Definition is_request (e : effect) : bool :=
  match e with
  | Request _ _ => true
  | _ => false
  end.

(** A network whose token request gives [token], valid for [seconds], and
    whose GraphQL request gives [payload]; the clock advances by one second
    at every reading. *)
Definition steady (token : string) (seconds : Z) (payload : Payload.t) : Net :=
  {| post_outcome := fun _ => Resolved {| access_token := token;
                                          expires_in := seconds |};
     request_outcome := fun _ => Resolved payload;
     now := fun n => 1000 * Z.of_nat n |}.

(** A network that refuses every token request. *)
Definition offline : Net :=
  {| post_outcome := fun _ => Rejected {| message := "Request failed with status code 401";
                                         response_data := Some "invalid_client";
                                         response_errors := None |};
     request_outcome := fun _ => Rejected (Error "socket hang up");
     now := fun n => 1000 * Z.of_nat n |}.

Definition accepted : Payload.t :=
  {| Payload.clientMutationId := Some "event-create-1-k3x9qa-rec001";
     Payload.errors := None;
     Payload.event_id := "evt42";
     Payload.event_title := Some "Summer Concert";
     Payload.event_slug := "summer-concert";
     Payload.event_state := "DRAFT" |}.

Definition refused : Payload.t :=
  {| Payload.clientMutationId := None;
     Payload.errors := Some ["Title is invalid"; "Rate is invalid"];
     Payload.event_id := "";
     Payload.event_title := None;
     Payload.event_slug := "";
     Payload.event_state := "" |}.

End ServiceSpec.

(* ====================================================================== *)
(** * Properties *)
(* ====================================================================== *)

(** ** The validator *)

Module ValidatorFacts.

Import Validator ValidatorSpec.

Lemma push_app (c : bool) (msg : string) (l : list string) :
  push c msg l = (l ++ fired [(c, msg)])%list.
Proof. destruct c; cbn; [ reflexivity | now rewrite app_nil_r ]. Qed.

Lemma fired_cons (c : bool) (msg : string) (p : bool * string)
    (l : list (bool * string)) :
  fired ((c, msg) :: p :: l) = (fired [(c, msg)] ++ fired (p :: l))%list.
Proof. destruct c; reflexivity. Qed.

Lemma In_fired (x : string) (l : list (bool * string)) :
  In x (fired l) <-> In (true, x) l.
Proof.
  unfold fired. rewrite in_map_iff. split.
  - intros [[c m] [Hm Hin]]. apply filter_In in Hin. destruct Hin as [Hin Hc].
    simpl in Hm, Hc. subst. exact Hin.
  - intros Hin. exists (true, x). split; [ reflexivity | ].
    apply filter_In. split; [ exact Hin | reflexivity ].
Qed.

Lemma errors_rules (rt : Runtime) (e : AirtableEvent) :
  errors (validateEvent rt e) = fired (rules rt e).
Proof.
  unfold validateEvent, rules, dates_present, instant.
  destruct (truthy_str (startDate e) && truthy_str (startTime e)
            && truthy_str (endDate e) && truthy_str (endTime e));
    [ destruct (test timeRegex (tpl (startTime e)));
      destruct (test timeRegex (tpl (endTime e))) | ];
    cbv beta iota zeta delta [errors andb negb];
    rewrite !push_app;
    rewrite !fired_cons; rewrite <- ?app_assoc; reflexivity.
Qed.

Lemma In_errors (rt : Runtime) (e : AirtableEvent) (x : string) :
  In x (errors (validateEvent rt e)) <-> In (true, x) (rules rt e).
Proof. rewrite errors_rules. apply In_fired. Qed.

End ValidatorFacts.

Module ValidatorRules.

Import Validator ValidatorSpec ValidatorFacts.

(** Splits membership in the rule list into the rule that fired. *)
Ltac fired_rule H :=
  apply In_errors in H;
  cbv delta [rules start_format_error end_format_error price_error
             capacity_error privacy_error] in H;
  cbv beta iota delta [In] in H;
  repeat (destruct H as [H | H]);
  try discriminate H; try contradiction;
  injection H as H.

Tactic Notation "fire" integer(n) :=
  apply In_errors;
  cbv delta [rules start_format_error end_format_error price_error
             capacity_error privacy_error];
  cbv beta iota delta [In];
  do n right; left; f_equal.

(** The two format rules: inside the date and time block, an error exactly
    for a value that the pattern does not match. *)
Lemma start_format_rule (rt : Runtime) (e : AirtableEvent) :
  In start_format_error (errors (validateEvent rt e)) <->
  dates_present e = true /\ test timeRegex (tpl (startTime e)) = false.
Proof.
  split.
  - intros H. fired_rule H.
    apply andb_prop in H. destruct H as [H1 H2].
    apply negb_true_iff in H2. split; assumption.
  - intros [H1 H2]. fire 8. rewrite H1, H2. reflexivity.
Qed.

Lemma end_format_rule (rt : Runtime) (e : AirtableEvent) :
  In end_format_error (errors (validateEvent rt e)) <->
  dates_present e = true /\ test timeRegex (tpl (endTime e)) = false.
Proof.
  split.
  - intros H. fired_rule H.
    apply andb_prop in H. destruct H as [H1 H2].
    apply negb_true_iff in H2. split; assumption.
  - intros [H1 H2]. fire 9. rewrite H1, H2. reflexivity.
Qed.

(** The price rule: an error exactly for a negative price. *)
Lemma price_rule (rt : Runtime) (e : AirtableEvent) :
  In price_error (errors (validateEvent rt e)) <->
  exists q, ratePrice e = Some q /\ (q < 0)%Q.
Proof.
  split.
  - intros H. fired_rule H.
    apply andb_prop in H. destruct H as [_ H].
    destruct (ratePrice e) as [q|]; [ | discriminate ].
    exists q. split; [ reflexivity | ].
    simpl in H. apply Qnot_le_lt. intros Hle.
    apply Qle_bool_iff in Hle. rewrite Hle in H. discriminate.
  - intros [q [Hq Hlt]]. fire 11.
    rewrite Hq. simpl.
    assert (Hne : Qeq_bool q 0 = false).
    { destruct (Qeq_bool q 0) eqn:E; [ | reflexivity ].
      apply Qeq_bool_iff in E. rewrite E in Hlt.
      exfalso. exact (Qlt_irrefl 0 Hlt). }
    assert (Hle : Qle_bool 0 q = false).
    { destruct (Qle_bool 0 q) eqn:E; [ | reflexivity ].
      apply Qle_bool_iff in E. exfalso. exact (Qlt_not_le _ _ Hlt E). }
    rewrite Hne, Hle. reflexivity.
Qed.

(** The capacity rule: an error exactly for a capacity below 1 that is not
    zero; the guard [eventData.capacity && ...] takes 0 for an absent
    cell. *)
Lemma capacity_rule (rt : Runtime) (e : AirtableEvent) :
  In capacity_error (errors (validateEvent rt e)) <->
  exists q, capacity e = Some q /\ ~ (q == 0)%Q /\ (q < 1)%Q.
Proof.
  split.
  - intros H. fired_rule H.
    apply andb_prop in H. destruct H as [H0 H].
    destruct (capacity e) as [q|]; [ | discriminate ].
    exists q. split; [ reflexivity | ]. simpl in H0, H. split.
    + intros Heq. apply Qeq_bool_iff in Heq. rewrite Heq in H0. discriminate.
    + apply Qnot_le_lt. intros Hle.
      apply Qle_bool_iff in Hle. rewrite Hle in H. discriminate.
  - intros [q [Hq [Hne Hlt]]]. fire 12.
    rewrite Hq. simpl.
    assert (Hz : Qeq_bool q 0 = false).
    { destruct (Qeq_bool q 0) eqn:E; [ | reflexivity ].
      apply Qeq_bool_iff in E. contradiction. }
    assert (Hle : Qle_bool 1 q = false).
    { destruct (Qle_bool 1 q) eqn:E; [ | reflexivity ].
      apply Qle_bool_iff in E. exfalso. exact (Qlt_not_le _ _ Hlt E). }
    rewrite Hz, Hle. reflexivity.
Qed.

(** The privacy rule: an error exactly for a non-empty value that is not one
    of the six spellings the validator lists. *)
Lemma privacy_rule (rt : Runtime) (e : AirtableEvent) :
  In privacy_error (errors (validateEvent rt e)) <->
  exists s, privacy e = Some s /\ s <> "" /\ ~ In s privacy_values.
Proof.
  split.
  - intros H. fired_rule H.
    apply andb_prop in H. destruct H as [H0 H].
    destruct (privacy e) as [s|]; [ | discriminate ].
    exists s. split; [ reflexivity | ]. simpl in H0. split.
    + intros ->. discriminate.
    + intros Hin. apply negb_true_iff in H.
      assert (Hex : includes privacy_values s = true).
      { apply existsb_exists. exists s. split; [ exact Hin | apply String.eqb_refl ]. }
      change (includes privacy_values s = false) in H. congruence.
  - intros [s [Hs [Hne Hnin]]]. fire 15.
    rewrite Hs. simpl tpl. simpl truthy_str.
    apply andb_true_intro. split.
    + apply negb_true_iff. apply String.eqb_neq. exact Hne.
    + apply negb_true_iff.
      fold privacy_values.
      destruct (includes privacy_values s) eqn:E; [ | reflexivity ].
      unfold includes in E. apply existsb_exists in E.
      destruct E as [y [Hy Heq]]. apply String.eqb_eq in Heq. subst y.
      contradiction.
Qed.

End ValidatorRules.

Section ValidatorClaims.

Import Validator ValidatorSpec ValidatorFacts ValidatorRules.

(** C3, at the failing input.  The value ["9:00"], which the notes on the
    time format in the repository list among the invalid formats, passes
    the format check: the first digit of the hour is optional in the
    pattern.  A row with this start time and otherwise sound cells
    validates without any error. *)
Lemma time_9_00_passes_validation :
  test timeRegex "9:00" = true
  /\ errors (validateEvent Host.utc (Host.row (Some "9:00") None None Undefined)) = []
  /\ isValid (validateEvent Host.utc (Host.row (Some "9:00") None None Undefined))
     = true.
Proof. vm_compute. repeat split. Qed.

(** C3, what the code does.  For every record whose four date and time
    fields are present, the validator reports a start (end) time format
    error exactly when the start (end) time does not match the pattern,
    whose hour is 0 to 23 written with one or two digits and whose minute
    is 00 to 59: ["25:00"] fails the check and produces the format error
    as the claim says, while ["9:00"] passes it and produces none, against
    the claim and against the rule's own message, which asks for HH:MM. *)
Theorem validateEvent_time_format (rt : Runtime) (eventData : AirtableEvent) :
  truthy_str (startDate eventData) = true ->
  truthy_str (startTime eventData) = true ->
  truthy_str (endDate eventData) = true ->
  truthy_str (endTime eventData) = true ->
  (In start_format_error (errors (validateEvent rt eventData))
   <-> test timeRegex (tpl (startTime eventData)) = false)
  /\ (In end_format_error (errors (validateEvent rt eventData))
      <-> test timeRegex (tpl (endTime eventData)) = false)
  /\ (startTime eventData = Some "25:00"
      -> In start_format_error (errors (validateEvent rt eventData)))
  /\ (endTime eventData = Some "25:00"
      -> In end_format_error (errors (validateEvent rt eventData)))
  /\ (startTime eventData = Some "9:00"
      -> ~ In start_format_error (errors (validateEvent rt eventData)))
  /\ (endTime eventData = Some "9:00"
      -> ~ In end_format_error (errors (validateEvent rt eventData))).
Proof.
  intros H1 H2 H3 H4.
  assert (Hp : dates_present eventData = true).
  { unfold dates_present. rewrite H1, H2, H3, H4. reflexivity. }
  rewrite start_format_rule, end_format_rule.
  split; [ tauto | ]. split; [ tauto | ].
  split; [ intros E; rewrite E; split; [ exact Hp | reflexivity ] | ].
  split; [ intros E; rewrite E; split; [ exact Hp | reflexivity ] | ].
  split; intros E; rewrite E; intros [_ H]; discriminate H.
Qed.

Lemma validateEvent_time_format_witness :
  truthy_str (startDate (Host.row (Some "25:00") None None Undefined)) = true
  /\ truthy_str (startTime (Host.row (Some "25:00") None None Undefined)) = true
  /\ truthy_str (endDate (Host.row (Some "25:00") None None Undefined)) = true
  /\ truthy_str (endTime (Host.row (Some "25:00") None None Undefined)) = true
  /\ In start_format_error
        (errors (validateEvent Host.utc (Host.row (Some "25:00") None None Undefined))).
Proof.
  do 4 (split; [ reflexivity | ]).
  exact (proj1 (proj2 (proj2
           (validateEvent_time_format Host.utc
              (Host.row (Some "25:00") None None Undefined)
              eq_refl eq_refl eq_refl eq_refl)))
         eq_refl).
Defined.

(** C5, at the failing input.  The privacy value ["Private"] is a letter
    case variant of PRIVATE, yet the validator reports the privacy error
    for it (its list holds the upper and the lower case spellings only),
    while the transformer, which lower-cases the value, maps it to
    ["unlisted"]. *)
Theorem validateEvent_rejects_mixed_case_privacy (rt : Runtime) :
  In privacy_error
     (errors (validateEvent rt
                (Host.row (Some "19:00") (Some "Private") None Undefined)))
  /\ toLowerCase "Private" = "private"
  /\ exists input,
       Universe.transformToEventCreateInput rt
         (Host.row (Some "19:00") (Some "Private") None Undefined) = Return input
       /\ Universe.EventInput.privacy (Universe.EventCreateInput.event input)
          = Some "unlisted".
Proof.
  split; [ | split ].
  - apply privacy_rule. exists "Private".
    split; [ reflexivity | split; [ discriminate | ] ].
    unfold privacy_values. simpl. intuition discriminate.
  - reflexivity.
  - eexists. split; reflexivity.
Qed.

(** C8, at the failing input.  A capacity of 0 is present and less than 1,
    yet the validator reports no capacity error for it: the guard
    [eventData.capacity && ...] is false for 0. *)
Theorem validateEvent_accepts_zero_capacity (rt : Runtime) :
  ~ In capacity_error
      (errors (validateEvent rt (Host.row (Some "19:00") None (Some 0%Q) Undefined))).
Proof.
  rewrite capacity_rule. intros [q [Hq [Hne _]]].
  injection Hq as <-. apply Hne. reflexivity.
Qed.

End ValidatorClaims.

(** ** The request transformer *)

Module TransformerFacts.

Import Universe TransformerSpec.

Lemma strict_true_iff (v : value) : strict_true v = true <-> v = Bool true.
Proof.
  destruct v as [ | | [ | ] | q | | s ]; simpl; split;
    intros H; try reflexivity; discriminate H.
Qed.

Lemma flag_strict (v : value) : strict_flag v (flag v).
Proof.
  unfold strict_flag, flag.
  destruct (strict_true v) eqn:E.
  - apply strict_true_iff in E. subst v. split; [ tauto | congruence ].
  - split; [ | reflexivity ].
    split; [ discriminate | ].
    intros ->. discriminate E.
Qed.

Lemma publish_strict (v : value) : strict_publish v (strict_true v).
Proof.
  unfold strict_publish. split; [ apply strict_true_iff | ].
  intros Hne. destruct (strict_true v) eqn:E; [ | reflexivity ].
  apply strict_true_iff in E. contradiction.
Qed.

(** With the dates of a row, which are strings, the transformer returns. *)
Lemma transform_returns (rt : Runtime) (d : AirtableEvent) :
  exists input,
    transformToEventCreateInput rt d = Return input
    /\ EventCreateInput.publish input = strict_true (publish d)
    /\ EventInput.virtual (EventCreateInput.event input) = flag (virtual d)
    /\ EventInput.allowWaitlist (EventCreateInput.event input)
       = flag (allowWaitlist d)
    /\ EventInput.socialButtons (EventCreateInput.event input)
       = flag (socialButtons d)
    /\ EventInput.hiddenDate (EventCreateInput.event input) = flag (hiddenDate d)
    /\ EventInput.timedEntry (EventCreateInput.event input) = flag (timedEntry d).
Proof.
  unfold transformToEventCreateInput, combineDateAndTime.
  destruct (truthy_str (startDate d) && truthy_str (startTime d)
            && truthy_str (endDate d) && truthy_str (endTime d));
    eexists; (split; [ reflexivity | ]); repeat split.
Qed.

End TransformerFacts.

Section TransformerClaims.

Import Universe TransformerSpec TransformerFacts.

(** C4, counterexample.  ["25:00"] fails the format check, and
    [combineDateAndTime] still returns a combined instant for it. *)
Lemma combineDateAndTime_accepts_malformed_time :
  test Validator.timeRegex "25:00" = false
  /\ combineDateAndTime Host.utc (DateString "2025-07-31") "25:00"
     = Return "2025-07-31T25:00:00".
Proof. split; reflexivity. Qed.

(** C4, as amended.  [combineDateAndTime] makes no format check of its own:
    for a date given as a string, or as a valid [Date], it returns the date
    part, ["T"], the time string padded on the left with ["0"] to five
    characters, and [":00"], whatever the time string is; it only throws for
    an invalid [Date], and then for every time string. *)
Theorem combineDateAndTime_pads_any_time (rt : Runtime) (time : string) :
  (forall date : string,
     combineDateAndTime rt (DateString date) time
     = Return (first (split "T" date) ++ "T" ++ padStart 5 "0" time ++ ":00"))
  /\ (forall t : Z,
        combineDateAndTime rt (DateObject (Some t)) time
        = Return (first (split "T" (Date_toISOString rt t)) ++ "T"
                  ++ padStart 5 "0" time ++ ":00"))
  /\ combineDateAndTime rt (DateObject None) time = Throw "Invalid time value".
Proof. repeat split. Qed.

(** C10.  For every source record the transformer returns a request whose
    [publish] flag is [true] exactly when the record's [publish] cell is the
    boolean [true] (and [false] for any other cell: a string, a number, an
    absent cell), and in which each of the keys [virtual], [allowWaitlist],
    [socialButtons], [hiddenDate], [timedEntry] is present, with the value
    [true], exactly when the corresponding cell is the boolean [true], and
    absent for any other cell. *)
Theorem transformToEventCreateInput_strict_flags
    (rt : Runtime) (airtableData : AirtableEvent) :
  exists input,
    transformToEventCreateInput rt airtableData = Return input
    /\ strict_publish (publish airtableData) (EventCreateInput.publish input)
    /\ strict_flag (virtual airtableData)
         (EventInput.virtual (EventCreateInput.event input))
    /\ strict_flag (allowWaitlist airtableData)
         (EventInput.allowWaitlist (EventCreateInput.event input))
    /\ strict_flag (socialButtons airtableData)
         (EventInput.socialButtons (EventCreateInput.event input))
    /\ strict_flag (hiddenDate airtableData)
         (EventInput.hiddenDate (EventCreateInput.event input))
    /\ strict_flag (timedEntry airtableData)
         (EventInput.timedEntry (EventCreateInput.event input)).
Proof.
  destruct (transform_returns rt airtableData)
    as [input [H [Hp [Hv [Hw [Hs [Hh Ht]]]]]]].
  exists input. split; [ exact H | ].
  rewrite Hp, Hv, Hw, Hs, Hh, Ht.
  repeat split; try apply publish_strict; apply flag_strict.
Qed.

End TransformerClaims.

(** ** The status writes *)

Section AirtableClaims.

Import Eff Airtable Protocol.

(** C9.  [markAsError] never lets the failure of its status write out: it
    resolves whether the write resolves or rejects, and beyond the write it
    only adds an error entry to the log when the write rejected.  By
    contrast [markAsCreated] and [updateEventStatus] settle as their write
    does: they reject with the error of a rejected write. *)
Theorem markAsError_never_throws
    (rt : Runtime) (w : World) (recordId errorMessage : string) (st : State) :
  fst (markAsError rt w recordId errorMessage st) = Ret tt
  /\ trace (snd (markAsError rt w recordId errorMessage st))
     = (trace st
        ++ TableUpdate recordId (error_fields rt errorMessage)
        :: match tableUpdate_outcome w (updateCalls st) with
           | Return _ => []
           | Throw e =>
               [Log LError ("Failed to mark record " ++ recordId ++ " as error:")
                    (Some e)]
           end)%list
  /\ (forall (universeEventId universeUrl : string) (clientMutationId : option string),
        fst (markAsCreated rt w recordId universeEventId universeUrl
               clientMutationId st)
        = lift (tableUpdate_outcome w (updateCalls st)))
  /\ (forall (status : string) (universeEventId message clientMutationId : option string),
        fst (updateEventStatus rt w recordId status universeEventId message
               clientMutationId st)
        = lift (tableUpdate_outcome w (updateCalls st))).
Proof.
  unfold markAsError, markAsCreated, updateEventStatus, try_catch, bind,
    table_update, log, throw, emit, error_fields.
  destruct (tableUpdate_outcome w (updateCalls st)) as [[] | e]; cbn.
  - repeat split.
  - split; [ reflexivity | ].
    split; [ rewrite <- app_assoc; reflexivity | ].
    split; reflexivity.
Qed.

End AirtableClaims.

(** ** Batches *)

Module BatchFacts.

Import Creator.

Section Partition.

Context {A : Type}.
Variable batchSize : Z.
Hypothesis batchSize_pos : 0 < batchSize.
Variable events : list A.
(** The length of the input, as the loop test reads it. *)
Variable len : Z.
Hypothesis len_events : len = Z.of_nat (List.length events).

(** One more batch for each started stretch of [batchSize] events. *)
Lemma ceil_step (d : Z) :
  0 < d ->
  (Z.max 0 d + batchSize - 1) / batchSize
  = 1 + (Z.max 0 (d - batchSize) + batchSize - 1) / batchSize.
Proof.
  intros Hd. destruct (Z_lt_le_dec d batchSize) as [Hlt | Hge].
  - rewrite (Z.max_r 0 d) by lia. rewrite (Z.max_l 0 (d - batchSize)) by lia.
    rewrite (Z.div_small (0 + batchSize - 1)) by lia.
    symmetry. apply (Z.div_unique _ _ _ (d - 1)); lia.
  - rewrite (Z.max_r 0 d) by lia. rewrite (Z.max_r 0 (d - batchSize)) by lia.
    replace (d + batchSize - 1) with (d - batchSize + batchSize - 1 + 1 * batchSize)
      by lia.
    rewrite Z.div_add by lia. lia.
Qed.

(** The batch that the loop cuts at [i]. *)
Lemma slice_chunk (i : Z) :
  0 <= i -> i < len ->
  slice events i (i + batchSize)
  = firstn (Z.to_nat (Z.min batchSize (len - i))) (skipn (Z.to_nat i) events).
Proof.
  intros Hi HiL. unfold slice. rewrite <- len_events.
  destruct (i <? 0) eqn:E1; [ apply Z.ltb_lt in E1; lia | ].
  destruct (i + batchSize <? 0) eqn:E2; [ apply Z.ltb_lt in E2; lia | ].
  f_equal; [ | f_equal ]; lia.
Qed.

Lemma chunk_length (i : Z) :
  0 <= i -> i < len ->
  Z.of_nat (List.length (slice events i (i + batchSize))) = Z.min batchSize (len - i).
Proof.
  intros Hi HiL. rewrite slice_chunk by assumption.
  rewrite length_firstn, length_skipn. lia.
Qed.

Lemma chunk_rest (i : Z) :
  0 <= i -> i < len ->
  (slice events i (i + batchSize) ++ skipn (Z.to_nat (i + batchSize)) events)%list
  = skipn (Z.to_nat i) events.
Proof.
  intros Hi HiL. rewrite slice_chunk by assumption.
  destruct (Z_lt_le_dec (len - i) batchSize) as [Hlt | Hge].
  - rewrite Z.min_r by lia.
    rewrite (@skipn_all2 _ (Z.to_nat (i + batchSize)) events) by lia.
    rewrite app_nil_r. apply firstn_all2. rewrite length_skipn. lia.
  - rewrite Z.min_l by lia.
    replace (Z.to_nat (i + batchSize)) with (Z.to_nat batchSize + Z.to_nat i)%nat
      by lia.
    rewrite <- skipn_skipn. apply firstn_skipn.
Qed.

(** The loop from [i] on: it ends within the fuel, and what it appends to
    [batches] splits the events from [i] on. *)
Lemma loop_spec (fuel : nat) :
  forall (i : Z) (batches : list (list A)),
    0 <= i -> Z.max 0 (len - i) < Z.of_nat fuel ->
    exists rest,
      createBatches_loop batchSize fuel events i batches = Some (batches ++ rest)%list
      /\ List.concat rest = skipn (Z.to_nat i) events
      /\ Z.of_nat (List.length rest) = (Z.max 0 (len - i) + batchSize - 1) / batchSize
      /\ Forall (fun b => Z.of_nat (List.length b) <= batchSize) rest
      /\ (forall j, (S j < List.length rest)%nat ->
                    Z.of_nat (List.length (nth j rest [])) = batchSize).
Proof.
  induction fuel as [ | fuel IH ]; intros i batches Hi Hfuel; [ lia | ].
  simpl createBatches_loop. rewrite <- len_events.
  destruct (i <? len) eqn:E.
  - apply Z.ltb_lt in E.
    destruct (IH (i + batchSize)
                (batches ++ [slice events i (i + batchSize)])%list)
      as [rest [Hrun [Hcat [Hlen [Hall Hfull]]]]]; [ lia | lia | ].
    exists (slice events i (i + batchSize) :: rest).
    assert (Hcount :
              Z.of_nat (List.length (slice events i (i + batchSize) :: rest))
              = (Z.max 0 (len - i) + batchSize - 1) / batchSize).
    { rewrite ceil_step by lia.
      replace (len - i - batchSize) with (len - (i + batchSize)) by lia.
      rewrite <- Hlen. simpl List.length. lia. }
    split; [ rewrite Hrun, <- app_assoc; reflexivity | ].
    split; [ simpl; rewrite Hcat; apply chunk_rest; assumption | ].
    split; [ exact Hcount | ].
    split.
    + constructor; [ rewrite chunk_length by assumption; lia | exact Hall ].
    + intros [ | j ] Hj.
      * simpl nth. rewrite chunk_length by assumption.
        simpl List.length in Hj.
        assert (Hpos : 0 < (Z.max 0 (len - (i + batchSize)) + batchSize - 1) / batchSize)
          by lia.
        destruct (Z_lt_le_dec (len - (i + batchSize)) 1) as [Hs | Hs]; [ | lia ].
        rewrite Z.max_l in Hpos by lia. rewrite Z.div_small in Hpos by lia. lia.
      * simpl nth. apply Hfull. simpl List.length in Hj. lia.
  - apply Z.ltb_ge in E. exists [].
    split; [ rewrite app_nil_r; reflexivity | ].
    split; [ simpl; symmetry; apply skipn_all2; lia | ].
    split; [ rewrite Z.max_l by lia; rewrite Z.div_small by lia; reflexivity | ].
    split; [ constructor | ].
    intros j Hj. simpl in Hj. lia.
Qed.

End Partition.

End BatchFacts.

(** C6.  For every list of [L] events and every batch size [B > 0],
    [createBatches] returns; it produces the ceiling of [L / B] batches (the
    number [c] with [B * (c - 1) < L <= B * c]), every batch has at most
    [B] events, every batch but the last has exactly [B], and the batches
    put end to end are the input list. *)
Theorem createBatches_partition {A : Type} (batchSize : Z) (events : list A) :
  0 < batchSize ->
  exists batches,
    Creator.createBatches batchSize events = Some batches
    /\ Z.of_nat (List.length batches)
       = (Z.of_nat (List.length events) + batchSize - 1) / batchSize
    /\ batchSize * (Z.of_nat (List.length batches) - 1)
       < Z.of_nat (List.length events)
       <= batchSize * Z.of_nat (List.length batches)
    /\ Forall (fun b => Z.of_nat (List.length b) <= batchSize) batches
    /\ (forall j, (S j < List.length batches)%nat ->
                  Z.of_nat (List.length (nth j batches [])) = batchSize)
    /\ List.concat batches = events.
Proof.
  intros HB. unfold Creator.createBatches.
  destruct (BatchFacts.loop_spec batchSize HB events _ eq_refl
              (S (List.length events)) 0 [])
    as [batches [Hrun [Hcat [Hlen [Hall Hfull]]]]]; [ lia | lia | ].
  rewrite Z.sub_0_r, Z.max_r in Hlen by lia.
  exists batches. simpl in Hrun, Hcat.
  split; [ exact Hrun | ]. split; [ exact Hlen | ].
  split.
  - rewrite Hlen.
    pose proof (Z.mul_div_le (Z.of_nat (List.length events) + batchSize - 1)
                  batchSize HB).
    pose proof (Z.mul_succ_div_gt (Z.of_nat (List.length events) + batchSize - 1)
                  batchSize HB).
    lia.
  - split; [ exact Hall | ]. split; [ exact Hfull | exact Hcat ].
Qed.

Lemma createBatches_partition_witness :
  0 < 3
  /\ Creator.createBatches 3 [1; 2; 3; 4; 5; 6; 7]
     = Some [[1; 2; 3]; [4; 5; 6]; [7]].
Proof.
  split; [ reflexivity | ].
  destruct (createBatches_partition 3 [1; 2; 3; 4; 5; 6; 7] eq_refl)
    as [batches [Hrun _]].
  rewrite Hrun. vm_compute in Hrun. symmetry. exact Hrun.
Defined.

(** ** The per-record protocol *)

Module RetryFacts.

Import Eff Airtable Creator Protocol.

Lemma actions_app (a b : list effect) :
  actions (a ++ b) = (actions a ++ actions b)%list.
Proof. apply filter_app. Qed.

Section WithCreator.

Variable rt : Runtime.
Variable maxRetries : Z.
Variable w : World.
Variable event : AirtableEvent.

(** *** The status writes *)

Lemma markAsCreated_run (universeEvent : Universe.Event.t) (st : State) :
  markAsCreated rt w (airtableId event) (Universe.Event.id universeEvent)
    (Universe.getEventUrl (Universe.Event.slug universeEvent))
    (Universe.Event.clientMutationId universeEvent) st
  = match tableUpdate_outcome w (updateCalls st) with
    | Return _ =>
        (Ret tt,
         update_call (airtableId event)
           (created_fields rt (Universe.Event.id universeEvent)
              (Universe.getEventUrl (Universe.Event.slug universeEvent))
              (Universe.Event.clientMutationId universeEvent)) st)
    | Throw e =>
        (Exn e,
         emit (created_failure (airtableId event) e)
           (update_call (airtableId event)
              (created_fields rt (Universe.Event.id universeEvent)
                 (Universe.getEventUrl (Universe.Event.slug universeEvent))
                 (Universe.Event.clientMutationId universeEvent)) st))
    end.
Proof.
  unfold markAsCreated, try_catch, bind, table_update, log, throw.
  destruct (tableUpdate_outcome w (updateCalls st)) as [[] | e]; reflexivity.
Qed.

Lemma markAsError_run (message : string) (st : State) :
  markAsError rt w (airtableId event) message st
  = (Ret tt,
     match tableUpdate_outcome w (updateCalls st) with
     | Return _ => update_call (airtableId event) (error_fields rt message) st
     | Throw e =>
         emit (error_failure (airtableId event) e)
           (update_call (airtableId event) (error_fields rt message) st)
     end).
Proof.
  unfold markAsError, try_catch, bind, table_update, log.
  destruct (tableUpdate_outcome w (updateCalls st)) as [[] | e]; reflexivity.
Qed.

(** *** One attempt *)

(** An attempt, by the outcome of its create call and of its Created
    write. *)
Lemma attempt_run (st : State) :
  attempt rt w event st
  = match createEvent_outcome w (createCalls st) with
    | Throw e => (Exn e, created_call event st)
    | Return universeEvent =>
        let st2 := after_publish w event universeEvent (created_call event st) in
        match tableUpdate_outcome w (updateCalls st2) with
        | Return _ =>
            (Ret universeEvent,
             emit (success_entry event universeEvent)
               (update_call (airtableId event)
                  (created_fields rt (Universe.Event.id universeEvent)
                     (Universe.getEventUrl (Universe.Event.slug universeEvent))
                     (Universe.Event.clientMutationId universeEvent)) st2))
        | Throw e =>
            (Exn e,
             emit (created_failure (airtableId event) e)
               (update_call (airtableId event)
                  (created_fields rt (Universe.Event.id universeEvent)
                     (Universe.getEventUrl (Universe.Event.slug universeEvent))
                     (Universe.Event.clientMutationId universeEvent)) st2))
        end
    end.
Proof.
  unfold attempt. unfold bind at 1. unfold createEvent at 1.
  fold (created_call event st).
  destruct (createEvent_outcome w (createCalls st)) as [universeEvent | e];
    [ | reflexivity ].
  cbv beta iota delta [lift].
  unfold bind at 1.
  assert (Hpub :
    (if strict_true (publish event)
        && negb (String.eqb (Universe.Event.state universeEvent) "POSTED")
     then
       try_catch
         (publishEvent w (Universe.Event.id universeEvent) ;;
          log LInfo ("Event published: " ++ tpl (title event)) None)%eff
         (fun publishError =>
            log LWarn ("Event created but failed to publish: " ++ tpl (title event))
                (Some publishError))
     else ret tt) (created_call event st)
    = (Ret tt, after_publish w event universeEvent (created_call event st))).
  { unfold after_publish, wants_publish.
    destruct (strict_true (publish event)
              && negb (String.eqb (Universe.Event.state universeEvent) "POSTED"));
      [ | reflexivity ].
    unfold try_catch, bind, publishEvent, log.
    destruct (publishEvent_outcome w (publishCalls (created_call event st)))
      as [[] | e]; reflexivity. }
  rewrite Hpub. cbv zeta.
  unfold bind at 1. rewrite markAsCreated_run.
  destruct (tableUpdate_outcome w
              (updateCalls (after_publish w event universeEvent (created_call event st))))
    as [[] | e]; reflexivity.
Qed.

Lemma after_publish_counters (universeEvent : Universe.Event.t) (st : State) :
  createCalls (after_publish w event universeEvent st) = createCalls st
  /\ updateCalls (after_publish w event universeEvent st) = updateCalls st.
Proof.
  unfold after_publish.
  destruct (wants_publish event universeEvent); [ | split; reflexivity ].
  destruct (publishEvent_outcome w (publishCalls st)); split; reflexivity.
Qed.

(** *** The retry *)

(** [processEvent] satisfies the equation of the source: the fuel it starts
    from is exactly what the retries that remain need. *)
Lemma processEvent_unfold (retryCount : Z) (st : State) :
  processEvent rt maxRetries w event retryCount st
  = try_catch (attempt rt w event) (handler rt maxRetries w event retryCount) st.
Proof.
  unfold processEvent at 1. cbn [processEvent_fuel].
  unfold try_catch, handler.
  destruct (attempt rt w event st) as [[a | e | ] st1]; try reflexivity.
  destruct (retryCount <? maxRetries) eqn:E; [ | reflexivity ].
  apply Z.ltb_lt in E. unfold processEvent.
  replace (Z.to_nat (maxRetries - retryCount))
    with (S (Z.to_nat (maxRetries - (retryCount + 1)))) by lia.
  reflexivity.
Qed.

(** What the [catch] block does with the error of a failed attempt. *)
Lemma processEvent_retries (retryCount : Z) (st st1 : State) (e : string) :
  attempt rt w event st = (Exn e, st1) ->
  retryCount < maxRetries ->
  processEvent rt maxRetries w event retryCount st
  = processEvent rt maxRetries w event (retryCount + 1)
      (emit (Delay (1000 * (retryCount + 1)))
         (emit (retry_warning maxRetries event retryCount) st1)).
Proof.
  intros Hrun Hlt. rewrite processEvent_unfold. unfold try_catch. rewrite Hrun.
  unfold handler. apply Z.ltb_lt in Hlt. rewrite Hlt. reflexivity.
Qed.

Lemma processEvent_gives_up (retryCount : Z) (st st1 : State) (e : string) :
  attempt rt w event st = (Exn e, st1) ->
  maxRetries <= retryCount ->
  processEvent rt maxRetries w event retryCount st
  = (Exn e,
     match tableUpdate_outcome w (updateCalls st1) with
     | Return _ => update_call (airtableId event) (error_fields rt e) st1
     | Throw e' =>
         emit (error_failure (airtableId event) e')
           (update_call (airtableId event) (error_fields rt e) st1)
     end).
Proof.
  intros Hrun Hge. rewrite processEvent_unfold. unfold try_catch. rewrite Hrun.
  unfold handler. apply Z.ltb_ge in Hge. rewrite Hge.
  unfold bind. rewrite markAsError_run. reflexivity.
Qed.

Lemma processEvent_returns (retryCount : Z) (st st1 : State)
    (universeEvent : Universe.Event.t) :
  attempt rt w event st = (Ret universeEvent, st1) ->
  processEvent rt maxRetries w event retryCount st = (Ret universeEvent, st1).
Proof.
  intros Hrun. rewrite processEvent_unfold. unfold try_catch. rewrite Hrun.
  reflexivity.
Qed.

End WithCreator.

End RetryFacts.

Module RetrySchedule.

Import Eff Airtable Creator Protocol RetryFacts.

Lemma failed_attempts_S (event : AirtableEvent) (retryCount : Z) (n : nat) :
  failed_attempts event retryCount (S n)
  = (CreateEvent event :: Delay (1000 * (retryCount + 1))
     :: failed_attempts event (retryCount + 1) n)%list.
Proof.
  unfold failed_attempts. simpl seq. simpl flat_map.
  do 2 f_equal.
  rewrite <- seq_shift. rewrite flat_map_concat_map, map_map.
  rewrite <- flat_map_concat_map.
  apply flat_map_ext. intros k.
  replace (retryCount + 1 + Z.of_nat k) with (retryCount + Z.of_nat (S k)) by lia.
  reflexivity.
Qed.

Section WithCreator.

Variable rt : Runtime.
Variable maxRetries : Z.
Variable w : World.
Variable event : AirtableEvent.

Lemma after_publish_actions (universeEvent : Universe.Event.t) (st : State) :
  actions (trace (after_publish w event universeEvent st))
  = (actions (trace st) ++ publish_action event universeEvent)%list.
Proof.
  unfold after_publish, publish_action.
  destruct (wants_publish event universeEvent);
    [ | rewrite app_nil_r; reflexivity ].
  destruct (publishEvent_outcome w (publishCalls st)); simpl trace;
    rewrite <- app_assoc, actions_app; reflexivity.
Qed.

(** Retry exhaustion: create fails on every attempt that the budget
    allows. *)
Lemma exhausted (msg : nat -> string) (n : nat) :
  forall (retryCount : Z) (st : State),
    maxRetries - retryCount = Z.of_nat n ->
    (forall k, (k <= n)%nat ->
               createEvent_outcome w (createCalls st + k) = Throw (msg k)) ->
    exists st',
      processEvent rt maxRetries w event retryCount st = (Exn (msg n), st')
      /\ createCalls st' = (createCalls st + S n)%nat
      /\ actions (trace st')
         = (actions (trace st) ++ failed_attempts event retryCount n
            ++ [CreateEvent event; error_write rt event (msg n)])%list.
Proof.
  induction n as [ | n IH ] in msg |- *; intros retryCount st Hn Hfail.
  - pose proof (Hfail 0%nat (le_n _)) as H0. rewrite Nat.add_0_r in H0.
    pose proof (attempt_run rt w event st) as Hrun. rewrite H0 in Hrun.
    eexists. split; [ | split ].
    + rewrite (processEvent_gives_up rt maxRetries w event _ _ _ _ Hrun) by lia.
      reflexivity.
    + destruct (tableUpdate_outcome w (updateCalls (created_call event st)));
        simpl; lia.
    + destruct (tableUpdate_outcome w (updateCalls (created_call event st)));
        simpl trace; rewrite <- ?app_assoc, !actions_app; reflexivity.
  - pose proof (Hfail 0%nat (Nat.le_0_l _)) as H0. rewrite Nat.add_0_r in H0.
    pose proof (attempt_run rt w event st) as Hrun. rewrite H0 in Hrun.
    rewrite (processEvent_retries rt maxRetries w event _ _ _ _ Hrun) by lia.
    destruct (IH (fun k => msg (S k)) (retryCount + 1)
                (emit (Delay (1000 * (retryCount + 1)))
                   (emit (retry_warning maxRetries event retryCount)
                      (created_call event st))))
      as [st' [Hres [Hcalls Hact]]].
    + lia.
    + intros k Hk. simpl createCalls.
      replace (S (createCalls st) + k)%nat with (createCalls st + S k)%nat by lia.
      apply Hfail. lia.
    + exists st'. split; [ exact Hres | split ].
      * rewrite Hcalls. simpl. lia.
      * rewrite Hact. simpl trace. rewrite failed_attempts_S.
        rewrite <- !app_assoc, !actions_app. simpl. rewrite <- !app_assoc.
        reflexivity.
Qed.


End WithCreator.

End RetrySchedule.

Module RetryTotal.

Import Eff Airtable Creator Protocol RetryFacts.

Section WithCreator.

Variable rt : Runtime.
Variable maxRetries : Z.
Variable w : World.
Variable event : AirtableEvent.

(** An attempt never runs out of fuel, and calls create exactly once. *)
Lemma attempt_settles (st : State) :
  fst (attempt rt w event st) <> Fuel
  /\ createCalls (snd (attempt rt w event st)) = S (createCalls st).
Proof.
  rewrite attempt_run.
  destruct (createEvent_outcome w (createCalls st)) as [universeEvent | e];
    [ | split; [ discriminate | reflexivity ] ].
  cbv zeta.
  destruct (after_publish_counters w event universeEvent (created_call event st))
    as [Hc _].
  destruct (tableUpdate_outcome w _);
    (split; [ discriminate | simpl; rewrite Hc; reflexivity ]).
Qed.

(** [processEvent] settles (the fuel it is given is enough), and every run
    of it calls create at least once. *)
Lemma processEvent_settles (n : nat) :
  forall (retryCount : Z) (st : State),
    Z.to_nat (maxRetries - retryCount) = n ->
    fst (processEvent rt maxRetries w event retryCount st) <> Fuel
    /\ (createCalls st < createCalls (snd (processEvent rt maxRetries w event
                                             retryCount st)))%nat.
Proof.
  induction n as [ | n IH ]; intros retryCount st Hn;
    destruct (attempt_settles st) as [Hfuel Hcalls];
    destruct (attempt rt w event st) as [[a | e | ] st1] eqn:Hrun;
    try (exfalso; apply Hfuel; reflexivity); simpl in Hcalls.
  - rewrite (processEvent_returns rt maxRetries w event _ _ _ _ Hrun).
    split; [ discriminate | simpl; lia ].
  - rewrite (processEvent_gives_up rt maxRetries w event _ _ _ _ Hrun) by lia.
    split; [ discriminate | ].
    destruct (tableUpdate_outcome w (updateCalls st1)); simpl; lia.
  - rewrite (processEvent_returns rt maxRetries w event _ _ _ _ Hrun).
    split; [ discriminate | simpl; lia ].
  - rewrite (processEvent_retries rt maxRetries w event _ _ _ _ Hrun) by lia.
    destruct (IH (retryCount + 1)
                (emit (Delay (1000 * (retryCount + 1)))
                   (emit (retry_warning maxRetries event retryCount) st1)))
      as [Hf Hc]; [ lia | ].
    split; [ exact Hf | ].
    eapply Nat.lt_trans; [ | exact Hc ]. simpl. lia.
Qed.

End WithCreator.

(** [processBatch] counts every record of the batch once. *)
Lemma tally_total (rs : list (result Universe.Event.t)) :
  Forall (fun r => r <> Fuel) rs ->
  (success (tally rs) + errors (tally rs) = List.length rs)%nat.
Proof.
  unfold tally.
  assert (G : forall acc,
             Forall (fun r : result Universe.Event.t => r <> Fuel) rs ->
             (success (fold_left
                         (fun acc r =>
                            match r with
                            | Ret _ => {| success := S (success acc);
                                          errors := errors acc |}
                            | Exn _ => {| success := success acc;
                                          errors := S (errors acc) |}
                            | Fuel => acc
                            end) rs acc)
              + errors (fold_left
                          (fun acc r =>
                             match r with
                             | Ret _ => {| success := S (success acc);
                                           errors := errors acc |}
                             | Exn _ => {| success := success acc;
                                           errors := S (errors acc) |}
                             | Fuel => acc
                             end) rs acc)
              = success acc + errors acc + List.length rs)%nat).
  { induction rs as [ | r rs IH ]; intros acc Hall; [ simpl; lia | ].
    inversion Hall as [ | ? ? Hr Hrs ]; subst.
    simpl fold_left. destruct r as [a | e | ]; [ | | contradiction ];
      rewrite IH by assumption; simpl; lia. }
  intros Hall. rewrite G by assumption. reflexivity.
Qed.

Lemma processBatch_total (rt : Runtime) (maxRetries : Z)
    (worlds : string -> World) (events : list AirtableEvent) :
  (success (processBatch rt maxRetries worlds events)
   + errors (processBatch rt maxRetries worlds events)
   = List.length events)%nat.
Proof.
  unfold processBatch. rewrite tally_total.
  - unfold settle. apply length_map.
  - unfold settle. apply Forall_map. apply Forall_forall. intros e _.
    apply (processEvent_settles rt maxRetries (worlds (airtableId e)) e
             (Z.to_nat (maxRetries - 0)) 0 initial eq_refl).
Qed.

End RetryTotal.

Module PublishFacts.

Import Eff Airtable Creator Protocol RetryFacts RetrySchedule.

Section WithCreator.

Variable rt : Runtime.
Variable maxRetries : Z.
Variable w w' : World.
Variable event : AirtableEvent.
Hypothesis answers : same_answers w w'.

Lemma after_publish_calls (v : World) (universeEvent : Universe.Event.t)
    (st : State) :
  publishCalls (after_publish v event universeEvent st)
  = if wants_publish event universeEvent
    then S (publishCalls st) else publishCalls st.
Proof.
  unfold after_publish. destruct (wants_publish event universeEvent);
    [ | reflexivity ].
  destruct (publishEvent_outcome v (publishCalls st)); reflexivity.
Qed.

Lemma same_calls_emit (e : effect) (st st' : State) :
  same_calls st st' -> same_calls (emit e st) (emit e st').
Proof.
  intros [Hc [Hp [Hu Ha]]]. unfold same_calls, emit. simpl.
  rewrite !actions_app, Ha. repeat split; assumption.
Qed.

Lemma same_calls_update (recordId : string) (data : Table.fields)
    (st st' : State) :
  same_calls st st' ->
  same_calls (update_call recordId data st) (update_call recordId data st').
Proof.
  intros [Hc [Hp [Hu Ha]]]. unfold same_calls, update_call. simpl.
  rewrite !actions_app, Ha, Hu. repeat split; assumption.
Qed.

Lemma same_calls_after_publish (universeEvent : Universe.Event.t)
    (st st' : State) :
  same_calls st st' ->
  same_calls (after_publish w event universeEvent st)
             (after_publish w' event universeEvent st').
Proof.
  intros [Hc [Hp [Hu Ha]]]. unfold same_calls.
  destruct (after_publish_counters w event universeEvent st) as [Hc1 Hu1].
  destruct (after_publish_counters w' event universeEvent st') as [Hc2 Hu2].
  rewrite Hc1, Hc2, Hu1, Hu2, !after_publish_calls, !after_publish_actions.
  rewrite Hp, Ha. repeat split; assumption.
Qed.

(** An attempt settles alike, with the same calls, whatever the publish
    calls answer. *)
Lemma attempt_same_calls (st st' : State) :
  same_calls st st' ->
  fst (attempt rt w event st) = fst (attempt rt w' event st')
  /\ same_calls (snd (attempt rt w event st)) (snd (attempt rt w' event st')).
Proof.
  intros Hsame. destruct answers as [Hcreate Hwrite].
  assert (Hstart : same_calls (created_call event st) (created_call event st')).
  { destruct Hsame as [Hc [Hp [Hu Ha]]]. unfold same_calls, created_call. simpl.
    rewrite !actions_app, Ha, Hc. repeat split; assumption. }
  rewrite !attempt_run.
  destruct Hsame as [Hc _]. rewrite <- Hc, <- Hcreate.
  destruct (createEvent_outcome w (createCalls st)) as [universeEvent | e];
    [ | split; [ reflexivity | exact Hstart ] ].
  cbv zeta.
  pose proof (same_calls_after_publish universeEvent _ _ Hstart) as Hpub.
  destruct Hpub as [Hc' [Hp' [Hu' Ha']]].
  rewrite <- Hu', <- Hwrite.
  destruct (tableUpdate_outcome w _);
    (split; [ reflexivity | ]);
    apply same_calls_emit, same_calls_update;
    repeat split; assumption.
Qed.

(** So does [processEvent]: the answers to the publish calls change
    neither its outcome nor its calls and waits. *)
Lemma processEvent_same_calls (n : nat) :
  forall (retryCount : Z) (st st' : State),
    Z.to_nat (maxRetries - retryCount) = n ->
    same_calls st st' ->
    fst (processEvent rt maxRetries w event retryCount st)
    = fst (processEvent rt maxRetries w' event retryCount st')
    /\ same_calls (snd (processEvent rt maxRetries w event retryCount st))
                  (snd (processEvent rt maxRetries w' event retryCount st')).
Proof.
  destruct answers as [Hcreate Hwrite].
  induction n as [ | n IH ]; intros retryCount st st' Hn Hsame;
    destruct (attempt_same_calls st st' Hsame) as [Hres Hst];
    destruct (attempt rt w event st) as [r1 st1] eqn:Hrun;
    destruct (attempt rt w' event st') as [r2 st2] eqn:Hrun';
    simpl in Hres, Hst; subst r2;
    destruct r1 as [a | e | ].
  - rewrite (processEvent_returns rt maxRetries w event _ _ _ _ Hrun).
    rewrite (processEvent_returns rt maxRetries w' event _ _ _ _ Hrun').
    split; [ reflexivity | exact Hst ].
  - rewrite (processEvent_gives_up rt maxRetries w event _ _ _ _ Hrun) by lia.
    rewrite (processEvent_gives_up rt maxRetries w' event _ _ _ _ Hrun') by lia.
    split; [ reflexivity | ]. simpl snd.
    destruct Hst as [Hc [Hp [Hu Ha]]]. rewrite <- Hu, <- Hwrite.
    destruct (tableUpdate_outcome w (updateCalls st1));
      [ | apply same_calls_emit ]; apply same_calls_update;
      repeat split; assumption.
  - rewrite !processEvent_unfold. unfold try_catch. rewrite Hrun, Hrun'.
    split; [ reflexivity | exact Hst ].
  - rewrite (processEvent_returns rt maxRetries w event _ _ _ _ Hrun).
    rewrite (processEvent_returns rt maxRetries w' event _ _ _ _ Hrun').
    split; [ reflexivity | exact Hst ].
  - rewrite (processEvent_retries rt maxRetries w event _ _ _ _ Hrun) by lia.
    rewrite (processEvent_retries rt maxRetries w' event _ _ _ _ Hrun') by lia.
    apply IH; [ lia | ]. apply same_calls_emit, same_calls_emit. exact Hst.
  - rewrite !processEvent_unfold. unfold try_catch. rewrite Hrun, Hrun'.
    split; [ reflexivity | exact Hst ].
Qed.

End WithCreator.

End PublishFacts.

Section ProtocolClaims.

Import Eff Airtable Creator Protocol RetryFacts RetrySchedule RetryTotal PublishFacts.

(** C1, counterexample.  With [maxRetries = 3], create succeeds and the
    Created write that follows is refused: the record re-enters the retry
    loop, and create is called a second time after the wait of 1000 ms.
    When every status write is refused, create succeeds four times, and the
    batch counts the record as an error. *)
Lemma created_write_failure_triggers_retry :
  createEvent_outcome Scenario.flaky_write 0 = Return Host.created
  /\ tableUpdate_outcome Scenario.flaky_write 0 = Throw "ECONNRESET"
  /\ trace (snd (processEvent Host.utc 3 Scenario.flaky_write Scenario.draft 0
                   initial))
     = [ CreateEvent Scenario.draft;
         created_write Host.utc Scenario.draft Host.created;
         created_failure "rec001" "ECONNRESET";
         retry_warning 3 Scenario.draft 0;
         Delay 1000;
         CreateEvent Scenario.draft;
         created_write Host.utc Scenario.draft Host.created;
         success_entry Scenario.draft Host.created ]
  /\ createCalls (snd (processEvent Host.utc 3 Scenario.no_write Scenario.draft 0
                         initial)) = 4%nat
  /\ fst (processEvent Host.utc 3 Scenario.no_write Scenario.draft 0 initial)
     = Exn "ECONNRESET"
  /\ processBatch Host.utc 3 (fun _ => Scenario.no_write) [Scenario.draft]
     = {| success := 0; errors := 1 |}.
Proof. vm_compute. repeat split. Qed.

(** C1, as amended.  For every record whose create call succeeds, if the
    Created write that follows fails, the failure is logged and thrown on
    into the [catch] block of [processEvent], which treats it as any other
    failure of the attempt: while [retryCount < maxRetries] the record
    re-enters the retry loop after the wait, so that create is called
    again; from [maxRetries] on the record is marked Error and
    [processEvent] rejects, which the tally of the batch counts as an
    error. *)
Theorem created_write_failure_is_retried
    (rt : Runtime) (maxRetries : Z) (w : World) (event : AirtableEvent)
    (retryCount : Z) (st : State) (universeEvent : Universe.Event.t) (e : string) :
  createEvent_outcome w (createCalls st) = Return universeEvent ->
  tableUpdate_outcome w (updateCalls st) = Throw e ->
  exists st1,
    attempt rt w event st = (Exn e, st1)
    /\ (exists before,
          trace st1
          = (before ++ [created_write rt event universeEvent;
                        created_failure (airtableId event) e])%list)
    /\ (retryCount < maxRetries ->
        processEvent rt maxRetries w event retryCount st
        = processEvent rt maxRetries w event (retryCount + 1)
            (emit (Delay (1000 * (retryCount + 1)))
               (emit (retry_warning maxRetries event retryCount) st1))
        /\ (createCalls st + 2
            <= createCalls (snd (processEvent rt maxRetries w event retryCount st)))%nat)
    /\ (maxRetries <= retryCount ->
        fst (processEvent rt maxRetries w event retryCount st) = Exn e
        /\ In (error_write rt event e)
              (trace (snd (processEvent rt maxRetries w event retryCount st)))
        /\ tally [fst (processEvent rt maxRetries w event retryCount st)]
           = {| success := 0; errors := 1 |}).
Proof.
  intros Hcreate Hwrite.
  pose proof (attempt_run rt w event st) as Hrun.
  rewrite Hcreate in Hrun. cbv zeta in Hrun.
  destruct (after_publish_counters w event universeEvent (created_call event st))
    as [Hc Hu].
  rewrite Hu in Hrun. simpl updateCalls in Hrun. rewrite Hwrite in Hrun.
  eexists. split; [ exact Hrun | ].
  split; [ | split ].
  - eexists. simpl trace. rewrite <- app_assoc. reflexivity.
  - intros Hlt.
    rewrite (processEvent_retries rt maxRetries w event _ _ _ _ Hrun Hlt).
    split; [ reflexivity | ].
    destruct (processEvent_settles rt maxRetries w event _ (retryCount + 1)
                (emit (Delay (1000 * (retryCount + 1)))
                   (emit (retry_warning maxRetries event retryCount)
                      (emit (created_failure (airtableId event) e)
                         (update_call (airtableId event)
                            (created_fields rt (Universe.Event.id universeEvent)
                               (Universe.getEventUrl
                                  (Universe.Event.slug universeEvent))
                               (Universe.Event.clientMutationId universeEvent))
                            (after_publish w event universeEvent
                               (created_call event st))))))
                eq_refl) as [_ Hgrow].
    eapply Nat.le_trans; [ | exact Hgrow ].
    simpl createCalls. rewrite Hc. simpl. lia.
  - intros Hge.
    rewrite (processEvent_gives_up rt maxRetries w event _ _ _ _ Hrun Hge).
    split; [ reflexivity | ]. split; [ | reflexivity ].
    simpl snd.
    match goal with
    | |- context [ match ?o with Return _ => _ | Throw _ => _ end ] => destruct o
    end; simpl trace.
    + apply in_or_app. right. left. reflexivity.
    + apply in_or_app. left. apply in_or_app. right. left. reflexivity.
Qed.

Lemma created_write_failure_is_retried_witness :
  createEvent_outcome Scenario.flaky_write (createCalls initial)
  = Return Host.created
  /\ tableUpdate_outcome Scenario.flaky_write (updateCalls initial)
     = Throw "ECONNRESET"
  /\ exists st1,
       attempt Host.utc Scenario.flaky_write Scenario.draft initial
       = (Exn "ECONNRESET", st1).
Proof.
  split; [ reflexivity | ]. split; [ reflexivity | ].
  destruct (created_write_failure_is_retried Host.utc 3 Scenario.flaky_write
              Scenario.draft 0 initial Host.created "ECONNRESET"
              eq_refl eq_refl) as [st1 [Hrun _]].
  exists st1. exact Hrun.
Defined.




(** C7.  For every record that asked for publication: if the create call
    succeeds and the one publish call fails, the failure is logged as a
    warning and the attempt goes on to the Created write, with the remote
    id and the URL; the attempt settles as that write does, and when the
    write resolves [processEvent] resolves with the created event after
    one create call and one publish call: no retry, no Error write.
    Whatever the publish calls answer, [processEvent] settles alike and
    makes the same calls and waits: a publish failure cannot cause a
    retry. *)
Theorem publish_failure_is_not_fatal
    (rt : Runtime) (maxRetries : Z) (w : World) (event : AirtableEvent)
    (retryCount : Z) (st : State) (universeEvent : Universe.Event.t)
    (publishError : string) :
  strict_true (publish event) = true ->
  createEvent_outcome w (createCalls st) = Return universeEvent ->
  Universe.Event.state universeEvent <> "POSTED" ->
  publishEvent_outcome w (publishCalls st) = Throw publishError ->
  trace (snd (attempt rt w event st))
  = (trace st
     ++ [ CreateEvent event;
          PublishEvent (Universe.Event.id universeEvent);
          publish_warning event publishError;
          created_write rt event universeEvent;
          match tableUpdate_outcome w (updateCalls st) with
          | Return _ => success_entry event universeEvent
          | Throw e => created_failure (airtableId event) e
          end ])%list
  /\ Table.status
       (created_fields rt (Universe.Event.id universeEvent)
          (Universe.getEventUrl (Universe.Event.slug universeEvent))
          (Universe.Event.clientMutationId universeEvent)) = "Created"
  /\ (tableUpdate_outcome w (updateCalls st) = Return tt ->
      processEvent rt maxRetries w event retryCount st
      = (Ret universeEvent,
         {| createCalls := S (createCalls st);
            publishCalls := S (publishCalls st);
            updateCalls := S (updateCalls st);
            trace :=
              (trace st
               ++ [ CreateEvent event;
                    PublishEvent (Universe.Event.id universeEvent);
                    publish_warning event publishError;
                    created_write rt event universeEvent;
                    success_entry event universeEvent ])%list |}))
  /\ (forall w' : World,
        same_answers w w' ->
        fst (processEvent rt maxRetries w' event retryCount st)
        = fst (processEvent rt maxRetries w event retryCount st)
        /\ actions (trace (snd (processEvent rt maxRetries w' event retryCount st)))
           = actions (trace (snd (processEvent rt maxRetries w event retryCount st)))).
Proof.
  intros Hwant Hcreate Hstate Hpublish.
  pose proof (attempt_run rt w event st) as Hrun.
  rewrite Hcreate in Hrun. cbv zeta in Hrun.
  assert (Hafter :
            after_publish w event universeEvent (created_call event st)
            = emit (publish_warning event publishError)
                (publish_call (Universe.Event.id universeEvent)
                   (created_call event st))).
  { unfold after_publish, wants_publish. rewrite Hwant.
    apply String.eqb_neq in Hstate. rewrite Hstate.
    simpl publishCalls. rewrite Hpublish. reflexivity. }
  rewrite Hafter in Hrun. simpl updateCalls in Hrun.
  split; [ | split; [ reflexivity | split ] ].
  - rewrite Hrun.
    destruct (tableUpdate_outcome w (updateCalls st)); simpl;
      rewrite <- !app_assoc; reflexivity.
  - intros Hwrite. rewrite Hwrite in Hrun.
    rewrite (processEvent_returns rt maxRetries w event _ _ _ _ Hrun).
    unfold emit, update_call, publish_call, created_call. simpl.
    rewrite <- !app_assoc. reflexivity.
  - intros w' Hans.
    destruct (processEvent_same_calls rt maxRetries w w' event Hans _
                retryCount st st eq_refl)
      as [Hres [_ [_ [_ Hact]]]].
    + repeat split; reflexivity.
    + split; symmetry; assumption.
Qed.

Lemma publish_failure_is_not_fatal_witness :
  strict_true (publish Scenario.posted) = true
  /\ createEvent_outcome Scenario.no_publish (createCalls initial)
     = Return Host.created
  /\ Universe.Event.state Host.created <> "POSTED"
  /\ publishEvent_outcome Scenario.no_publish (publishCalls initial)
     = Throw "Publish errors: Not authorized"
  /\ processEvent Host.utc 3 Scenario.no_publish Scenario.posted 0 initial
     = (Ret Host.created,
        {| createCalls := 1;
           publishCalls := 1;
           updateCalls := 1;
           trace :=
             [ CreateEvent Scenario.posted;
               PublishEvent "evt42";
               publish_warning Scenario.posted "Publish errors: Not authorized";
               created_write Host.utc Scenario.posted Host.created;
               success_entry Scenario.posted Host.created ] |}).
Proof.
  split; [ reflexivity | ]. split; [ reflexivity | ].
  split; [ discriminate | ]. split; [ reflexivity | ].
  refine (proj1 (proj2 (proj2
            (publish_failure_is_not_fatal Host.utc 3 Scenario.no_publish
               Scenario.posted 0 initial Host.created
               "Publish errors: Not authorized"
               eq_refl eq_refl _ eq_refl)))
          eq_refl).
  discriminate.
Defined.

End ProtocolClaims.

(* ====================================================================== *)
(** * Further properties *)
(* ====================================================================== *)

(** ** Characters of strings, and white space *)

Module CharFacts.

Import Chars.

Lemma append_empty (s : string) : s ++ "" = s.
Proof. induction s as [ | c s IH ]; simpl; [ | rewrite IH ]; reflexivity. Qed.

Lemma append_assoc (a b c : string) : (a ++ b) ++ c = a ++ (b ++ c).
Proof. induction a as [ | d a IH ]; simpl; [ | rewrite IH ]; reflexivity. Qed.

Lemma occurs_app (c : ascii) (a b : string) :
  occurs c (a ++ b) <-> occurs c a \/ occurs c b.
Proof.
  induction a as [ | d a IH ]; simpl; [ tauto | ]. rewrite IH. tauto.
Qed.

Lemma occurs_list (c : ascii) (s : string) :
  occurs c s <-> In c (list_ascii_of_string s).
Proof. induction s as [ | d s IH ]; simpl; [ tauto | ]. rewrite IH. tauto. Qed.

Lemma occurs_rev (c : ascii) (s : string) :
  occurs c (rev_string s) <-> occurs c s.
Proof.
  unfold rev_string. rewrite !occurs_list, list_ascii_of_string_of_list_ascii.
  symmetry. apply in_rev.
Qed.

(** *** Reversal *)

Lemma list_of_append (a b : string) :
  list_ascii_of_string (a ++ b)
  = (list_ascii_of_string a ++ list_ascii_of_string b)%list.
Proof. induction a as [ | c a IH ]; simpl; [ | rewrite IH ]; reflexivity. Qed.

Lemma string_of_app (l m : list ascii) :
  string_of_list_ascii (l ++ m) = string_of_list_ascii l ++ string_of_list_ascii m.
Proof. induction l as [ | c l IH ]; simpl; [ | rewrite IH ]; reflexivity. Qed.

Lemma rev_string_app (a b : string) :
  rev_string (a ++ b) = rev_string b ++ rev_string a.
Proof. unfold rev_string. rewrite list_of_append, rev_app_distr, string_of_app. reflexivity. Qed.

Lemma rev_string_involutive (s : string) : rev_string (rev_string s) = s.
Proof.
  unfold rev_string.
  rewrite list_ascii_of_string_of_list_ascii, rev_involutive.
  apply string_of_list_ascii_of_string.
Qed.

Lemma rev_string_length (s : string) : String.length (rev_string s) = String.length s.
Proof.
  unfold rev_string.
  assert (H : forall l, String.length (string_of_list_ascii l) = List.length l)
    by (induction l as [ | c l IH ]; simpl; [ | rewrite IH ]; reflexivity).
  assert (G : forall t, List.length (list_ascii_of_string t) = String.length t)
    by (induction t as [ | c t IH ]; simpl; [ | rewrite IH ]; reflexivity).
  rewrite H, length_rev, G. reflexivity.
Qed.

Lemma append_length (a b : string) :
  String.length (a ++ b) = (String.length a + String.length b)%nat.
Proof. induction a as [ | c a IH ]; simpl; [ | rewrite IH ]; reflexivity. Qed.

(** *** Dropping white space *)

Lemma drop_prefix_app (p : string) :
  forall s r, drop_prefix p s = Some r <-> s = p ++ r.
Proof.
  induction p as [ | a p IH ]; intros s r; simpl.
  - split; [ intros H; injection H as ->; reflexivity | intros ->; reflexivity ].
  - destruct s as [ | b s ]; [ split; discriminate | ].
    destruct (Ascii.eqb a b) eqn:E.
    + apply Ascii.eqb_eq in E. subst b. rewrite IH.
      split; [ intros ->; reflexivity | intros H; injection H as ->; reflexivity ].
    + apply Ascii.eqb_neq in E.
      split; [ discriminate | intros H; injection H as -> _; contradiction ].
Qed.

Lemma drop_first_app (ws : list string) (s r : string) :
  drop_first ws s = Some r -> exists w, In w ws /\ s = w ++ r.
Proof.
  induction ws as [ | w ws IH ]; simpl; [ discriminate | ].
  destruct (drop_prefix w s) as [r' | ] eqn:E.
  - intros H. injection H as ->. exists w. split; [ left; reflexivity | ].
    apply drop_prefix_app. exact E.
  - intros H. destruct (IH H) as [w' [Hin Hs]]. exists w'. split; [ right | ]; assumption.
Qed.

Lemma drop_first_some (ws : list string) (w r : string) :
  In w ws -> exists r', drop_first ws (w ++ r) = Some r'.
Proof.
  induction ws as [ | w' ws IH ]; simpl; [ contradiction | ].
  intros [-> | Hin].
  - assert (E : drop_prefix w (w ++ r) = Some r) by (apply drop_prefix_app; reflexivity).
    rewrite E. exists r. reflexivity.
  - destruct (drop_prefix w' (w ++ r)) as [r' | ]; [ exists r'; reflexivity | ].
    apply IH. exact Hin.
Qed.

(** What [drop_all] removes is made of strings of [ws]. *)
Lemma drop_all_made (ws : list string) (fuel : nat) :
  forall s, exists pre, made_of ws pre /\ s = pre ++ drop_all ws fuel s.
Proof.
  induction fuel as [ | fuel IH ]; intros s; simpl.
  - exists "". split; [ constructor | reflexivity ].
  - destruct (drop_first ws s) as [r | ] eqn:E.
    + destruct (drop_first_app ws s r E) as [w [Hin ->]].
      destruct (IH r) as [pre [Hpre Hr]].
      exists (w ++ pre). split; [ constructor; assumption | ].
      rewrite append_assoc, <- Hr. reflexivity.
    + exists "". split; [ constructor | reflexivity ].
Qed.

(** With the length of the string for fuel, nothing of [ws] is left at the
    start. *)
Lemma drop_all_done (ws : list string) (fuel : nat) :
  Forall (fun w => w <> "") ws ->
  forall s, (String.length s <= fuel)%nat ->
            drop_first ws (drop_all ws fuel s) = None.
Proof.
  intros Hne. induction fuel as [ | fuel IH ]; intros s Hlen; simpl.
  - destruct s; [ | simpl in Hlen; lia ].
    destruct (drop_first ws "") as [r | ] eqn:E; [ | reflexivity ].
    destruct (drop_first_app ws "" r E) as [w [Hin Hs]].
    rewrite Forall_forall in Hne. specialize (Hne w Hin).
    destruct w; [ contradiction | discriminate ].
  - destruct (drop_first ws s) as [r | ] eqn:E; [ | exact E ].
    apply IH.
    destruct (drop_first_app ws s r E) as [w [Hin ->]].
    rewrite Forall_forall in Hne. specialize (Hne w Hin).
    rewrite append_length in Hlen. destruct w; [ contradiction | simpl in Hlen; lia ].
Qed.

Lemma made_of_app (ws : list string) (a b : string) :
  made_of ws a -> made_of ws b -> made_of ws (a ++ b).
Proof.
  intros Ha Hb. induction Ha as [ | w s Hin _ IH ]; [ exact Hb | ].
  rewrite append_assoc. constructor; assumption.
Qed.

Lemma made_of_rev (ws : list string) (s : string) :
  made_of (map rev_string ws) s -> made_of ws (rev_string s).
Proof.
  intros H. induction H as [ | w s Hin _ IH ]; [ constructor | ].
  rewrite rev_string_app. apply made_of_app; [ exact IH | ].
  apply in_map_iff in Hin. destruct Hin as [w' [<- Hin]].
  rewrite rev_string_involutive.
  rewrite <- (append_empty w'). constructor; [ exact Hin | constructor ].
Qed.

Lemma made_of_length (ws : list string) (s : string) :
  Forall (fun w => w <> "") ws -> made_of ws s -> s = "" \/
  exists w r, In w ws /\ made_of ws r /\ s = w ++ r
              /\ (String.length r < String.length s)%nat.
Proof.
  intros Hne [ | w r Hin Hr ]; [ left; reflexivity | right ].
  exists w, r. repeat split; try assumption.
  rewrite Forall_forall in Hne. specialize (Hne w Hin).
  rewrite append_length. destruct w; [ contradiction | simpl; lia ].
Qed.

Lemma prefix_app (p r : string) : String.prefix p (p ++ r) = true.
Proof.
  induction p as [ | c p IH ]; simpl; [ destruct r; reflexivity | ].
  destruct (Ascii.ascii_dec c c); [ exact IH | contradiction ].
Qed.

Lemma same_start (w w' r r' : string) :
  w ++ r = w' ++ r' -> String.prefix w w' = true \/ String.prefix w' w = true.
Proof.
  revert w' r r'. induction w as [ | c w IH ]; intros w' r r' H.
  - left. destruct w'; reflexivity.
  - destruct w' as [ | c' w' ]; [ right; reflexivity | ].
    simpl in H. injection H as -> H.
    destruct (IH w' r r' H) as [G | G]; [ left | right ]; simpl;
      destruct (Ascii.ascii_dec c' c'); try contradiction; exact G.
Qed.

Lemma prefix_both (w w' : string) :
  String.prefix w w' = true -> String.prefix w' w = true -> w = w'.
Proof.
  revert w'. induction w as [ | c w IH ]; intros [ | c' w' ]; simpl;
    try reflexivity; try discriminate.
  destruct (Ascii.ascii_dec c c') as [-> | ]; [ | discriminate ].
  destruct (Ascii.ascii_dec c' c'); [ | contradiction ].
  intros H G. rewrite (IH w' H G). reflexivity.
Qed.

Lemma apart_same (ws : list string) (w w' r r' : string) :
  apart ws = true -> In w ws -> In w' ws -> w ++ r = w' ++ r' ->
  w = w' /\ r = r'.
Proof.
  unfold apart. rewrite forallb_forall. intros Hap Hw Hw' H.
  assert (E : w = w').
  { pose proof (Hap w Hw) as A. rewrite forallb_forall in A. specialize (A w' Hw').
    pose proof (Hap w' Hw') as B. rewrite forallb_forall in B. specialize (B w Hw).
    apply orb_true_iff in A. apply orb_true_iff in B.
    destruct A as [A | A]; [ apply String.eqb_eq; exact A | ].
    destruct B as [B | B]; [ symmetry; apply String.eqb_eq; exact B | ].
    apply negb_true_iff in A. apply negb_true_iff in B.
    destruct (same_start w w' r r' H); congruence. }
  subst w'. split; [ reflexivity | ].
  assert (G : drop_prefix w (w ++ r) = Some r) by (apply drop_prefix_app; reflexivity).
  rewrite H in G. assert (G' : drop_prefix w (w ++ r') = Some r')
    by (apply drop_prefix_app; reflexivity).
  congruence.
Qed.

(** A string made of strings of [ws] is dropped whole. *)
Lemma drop_all_whole (ws : list string) :
  apart ws = true -> Forall (fun w => w <> "") ws ->
  forall fuel s, made_of ws s -> (String.length s <= fuel)%nat ->
                 drop_all ws fuel s = "".
Proof.
  intros Hap Hne. induction fuel as [ | fuel IH ]; intros s Hs Hlen.
  - destruct s; [ reflexivity | simpl in Hlen; lia ].
  - destruct (made_of_length ws s Hne Hs) as [-> | [w [r [Hin [Hr [-> Hlt]]]]]].
    + simpl. destruct (drop_first ws "") as [r | ] eqn:E; [ | reflexivity ].
      destruct (drop_first_app ws "" r E) as [w [Hin Hw]].
      rewrite Forall_forall in Hne. specialize (Hne w Hin).
      destruct w; [ contradiction | discriminate ].
    + simpl. destruct (drop_first_some ws w r Hin) as [r' E]. rewrite E.
      destruct (drop_first_app ws _ r' E) as [w' [Hin' Hw']].
      destruct (apart_same ws w w' r r' Hap Hin Hin' Hw') as [_ <-].
      apply IH; [ exact Hr | lia ].
Qed.

Lemma white_space_apart : apart white_space = true.
Proof. vm_compute. reflexivity. Qed.

Lemma white_space_nonempty : Forall (fun w => w <> "") white_space.
Proof. repeat constructor; discriminate. Qed.

(** *** [trim] *)

Lemma occurs_made (ws : list string) (c : ascii) (fuel : nat) (s : string) :
  occurs c (drop_all ws fuel s) -> occurs c s.
Proof.
  destruct (drop_all_made ws fuel s) as [pre [_ Hs]].
  intros H. rewrite Hs. apply occurs_app. right. exact H.
Qed.

Lemma occurs_trimStart (c : ascii) (s : string) :
  occurs c (trimStart s) -> occurs c s.
Proof. apply occurs_made. Qed.

Lemma occurs_trim (c : ascii) (s : string) : occurs c (trim s) -> occurs c s.
Proof.
  unfold trim, trimEnd. intros H.
  apply occurs_rev, occurs_made, occurs_rev, occurs_trimStart in H. exact H.
Qed.

Lemma reversed_nonempty :
  Forall (fun w => w <> "") (map rev_string white_space).
Proof. repeat constructor; discriminate. Qed.

(** [trim] removes white space only, and leaves none at either end. *)
Lemma trim_between (s : string) :
  exists before after,
    white_only before /\ white_only after
    /\ s = before ++ trim s ++ after
    /\ drop_first white_space (trim s) = None
    /\ drop_first (map rev_string white_space) (rev_string (trim s)) = None.
Proof.
  destruct (drop_all_made white_space (String.length s) s) as [pre [Hpre Hs]].
  pose proof (drop_all_done white_space (String.length s) white_space_nonempty
                s (le_n _)) as Hstart.
  fold (trimStart s) in Hs, Hstart.
  set (t := trimStart s) in *.
  destruct (drop_all_made (map rev_string white_space) (String.length t)
              (rev_string t)) as [post [Hpost Ht]].
  pose proof (drop_all_done (map rev_string white_space) (String.length t)
                reversed_nonempty (rev_string t)) as Hend.
  rewrite rev_string_length in Hend. specialize (Hend (le_n _)).
  set (u := drop_all (map rev_string white_space) (String.length t)
              (rev_string t)) in *.
  assert (Etrim : trim s = rev_string u) by reflexivity.
  apply (f_equal rev_string) in Ht.
  rewrite rev_string_involutive, rev_string_app in Ht.
  exists pre, (rev_string post). rewrite Etrim, rev_string_involutive.
  split; [ exact Hpre | ]. split; [ apply made_of_rev; exact Hpost | ].
  split; [ rewrite <- Ht; exact Hs | ]. split; [ | exact Hend ].
  destruct (drop_first white_space (rev_string u)) as [r | ] eqn:E;
    [ | reflexivity ].
  destruct (drop_first_app _ _ _ E) as [w [Hin Hw]].
  rewrite Hw, append_assoc in Ht.
  destruct (drop_first_some white_space w (r ++ rev_string post) Hin) as [r' E'].
  rewrite <- Ht in E'. congruence.
Qed.

(** For instance, with a no-break space and a line separator among the
    white space. *)
Lemma trim_sample :
  trim (" " ++ bytes [194; 160]%nat ++ "a b" ++ bytes [226; 128; 168; 10]%nat)
  = "a b".
Proof. vm_compute. reflexivity. Qed.

(** A string is trimmed to nothing exactly when it is made of white space. *)
Lemma trim_empty (s : string) : trim s = "" <-> white_only s.
Proof.
  unfold trim, trimEnd, white_only. split.
  - intros H.
    destruct (drop_all_made white_space (String.length s) s) as [pre [Hpre Hs]].
    fold (trimStart s) in Hs.
    destruct (drop_all_made (map rev_string white_space)
                (String.length (trimStart s)) (rev_string (trimStart s)))
      as [post [Hpost Ht]].
    apply (f_equal rev_string) in H. rewrite rev_string_involutive in H.
    rewrite H in Ht. change (rev_string "") with "" in Ht.
    rewrite append_empty in Ht.
    apply (f_equal rev_string) in Ht. rewrite rev_string_involutive in Ht.
    rewrite Hs, Ht. apply made_of_app; [ exact Hpre | ].
    apply made_of_rev. exact Hpost.
  - intros H.
    assert (E : trimStart s = "")
      by (apply drop_all_whole;
          [ exact white_space_apart | exact white_space_nonempty | exact H | lia ]).
    rewrite E. reflexivity.
Qed.

(** *** Replacing and cutting *)

Lemma replace_char_removes (c : ascii) (by_ s : string) :
  ~ occurs c by_ -> ~ occurs c (replace_char c by_ s).
Proof.
  intros Hby. induction s as [ | d s IH ]; simpl; [ tauto | ].
  rewrite occurs_app. destruct (Ascii.eqb c d) eqn:E.
  - tauto.
  - apply Ascii.eqb_neq in E. simpl. intros [[H | []] | H]; [ congruence | tauto ].
Qed.

Lemma replace_char_absent (c : ascii) (by_ s : string) :
  ~ occurs c s -> replace_char c by_ s = s.
Proof.
  induction s as [ | d s IH ]; simpl; [ reflexivity | ].
  intros H. destruct (Ascii.eqb c d) eqn:E.
  - apply Ascii.eqb_eq in E. subst d. tauto.
  - simpl. rewrite IH by tauto. reflexivity.
Qed.

Lemma concat_occurs (c : ascii) (l : list string) :
  occurs c (String.concat "" l) -> exists x, In x l /\ occurs c x.
Proof.
  induction l as [ | x l IH ]; simpl; [ tauto | ].
  destruct l as [ | y l ].
  - intros H. exists x. split; [ left; reflexivity | exact H ].
  - rewrite occurs_app. simpl String.append. intros [H | H].
    + exists x. split; [ left; reflexivity | exact H ].
    + destruct (IH H) as [z [Hz Hc]]. exists z. split; [ right; exact Hz | exact Hc ].
Qed.

(** [s.split(sep)] of a string in which the first character of [sep] does
    not occur is the string itself. *)
Lemma split_absent (c : ascii) (sep' s : string) :
  forall acc : string,
    ~ occurs c s -> split_go (String c sep') s acc 0 = [acc ++ s].
Proof.
  induction s as [ | d s IH ]; intros acc H.
  - simpl. rewrite append_empty. reflexivity.
  - change (split_go (String c sep') (String d s) acc 0)
      with (if match Ascii.ascii_dec c d with
               | left _ => String.prefix sep' s
               | right _ => false
               end
            then acc :: split_go (String c sep') s "" (String.length (String c sep') - 1)
            else split_go (String c sep') s (acc ++ String d "") 0).
    destruct (Ascii.ascii_dec c d) as [E | E]; [ simpl in H; subst; tauto | ].
    rewrite IH by (simpl in H; tauto).
    rewrite append_assoc. reflexivity.
Qed.

Lemma substring0_length (n : nat) (s : string) :
  String.length (substring0 n s) = Nat.min n (String.length s).
Proof.
  unfold substring0. revert s.
  induction n as [ | n IH ]; intros [ | c s ]; simpl; try reflexivity.
  rewrite IH. reflexivity.
Qed.

Lemma substring0_prefix (n : nat) (s : string) :
  String.prefix (substring0 n s) s = true.
Proof.
  unfold substring0. revert s.
  induction n as [ | n IH ]; intros [ | c s ]; simpl; try reflexivity.
  destruct (Ascii.ascii_dec c c) as [_ | E]; [ apply IH | contradiction ].
Qed.

Lemma substring0_short (n : nat) (s : string) :
  (String.length s <= n)%nat -> substring0 n s = s.
Proof.
  unfold substring0. revert s.
  induction n as [ | n IH ]; intros [ | c s ] H; simpl in *; try reflexivity.
  - lia.
  - rewrite IH by lia. reflexivity.
Qed.

End CharFacts.

(** ** The time pattern *)

Module RegexFacts.

Import RegexSpec.

Lemma matches_range (lo hi : ascii) (s : string) :
  matches (ReRange lo hi) s -> exists c, s = String c "" /\ in_range lo hi c = true.
Proof. intros H. inversion H; subst. eexists. split; [ reflexivity | assumption ]. Qed.

Lemma matches_char (c : ascii) (s : string) :
  matches (ReChar c) s -> s = String c "".
Proof. intros H. inversion H; subst. reflexivity. Qed.

Lemma matches_seq (r1 r2 : regex) (s : string) :
  matches (ReSeq r1 r2) s ->
  exists s1 s2, s = s1 ++ s2 /\ matches r1 s1 /\ matches r2 s2.
Proof.
  intros H. inversion H; subst. eexists. eexists.
  split; [ reflexivity | ]. split; assumption.
Qed.

Lemma nullable_matches (r : regex) : nullable r = true <-> matches r "".
Proof.
  induction r as [ | | c | lo hi | r1 IH1 r2 IH2 | r1 IH1 r2 IH2 | r IH ]; simpl.
  - split; [ discriminate | intros H; inversion H ].
  - split; [ constructor | reflexivity ].
  - split; [ discriminate | intros H; inversion H ].
  - split; [ discriminate | intros H; inversion H ].
  - rewrite andb_true_iff, IH1, IH2. split.
    + intros [H1 H2]. exact (MSeq _ _ "" "" H1 H2).
    + intros H. apply matches_seq in H. destruct H as [s1 [s2 [E [H1 H2]]]].
      destruct s1; [ | discriminate ]. destruct s2; [ | discriminate ].
      split; assumption.
  - rewrite orb_true_iff, IH1, IH2. split.
    + intros [H | H]; [ apply MAltL | apply MAltR ]; exact H.
    + intros H. inversion H; subst; [ left | right ]; assumption.
  - split; [ constructor | reflexivity ].
Qed.

Lemma deriv_matches (r : regex) :
  forall (c : ascii) (s : string),
    matches (deriv c r) s <-> matches r (String c s).
Proof.
  induction r as [ | | d | lo hi | r1 IH1 r2 IH2 | r1 IH1 r2 IH2 | r IH ];
    intros c s; simpl.
  - split; intros H; inversion H.
  - split; intros H; inversion H.
  - destruct (Ascii.eqb c d) eqn:E.
    + apply Ascii.eqb_eq in E. subst d. split; intros H; inversion H; constructor.
    + split; intros H; inversion H; subst.
      rewrite Ascii.eqb_refl in E. discriminate.
  - destruct (in_range lo hi c) eqn:E.
    + split; intros H; inversion H; subst; constructor; assumption.
    + split; intros H; inversion H; subst. congruence.
  - assert (Hseq : matches (ReSeq (deriv c r1) r2) s
                   <-> exists s1 s2, s = s1 ++ s2 /\ matches r1 (String c s1)
                                     /\ matches r2 s2).
    { split.
      - intros H. apply matches_seq in H. destruct H as [s1 [s2 [E [H1 H2]]]].
        exists s1, s2. split; [ exact E | ]. split; [ apply IH1 | ]; assumption.
      - intros [s1 [s2 [-> [H1 H2]]]]. constructor; [ apply IH1 | ]; assumption. }
    assert (Hall : matches (ReSeq r1 r2) (String c s)
                   <-> (exists s1 s2, s = s1 ++ s2 /\ matches r1 (String c s1)
                                      /\ matches r2 s2)
                       \/ (matches r1 "" /\ matches r2 (String c s))).
    { split.
      - intros H. apply matches_seq in H. destruct H as [s1 [s2 [E [H1 H2]]]].
        destruct s1 as [ | c1 s1 ].
        + simpl in E. subst s2. right. split; assumption.
        + simpl in E. injection E as <- ->. left. exists s1, s2.
          split; [ reflexivity | ]. split; assumption.
      - intros [[s1 [s2 [-> [H1 H2]]]] | [H1 H2]].
        + exact (MSeq _ _ (String c s1) s2 H1 H2).
        + exact (MSeq _ _ "" (String c s) H1 H2). }
    rewrite Hall. destruct (nullable r1) eqn:E.
    + split.
      * intros H. inversion H; subst.
        -- left. apply Hseq. assumption.
        -- right. split; [ apply nullable_matches; exact E | apply IH2; assumption ].
      * intros [H | [_ H]].
        -- apply MAltL. apply Hseq. exact H.
        -- apply MAltR. apply IH2. exact H.
    + rewrite Hseq. split; [ intros H; left; exact H | ].
      intros [H | [H _]]; [ exact H | ].
      apply nullable_matches in H. congruence.
  - split.
    + intros H. inversion H; subst;
        [ apply MAltL; apply IH1 | apply MAltR; apply IH2 ]; assumption.
    + intros H. inversion H; subst;
        [ apply MAltL; apply IH1 | apply MAltR; apply IH2 ]; assumption.
  - rewrite IH. split.
    + intros H. apply MOptSome. exact H.
    + intros H. inversion H; subst. assumption.
Qed.

(** [re.test(s)] decides membership in the language of the pattern. *)
Lemma test_matches (s : string) :
  forall r : regex, test r s = true <-> matches r s.
Proof.
  induction s as [ | c s IH ]; intros r; simpl.
  - apply nullable_matches.
  - rewrite IH. apply deriv_matches.
Qed.

(** The language of the time pattern of the validator. *)
Lemma timeRegex_language (s : string) :
  test Validator.timeRegex s = true <-> time_of_day s.
Proof.
  rewrite test_matches. unfold Validator.timeRegex, time_of_day.
  split.
  - intros H.
    apply matches_seq in H. destruct H as [hh [mm [-> [Hh Hm]]]].
    apply matches_seq in Hm. destruct Hm as [co [m12 [-> [Hc Hm]]]].
    apply matches_char in Hc. subst co.
    apply matches_seq in Hm. destruct Hm as [m1 [m2 [-> [Hm1 Hm2]]]].
    apply matches_range in Hm1. destruct Hm1 as [c1 [-> Hc1]].
    apply matches_range in Hm2. destruct Hm2 as [c2 [-> Hc2]].
    inversion Hh as [ | | | | ? ? ? Ha | ? ? ? Hb | | ]; subst.
    + apply matches_seq in Ha. destruct Ha as [o [d [-> [Ho Hd]]]].
      apply matches_range in Hd. destruct Hd as [h2 [-> Hh2]].
      inversion Ho as [ | | | | | | | ? ? Ho' ]; subst.
      * left. exists h2, c1, c2. repeat split; assumption.
      * apply matches_range in Ho'. destruct Ho' as [h1 [-> Hh1]].
        right. exists h1, h2, c1, c2.
        split; [ reflexivity | ]. split; [ left; split; assumption | ].
        split; assumption.
    + apply matches_seq in Hb. destruct Hb as [t [d [-> [Ht Hd]]]].
      apply matches_char in Ht. subst t.
      apply matches_range in Hd. destruct Hd as [h2 [-> Hh2]].
      right. exists "2"%char, h2, c1, c2.
      split; [ reflexivity | ]. split; [ right; split; [ reflexivity | assumption ] | ].
      split; assumption.
  - assert (Hmin : forall m1 m2,
               in_range "0" "5" m1 = true -> digit m2 ->
               matches
                 (ReSeq (ReChar ":") (ReSeq (ReRange "0" "5") (ReRange "0" "9")))
                 (String ":" (String m1 (String m2 "")))).
    { intros m1 m2 H1 H2.
      apply (MSeq _ _ (String ":" "") (String m1 (String m2 "")));
        [ constructor | ].
      apply (MSeq _ _ (String m1 "") (String m2 ""));
        constructor; assumption. }
    intros [[h [m1 [m2 [-> [Hh [H1 H2]]]]]]
           | [h1 [h2 [m1 [m2 [-> [Hh [H1 H2]]]]]]]].
    + apply (MSeq _ _ (String h "") (String ":" (String m1 (String m2 ""))));
        [ | apply Hmin; assumption ].
      apply MAltL.
      apply (MSeq _ _ "" (String h "")); constructor. exact Hh.
    + apply (MSeq _ _ (String h1 (String h2 ""))
               (String ":" (String m1 (String m2 ""))));
        [ | apply Hmin; assumption ].
      destruct Hh as [[Ha Hb] | [-> Hb]].
      * apply MAltL.
        apply (MSeq _ _ (String h1 "") (String h2 ""));
          [ apply MOptSome | ]; constructor; assumption.
      * apply MAltR.
        apply (MSeq _ _ (String "2" "") (String h2 ""));
          constructor; assumption.
Qed.

End RegexFacts.

(** X1.  The format check of the validator accepts exactly the times of day
    written [H:MM] or [HH:MM]: an hour from 0 to 19 written with one or two
    digits or from 20 to 23, a colon, and a two-digit minute from 00 to 59;
    nothing before or after. *)
Theorem timeRegex_accepts_times_of_day (s : string) :
  test Validator.timeRegex s = true <-> RegexSpec.time_of_day s.
Proof. apply RegexFacts.timeRegex_language. Qed.

(** X2.  A time that passes the format check of the validator reaches the
    request in the two-digit form: [combineDateAndTime] returns the date
    part, ["T"], a time of five characters that passes the check as well
    (the time itself, or the time with a ["0"] in front when its hour has
    one digit), and [":00"]. *)
Theorem validated_time_is_padded (rt : Runtime) (date time : string) :
  test Validator.timeRegex time = true ->
  exists hhmm,
    Universe.combineDateAndTime rt (Universe.DateString date) time
    = Return (first (split "T" date) ++ "T" ++ hhmm ++ ":00")
    /\ String.length hhmm = 5%nat
    /\ test Validator.timeRegex hhmm = true
    /\ (hhmm = time \/ hhmm = "0" ++ time).
Proof.
  intros H. apply RegexFacts.timeRegex_language in H.
  exists (padStart 5 "0" time). split; [ reflexivity | ].
  destruct H as [[h [m1 [m2 [-> [Hh [H1 H2]]]]]]
                | [h1 [h2 [m1 [m2 [-> [Hh [H1 H2]]]]]]]].
  - split; [ reflexivity | ]. split; [ | right; reflexivity ].
    apply RegexFacts.timeRegex_language. right.
    exists "0"%char, h, m1, m2. split; [ reflexivity | ].
    split; [ left; split; [ reflexivity | exact Hh ] | ]. split; assumption.
  - split; [ reflexivity | ]. split; [ | left; reflexivity ].
    apply RegexFacts.timeRegex_language. right.
    exists h1, h2, m1, m2. split; [ reflexivity | ]. split; [ exact Hh | ].
    split; assumption.
Qed.

Lemma validated_time_is_padded_witness :
  test Validator.timeRegex "9:00" = true
  /\ exists hhmm,
       Universe.combineDateAndTime Host.utc (Universe.DateString "2025-07-31") "9:00"
       = Return ("2025-07-31" ++ "T" ++ hhmm ++ ":00")
       /\ String.length hhmm = 5%nat.
Proof.
  split; [ reflexivity | ].
  destruct (validated_time_is_padded Host.utc "2025-07-31" "9:00" eq_refl)
    as [hhmm [Hrun [Hlen _]]].
  exists hhmm. split; [ exact Hrun | exact Hlen ].
Defined.

(** ** The validator, rule by rule *)

Module ValidatorMoreFacts.

Import Validator ValidatorSpec ValidatorFacts ValidatorMore.

Lemma warnings_rules (rt : Runtime) (e : AirtableEvent) :
  warnings (validateEvent rt e) = fired (warn_rules rt e).
Proof.
  unfold validateEvent, warn_rules, dates_present, instant.
  destruct (truthy_str (startDate e) && truthy_str (startTime e)
            && truthy_str (endDate e) && truthy_str (endTime e));
    [ destruct (test timeRegex (tpl (startTime e)));
      destruct (test timeRegex (tpl (endTime e))) | ];
    cbv beta iota zeta delta [warnings andb negb];
    rewrite !push_app;
    rewrite !fired_cons; rewrite <- ?app_assoc; reflexivity.
Qed.

Lemma In_warnings (rt : Runtime) (e : AirtableEvent) (x : string) :
  In x (warnings (validateEvent rt e)) <-> In (true, x) (warn_rules rt e).
Proof. rewrite warnings_rules. apply In_fired. Qed.

Lemma truthy_str_missing (cell : option string) :
  negb (truthy_str cell) = true <-> missing cell.
Proof.
  unfold missing. destruct cell as [s | ]; simpl.
  - rewrite negb_involutive. rewrite String.eqb_eq.
    split; [ intros ->; right; reflexivity | ].
    intros [H | H]; [ discriminate | injection H as ->; reflexivity ].
  - split; [ left; reflexivity | reflexivity ].
Qed.

Lemma truthy_str_blank (cell : option string) :
  negb (truthy_str (option_map trim cell)) = true <-> blank cell.
Proof.
  unfold blank. destruct cell as [s | ]; simpl.
  - rewrite negb_involutive. apply String.eqb_eq.
  - split; [ intros _; exact I | reflexivity ].
Qed.

(** Membership of a presence message in the rule list. *)
Tactic Notation "presence" integer(n) constr(lemma) :=
  rewrite In_errors;
  cbv delta [rules start_format_error end_format_error price_error
             capacity_error privacy_error];
  cbv beta iota delta [In];
  rewrite <- lemma;
  split;
  [ intros H; repeat (destruct H as [H | H]);
    try discriminate H; try contradiction; injection H as H; exact H
  | intros H; do n right; left; rewrite H; reflexivity ].

Lemma title_rule (rt : Runtime) (e : AirtableEvent) :
  In "Title is required" (errors (validateEvent rt e)) <-> blank (title e).
Proof. presence 0 truthy_str_blank. Qed.

Lemma startDate_rule (rt : Runtime) (e : AirtableEvent) :
  In "Start date is required" (errors (validateEvent rt e)) <-> missing (startDate e).
Proof. presence 1 truthy_str_missing. Qed.

Lemma startTime_rule (rt : Runtime) (e : AirtableEvent) :
  In "Start time is required" (errors (validateEvent rt e)) <-> missing (startTime e).
Proof. presence 2 truthy_str_missing. Qed.

Lemma endDate_rule (rt : Runtime) (e : AirtableEvent) :
  In "End date is required" (errors (validateEvent rt e)) <-> missing (endDate e).
Proof. presence 3 truthy_str_missing. Qed.

Lemma endTime_rule (rt : Runtime) (e : AirtableEvent) :
  In "End time is required" (errors (validateEvent rt e)) <-> missing (endTime e).
Proof. presence 4 truthy_str_missing. Qed.

Lemma address_rule (rt : Runtime) (e : AirtableEvent) :
  In "Address is required" (errors (validateEvent rt e)) <-> blank (address e).
Proof. presence 5 truthy_str_blank. Qed.

Lemma venueName_rule (rt : Runtime) (e : AirtableEvent) :
  In "Venue name is required" (errors (validateEvent rt e)) <-> blank (venueName e).
Proof. presence 6 truthy_str_blank. Qed.

Lemma cityName_rule (rt : Runtime) (e : AirtableEvent) :
  In "City name is required" (errors (validateEvent rt e)) <-> blank (cityName e).
Proof. presence 7 truthy_str_blank. Qed.

End ValidatorMoreFacts.

(** X3.  The eight presence rules of [validateEvent]: the title, the
    address, the venue name and the city name are required after trimming
    (a cell counts as missing when it is absent or made of white space
    only, the white space being that of [trim]: the blank, the ASCII
    controls TAB to CR, and the Unicode spaces and line separators), the
    two dates and the two times as they are (only an absent or empty cell
    counts as missing); each rule reports its own message, exactly when
    its cell is missing. *)
Theorem validateEvent_required_fields (rt : Runtime) (e : AirtableEvent) :
  (In "Title is required" (Validator.errors (Validator.validateEvent rt e))
   <-> ValidatorMore.blank (title e))
  /\ (In "Start date is required" (Validator.errors (Validator.validateEvent rt e))
      <-> ValidatorMore.missing (startDate e))
  /\ (In "Start time is required" (Validator.errors (Validator.validateEvent rt e))
      <-> ValidatorMore.missing (startTime e))
  /\ (In "End date is required" (Validator.errors (Validator.validateEvent rt e))
      <-> ValidatorMore.missing (endDate e))
  /\ (In "End time is required" (Validator.errors (Validator.validateEvent rt e))
      <-> ValidatorMore.missing (endTime e))
  /\ (In "Address is required" (Validator.errors (Validator.validateEvent rt e))
      <-> ValidatorMore.blank (address e))
  /\ (In "Venue name is required" (Validator.errors (Validator.validateEvent rt e))
      <-> ValidatorMore.blank (venueName e))
  /\ (In "City name is required" (Validator.errors (Validator.validateEvent rt e))
      <-> ValidatorMore.blank (cityName e))
  /\ (forall cell,
        ValidatorMore.blank cell
        <-> cell = None \/ exists s, cell = Some s /\ Chars.white_only s).
Proof.
  split; [ apply ValidatorMoreFacts.title_rule | ].
  split; [ apply ValidatorMoreFacts.startDate_rule | ].
  split; [ apply ValidatorMoreFacts.startTime_rule | ].
  split; [ apply ValidatorMoreFacts.endDate_rule | ].
  split; [ apply ValidatorMoreFacts.endTime_rule | ].
  split; [ apply ValidatorMoreFacts.address_rule | ].
  split; [ apply ValidatorMoreFacts.venueName_rule | ].
  split; [ apply ValidatorMoreFacts.cityName_rule | ].
  intros [s | ]; simpl.
  - rewrite CharFacts.trim_empty. split.
    + intros H. right. exists s. split; [ reflexivity | exact H ].
    + intros [H | [s' [H Hw]]]; [ discriminate | ].
      injection H as ->. exact Hw.
  - split; [ intros _; left; reflexivity | intros _; exact I ].
Qed.

Module ValidatorShape.

Import Validator ValidatorSpec ValidatorFacts ValidatorMore ValidatorMoreFacts.

Lemma isValid_errors (rt : Runtime) (e : AirtableEvent) :
  isValid (validateEvent rt e)
  = Nat.eqb (List.length (errors (validateEvent rt e))) 0.
Proof.
  unfold validateEvent.
  destruct (truthy_str (startDate e) && truthy_str (startTime e)
            && truthy_str (endDate e) && truthy_str (endTime e));
    [ destruct (test timeRegex (tpl (startTime e))
                && test timeRegex (tpl (endTime e))) | ];
    reflexivity.
Qed.

Lemma isValid_no_errors (rt : Runtime) (e : AirtableEvent) :
  isValid (validateEvent rt e) = true <-> errors (validateEvent rt e) = [].
Proof.
  rewrite isValid_errors. rewrite Nat.eqb_eq. apply length_zero_iff_nil.
Qed.

Lemma instant_parsed (rt : Runtime) (date time : option string) (t : Z) :
  instant rt date time = Some t -> Date_parse rt (tpl date) <> None.
Proof.
  unfold instant, setHours. destruct (Date_parse rt (tpl date)); [ | discriminate ].
  intros _. discriminate.
Qed.

Lemma ordering_rule (rt : Runtime) (e : AirtableEvent) :
  In ordering_error (errors (validateEvent rt e)) <->
  dates_present e = true
  /\ test timeRegex (tpl (startTime e)) = true
  /\ test timeRegex (tpl (endTime e)) = true
  /\ exists s t,
       instant rt (startDate e) (startTime e) = Some s
       /\ instant rt (endDate e) (endTime e) = Some t
       /\ t <= s.
Proof.
  rewrite In_errors.
  cbv delta [rules start_format_error end_format_error price_error
             capacity_error privacy_error ordering_error].
  cbv beta iota delta [In].
  split.
  - intros H. repeat (destruct H as [H | H]);
      try discriminate H; try contradiction. injection H as H.
    apply andb_prop in H. destruct H as [H Hge].
    apply andb_prop in H. destruct H as [Hp H].
    apply andb_prop in H. destruct H as [Hs He].
    split; [ exact Hp | ]. split; [ exact Hs | ]. split; [ exact He | ].
    unfold time_ge in Hge.
    destruct (instant rt (startDate e) (startTime e)) as [s | ]; [ | discriminate ].
    destruct (instant rt (endDate e) (endTime e)) as [t | ]; [ | discriminate ].
    exists s, t. split; [ reflexivity | ]. split; [ reflexivity | ].
    apply Z.leb_le. exact Hge.
  - intros [Hp [Hs [He [s [t [Hi [Hj Hle]]]]]]].
    do 10 right. left. rewrite Hp, Hs, He, Hi, Hj. simpl.
    apply Z.leb_le in Hle. rewrite Hle. reflexivity.
Qed.

Lemma duration_rule (rt : Runtime) (e : AirtableEvent) :
  In duration_warning (warnings (validateEvent rt e)) ->
  test timeRegex (tpl (startTime e)) = true
  /\ test timeRegex (tpl (endTime e)) = true
  /\ exists s t,
       instant rt (startDate e) (startTime e) = Some s
       /\ instant rt (endDate e) (endTime e) = Some t.
Proof.
  rewrite In_warnings.
  cbv delta [warn_rules duration_warning past_warning tiktok_warning
             facebook_warning].
  cbv beta iota delta [In].
  intros H. repeat (destruct H as [H | H]);
    try discriminate H; try contradiction. injection H as H.
  apply andb_prop in H. destruct H as [H Hex].
  apply andb_prop in H. destruct H as [_ H].
  apply andb_prop in H. destruct H as [Hs He].
  split; [ exact Hs | ]. split; [ exact He | ].
  unfold durationHours in Hex.
  destruct (instant rt (endDate e) (endTime e)) as [t | ]; [ | discriminate ].
  destruct (instant rt (startDate e) (startTime e)) as [s | ]; [ | discriminate ].
  exists s, t. split; reflexivity.
Qed.

(** [s.split(',')] of a string that ends with a comma ends with an empty
    piece. *)
Lemma split_trailing_comma (s : string) :
  forall acc : string,
    exists l, split_go "," (s ++ ",") acc 0 = (l ++ [""])%list.
Proof.
  induction s as [ | c s IH ]; intros acc.
  - exists [acc]. reflexivity.
  - change (split_go "," (String c s ++ ",") acc 0)
      with (if match Ascii.ascii_dec "," c with
               | left _ => String.prefix "" (s ++ ",")
               | right _ => false
               end
            then acc :: split_go "," (s ++ ",") "" 0
            else split_go "," (s ++ ",") (acc ++ String c "") 0).
    destruct (Ascii.ascii_dec "," c) as [E | E].
    + assert (Hp : String.prefix "" (s ++ ",") = true)
        by (destruct (s ++ ","); reflexivity).
      rewrite Hp.
      destruct (IH "") as [l Hl]. exists (acc :: l). rewrite Hl. reflexivity.
    + destruct (IH (acc ++ String c "")) as [l Hl]. exists l. exact Hl.
Qed.

Lemma has_empty_code_In (s : string) :
  has_empty_code s = true <-> In "" (map trim (split "," s)).
Proof.
  unfold has_empty_code. rewrite existsb_exists. split.
  - intros [x [Hin Hlen]]. apply Nat.eqb_eq in Hlen.
    destruct x; [ exact Hin | discriminate ].
  - intros Hin. exists "". split; [ exact Hin | reflexivity ].
Qed.

End ValidatorShape.

(** ** The request, key by key *)

Module TransformerShape.

Import Universe TransformerMore.

(** The request that the transformer returns for a row. *)
Lemma transform_keys (rt : Runtime) (d : AirtableEvent) :
  exists input,
    transformToEventCreateInput rt d = Return input
    /\ EventInput.timeSlots (EventCreateInput.event input)
       = (if truthy_str (startDate d) && truthy_str (startTime d)
             && truthy_str (endDate d) && truthy_str (endTime d)
          then [ {| TimeSlot.startAt := instant_string (startDate d) (startTime d);
                    TimeSlot.endAt := instant_string (endDate d) (endTime d) |} ]
          else [])
    /\ EventInput.rates (EventCreateInput.event input)
       = (if truthy_str (rateName d) && truthy_num (ratePrice d)
          then [ {| Rate.name := tpl (rateName d);
                    Rate.price := match ratePrice d with
                                  | Some p => parseFloat rt p
                                  | None => 0%Q
                                  end;
                    Rate.capacity :=
                      match rateCapacity d with
                      | Some c => if truthy_num (Some c)
                                  then Some (parseInt rt c) else None
                      | None => None
                      end;
                    Rate.description :=
                      if truthy_str (rateDescription d)
                      then tpl (rateDescription d) else "";
                    Rate.state := "ACTIVE" |} ]
          else [])
    /\ EventInput.privacy (EventCreateInput.event input)
       = (if truthy_str (privacy d)
          then Some (if String.eqb (toLowerCase (tpl (privacy d))) "private"
                     then "unlisted" else toLowerCase (tpl (privacy d)))
          else None)
    /\ EventInput.latitude (EventCreateInput.event input)
       = match latitude d with
         | Some x => if truthy_num (Some x) then parseFloat rt x else default_latitude
         | None => default_latitude
         end
    /\ EventInput.longitude (EventCreateInput.event input)
       = match longitude d with
         | Some x => if truthy_num (Some x) then parseFloat rt x else default_longitude
         | None => default_longitude
         end
    /\ EventInput.maxQuantity (EventCreateInput.event input)
       = match maxQuantity d with
         | Some x => if truthy_num (Some x) then Some (parseInt rt x) else None
         | None => None
         end
    /\ EventInput.tiktokPixelCodes (EventCreateInput.event input)
       = list_key (tiktokPixelCodes d)
    /\ EventInput.facebookPixelCodes (EventCreateInput.event input)
       = list_key (facebookPixelCodes d)
    /\ EventInput.availableCountries (EventCreateInput.event input)
       = list_key (availableCountries d)
    /\ EventInput.venueName (EventCreateInput.event input) = text_key (venueName d)
    /\ EventInput.region (EventCreateInput.event input) = text_key (region d)
    /\ EventInput.transactionCurrency (EventCreateInput.event input)
       = text_key (transactionCurrency d)
    /\ EventInput.googleAnalytics4Id (EventCreateInput.event input)
       = text_key (googleAnalytics4Id d)
    /\ EventInput.descriptionHtml (EventCreateInput.event input)
       = formatDescription (description d)
    /\ EventCreateInput.clientMutationId input
       = generateClientMutationId rt "event-create" (Some (airtableId d)).
Proof.
  unfold transformToEventCreateInput, combineDateAndTime.
  destruct (truthy_str (startDate d) && truthy_str (startTime d)
            && truthy_str (endDate d) && truthy_str (endTime d));
    eexists; (split; [ reflexivity | ]);
    cbv beta iota zeta delta
      [EventCreateInput.event EventCreateInput.clientMutationId
       EventInput.timeSlots EventInput.rates EventInput.privacy
       EventInput.latitude EventInput.longitude EventInput.maxQuantity
       EventInput.tiktokPixelCodes EventInput.facebookPixelCodes
       EventInput.availableCountries EventInput.venueName EventInput.region
       EventInput.transactionCurrency EventInput.googleAnalytics4Id
       EventInput.descriptionHtml];
    repeat split.
  all: destruct (truthy_str (rateName d) && truthy_num (ratePrice d));
    try reflexivity.
Qed.

End TransformerShape.

Section ValidatorExtras.

Import Validator ValidatorSpec ValidatorFacts ValidatorMore ValidatorMoreFacts
  ValidatorShape.

(** X4.  The validator does not stop at the first error: a record in which
    all eight required cells are missing gets the eight presence messages,
    in the order of the source, followed only by messages of the price,
    capacity, country code, date display and privacy rules, and it is not
    valid. *)
Theorem validateEvent_collects_presence_errors (rt : Runtime) (e : AirtableEvent) :
  blank (title e) -> missing (startDate e) -> missing (startTime e) ->
  missing (endDate e) -> missing (endTime e) ->
  blank (address e) -> blank (venueName e) -> blank (cityName e) ->
  exists rest,
    errors (validateEvent rt e) = (required_errors ++ rest)%list
    /\ (forall x, In x rest ->
                  In x [ price_error; capacity_error;
                         "Country code must be 2 characters (e.g., CA, US)";
                         "Date display option must be FULL, SHORT, or HIDDEN";
                         privacy_error ])
    /\ isValid (validateEvent rt e) = false.
Proof.
  intros Ht Hsd Hst Hed Het Ha Hv Hc.
  apply truthy_str_blank in Ht, Ha, Hv, Hc.
  apply truthy_str_missing in Hsd, Hst, Hed, Het.
  assert (Hp : dates_present e = false).
  { unfold dates_present. apply negb_true_iff in Hsd. rewrite Hsd. reflexivity. }
  exists (fired (skipn 11 (rules rt e))).
  assert (Herr : errors (validateEvent rt e)
                 = (required_errors ++ fired (skipn 11 (rules rt e)))%list).
  { rewrite errors_rules. unfold rules.
    rewrite Ht, Hsd, Hst, Hed, Het, Ha, Hv, Hc, Hp. reflexivity. }
  split; [ exact Herr | ]. split.
  - intros x Hx. apply In_fired in Hx.
    cbv beta iota delta [rules skipn In] in Hx. cbv beta iota delta [In].
    repeat (destruct Hx as [Hx | Hx]);
      try contradiction; injection Hx as _ Hx; tauto.
  - rewrite isValid_errors, Herr. reflexivity.
Qed.

Lemma validateEvent_collects_presence_errors_witness :
  blank (title Samples.bare) /\ missing (startDate Samples.bare)
  /\ missing (startTime Samples.bare) /\ missing (endDate Samples.bare)
  /\ missing (endTime Samples.bare) /\ blank (address Samples.bare)
  /\ blank (venueName Samples.bare) /\ blank (cityName Samples.bare)
  /\ exists rest,
       errors (validateEvent Host.utc Samples.bare)
       = (required_errors ++ rest)%list.
Proof.
  assert (Hb : blank None) by exact I.
  assert (Hm : missing None) by (left; reflexivity).
  do 8 (split; [ first [ exact Hb | exact Hm ] | ]).
  destruct (validateEvent_collects_presence_errors Host.utc Samples.bare
              Hb Hm Hm Hm Hm Hb Hb Hb) as [rest [H _]].
  exists rest. exact H.
Defined.

(** X5.  The ordering rule of [validateEvent]: the error is reported
    exactly when the four date and time cells are present, both times pass
    the format check, both dates parse, and the end instant is not after
    the start instant.  So the ordering error and the duration warning are
    both skipped for a record with a malformed time, and also for a record
    with a date that does not parse, for which nothing is reported. *)
Theorem validateEvent_ordering_rule (rt : Runtime) (e : AirtableEvent) :
  (In ordering_error (errors (validateEvent rt e)) <->
   dates_present e = true
   /\ test timeRegex (tpl (startTime e)) = true
   /\ test timeRegex (tpl (endTime e)) = true
   /\ exists s t,
        instant rt (startDate e) (startTime e) = Some s
        /\ instant rt (endDate e) (endTime e) = Some t
        /\ t <= s)
  /\ (In ordering_error (errors (validateEvent rt e))
      \/ In duration_warning (warnings (validateEvent rt e)) ->
      test timeRegex (tpl (startTime e)) = true
      /\ test timeRegex (tpl (endTime e)) = true
      /\ Date_parse rt (tpl (startDate e)) <> None
      /\ Date_parse rt (tpl (endDate e)) <> None).
Proof.
  split; [ apply ordering_rule | ].
  intros [H | H].
  - apply ordering_rule in H.
    destruct H as [_ [Hs [He [s [t [Hi [Hj _]]]]]]].
    split; [ exact Hs | ]. split; [ exact He | ].
    split; eapply instant_parsed; eassumption.
  - apply duration_rule in H.
    destruct H as [Hs [He [s [t [Hi Hj]]]]].
    split; [ exact Hs | ]. split; [ exact He | ].
    split; eapply instant_parsed; eassumption.
Qed.

(** X6.  The pixel code warnings of the validator and the lists of the
    request go together: for a non-empty TikTok (Facebook) cell the
    transformer sends the comma separated pieces, trimmed, and the
    validator warns exactly when one of these pieces is empty, as it is
    for every cell that ends with a comma. *)
Theorem pixel_code_warning_matches_request (rt : Runtime) (e : AirtableEvent) :
  exists input,
    Universe.transformToEventCreateInput rt e = Return input
    /\ (forall s,
          tiktokPixelCodes e = Some s -> s <> "" ->
          Universe.EventInput.tiktokPixelCodes (Universe.EventCreateInput.event input)
          = Some (map trim (split "," s))
          /\ (In tiktok_warning (warnings (validateEvent rt e))
              <-> In "" (map trim (split "," s))))
    /\ (forall s,
          facebookPixelCodes e = Some s -> s <> "" ->
          Universe.EventInput.facebookPixelCodes (Universe.EventCreateInput.event input)
          = Some (map trim (split "," s))
          /\ (In facebook_warning (warnings (validateEvent rt e))
              <-> In "" (map trim (split "," s))))
    /\ (forall s,
          tiktokPixelCodes e = Some (s ++ ",") ->
          In tiktok_warning (warnings (validateEvent rt e))).
Proof.
  destruct (TransformerShape.transform_keys rt e)
    as [input [Hrun [_ [_ [_ [_ [_ [_ [Htik [Hfb _]]]]]]]]]].
  exists input. split; [ exact Hrun | ].
  assert (Htw : forall s, tiktokPixelCodes e = Some s -> s <> "" ->
                  (In tiktok_warning (warnings (validateEvent rt e))
                   <-> In "" (map trim (split "," s)))).
  { intros s Hs Hne. rewrite In_warnings.
    cbv delta [warn_rules duration_warning past_warning tiktok_warning
               facebook_warning].
    cbv beta iota delta [In]. rewrite Hs. simpl tpl.
    rewrite <- has_empty_code_In.
    assert (Ht : truthy_str (Some s) = true)
      by (simpl; apply negb_true_iff, String.eqb_neq; exact Hne).
    rewrite Ht. split.
    - intros H. repeat (destruct H as [H | H]);
        try discriminate H; try contradiction. injection H as H. exact H.
    - intros H. do 2 right. left. rewrite H. reflexivity. }
  split; [ | split ].
  - intros s Hs Hne. split; [ | apply Htw; assumption ].
    rewrite Htik. unfold TransformerMore.list_key. rewrite Hs. simpl tpl.
    simpl truthy_str. apply String.eqb_neq in Hne. rewrite Hne. reflexivity.
  - intros s Hs Hne. split.
    + rewrite Hfb. unfold TransformerMore.list_key. rewrite Hs. simpl tpl.
      simpl truthy_str. apply String.eqb_neq in Hne. rewrite Hne. reflexivity.
    + rewrite In_warnings.
      cbv delta [warn_rules duration_warning past_warning tiktok_warning
                 facebook_warning].
      cbv beta iota delta [In]. rewrite Hs. simpl tpl.
      rewrite <- has_empty_code_In.
      assert (Ht : truthy_str (Some s) = true)
        by (simpl; apply negb_true_iff, String.eqb_neq; exact Hne).
      rewrite Ht. split.
      * intros H. repeat (destruct H as [H | H]);
          try discriminate H; try contradiction. injection H as H. exact H.
      * intros H. do 3 right. left. rewrite H. reflexivity.
  - intros s Hs. apply (Htw _ Hs).
    + destruct s; discriminate.
    + destruct (split_trailing_comma s "") as [l Hl].
      unfold split. rewrite Hl, map_app. apply in_or_app. right. left. reflexivity.
Qed.

End ValidatorExtras.

Section TransformerExtras.

Import Universe TransformerMore TransformerShape.

(** X7.  The privacy key of the request: absent when the cell is absent or
    empty, otherwise the cell in lower case with ["private"] replaced by
    ["unlisted"].  The request never carries ["private"], and each of the
    six spellings that the validator accepts becomes ["public"] or
    ["unlisted"]. *)
Theorem transform_privacy_is_never_private (rt : Runtime) (d : AirtableEvent) :
  exists input,
    transformToEventCreateInput rt d = Return input
    /\ EventInput.privacy (EventCreateInput.event input) <> Some "private"
    /\ (privacy d = None \/ privacy d = Some "" ->
        EventInput.privacy (EventCreateInput.event input) = None)
    /\ (forall s,
          privacy d = Some s -> toLowerCase s = "private" ->
          EventInput.privacy (EventCreateInput.event input) = Some "unlisted")
    /\ (forall s,
          privacy d = Some s -> s <> "" -> toLowerCase s <> "private" ->
          EventInput.privacy (EventCreateInput.event input) = Some (toLowerCase s))
    /\ (forall s,
          privacy d = Some s -> In s ValidatorSpec.privacy_values ->
          EventInput.privacy (EventCreateInput.event input) = Some "public"
          \/ EventInput.privacy (EventCreateInput.event input) = Some "unlisted").
Proof.
  destruct (transform_keys rt d) as [input [Hrun [_ [_ [Hp _]]]]].
  exists input. split; [ exact Hrun | ]. rewrite Hp.
  split; [ | split; [ | split; [ | split ] ] ].
  - destruct (truthy_str (privacy d)); [ | discriminate ].
    destruct (String.eqb (toLowerCase (tpl (privacy d))) "private") eqn:E;
      [ discriminate | ].
    apply String.eqb_neq in E. congruence.
  - intros [H | H]; rewrite H; reflexivity.
  - intros s Hs Hl. rewrite Hs. simpl tpl. rewrite Hl.
    destruct s; [ discriminate | reflexivity ].
  - intros s Hs Hne Hl. rewrite Hs. simpl tpl. simpl truthy_str.
    apply String.eqb_neq in Hne, Hl. rewrite Hne, Hl. reflexivity.
  - intros s Hs Hin. rewrite Hs.
    unfold ValidatorSpec.privacy_values in Hin. simpl in Hin.
    repeat (destruct Hin as [Hin | Hin]); try contradiction; subst s;
      [ left | right | right | left | right | right ]; reflexivity.
Qed.

(** X8.  The transformer takes a number cell that is 0 for an absent cell:
    a rate with price 0 is not sent at all, a latitude or longitude of 0 is
    replaced by the default coordinate, a rate capacity of 0 is sent as
    [null], and a maximum quantity of 0 is left out. *)
Theorem transform_takes_zero_for_absent (rt : Runtime) (d : AirtableEvent) :
  exists input,
    transformToEventCreateInput rt d = Return input
    /\ (forall q, ratePrice d = Some q -> (q == 0)%Q ->
                  EventInput.rates (EventCreateInput.event input) = [])
    /\ (forall q, latitude d = Some q -> (q == 0)%Q ->
                  EventInput.latitude (EventCreateInput.event input)
                  = default_latitude)
    /\ (forall q, longitude d = Some q -> (q == 0)%Q ->
                  EventInput.longitude (EventCreateInput.event input)
                  = default_longitude)
    /\ (forall q, rateCapacity d = Some q -> (q == 0)%Q ->
                  Forall (fun r => Rate.capacity r = None)
                         (EventInput.rates (EventCreateInput.event input)))
    /\ (forall q, maxQuantity d = Some q -> (q == 0)%Q ->
                  EventInput.maxQuantity (EventCreateInput.event input) = None).
Proof.
  destruct (transform_keys rt d)
    as [input [Hrun [_ [Hr [_ [Hla [Hlo [Hm _]]]]]]]].
  exists input. split; [ exact Hrun | ]. rewrite Hr, Hla, Hlo, Hm.
  assert (Hz : forall q, (q == 0)%Q -> truthy_num (Some q) = false).
  { intros q Hq. simpl. apply Qeq_bool_iff in Hq. rewrite Hq. reflexivity. }
  split; [ | split; [ | split; [ | split ] ] ].
  - intros q Hq H0. rewrite Hq, (Hz q H0), andb_false_r. reflexivity.
  - intros q Hq H0. rewrite Hq, (Hz q H0). reflexivity.
  - intros q Hq H0. rewrite Hq, (Hz q H0). reflexivity.
  - intros q Hq H0. rewrite Hq, (Hz q H0).
    destruct (truthy_str (rateName d) && truthy_num (ratePrice d));
      repeat constructor.
  - intros q Hq H0. rewrite Hq, (Hz q H0). reflexivity.
Qed.

(** X9.  The schedule and the pricing tiers of the request have at most
    one entry each.  The one schedule entry is there exactly when the four
    date and time cells are present, and holds the two combined instants;
    the one rate is there exactly when the rate name is non-empty and the
    rate price is present and not 0, and it is an active rate with that
    name. *)
Theorem transform_schedule_and_rates (rt : Runtime) (d : AirtableEvent) :
  exists input,
    transformToEventCreateInput rt d = Return input
    /\ (ValidatorSpec.dates_present d = true ->
        EventInput.timeSlots (EventCreateInput.event input)
        = [ {| TimeSlot.startAt := instant_string (startDate d) (startTime d);
               TimeSlot.endAt := instant_string (endDate d) (endTime d) |} ])
    /\ (ValidatorSpec.dates_present d = false ->
        EventInput.timeSlots (EventCreateInput.event input) = [])
    /\ (List.length (EventInput.rates (EventCreateInput.event input)) <= 1)%nat
    /\ (EventInput.rates (EventCreateInput.event input) <> []
        <-> (exists s, rateName d = Some s /\ s <> "") /\ nonzero (ratePrice d))
    /\ Forall (fun r => Rate.name r = tpl (rateName d) /\ Rate.state r = "ACTIVE")
              (EventInput.rates (EventCreateInput.event input)).
Proof.
  destruct (transform_keys rt d) as [input [Hrun [Ht [Hr _]]]].
  exists input. split; [ exact Hrun | ]. rewrite Ht, Hr.
  unfold ValidatorSpec.dates_present.
  split; [ intros H; rewrite H; reflexivity | ].
  split; [ intros H; rewrite H; reflexivity | ].
  assert (Hiff : truthy_str (rateName d) && truthy_num (ratePrice d) = true
                 <-> (exists s, rateName d = Some s /\ s <> "")
                     /\ nonzero (ratePrice d)).
  { rewrite andb_true_iff. unfold nonzero. split.
    - intros [Hn Hp]. split.
      + destruct (rateName d) as [s | ]; [ | discriminate ].
        exists s. split; [ reflexivity | ].
        simpl in Hn. apply negb_true_iff, String.eqb_neq in Hn. exact Hn.
      + destruct (ratePrice d) as [q | ]; [ | discriminate ].
        exists q. split; [ reflexivity | ].
        simpl in Hp. apply negb_true_iff in Hp. intros H0.
        apply Qeq_bool_iff in H0. congruence.
    - intros [[s [Hs Hne]] [q [Hq H0]]]. rewrite Hs, Hq. simpl. split.
      + apply negb_true_iff, String.eqb_neq. exact Hne.
      + apply negb_true_iff. destruct (Qeq_bool q 0) eqn:E; [ | reflexivity ].
        apply Qeq_bool_iff in E. contradiction. }
  destruct (truthy_str (rateName d) && truthy_num (ratePrice d)) eqn:E.
  - split; [ simpl; lia | ]. split.
    + split; [ intros _; apply Hiff; reflexivity | intros _; discriminate ].
    + repeat constructor.
  - split; [ simpl; lia | ]. split.
    + split; [ intros H; contradiction | ].
      intros H. apply Hiff in H. discriminate.
    + constructor.
Qed.

End TransformerExtras.

(** ** Descriptions and error messages *)

(** X10.  [formatDescription]: an absent or empty description gives the
    empty string; the HTML it returns never contains a line feed (the
    paragraphs are cut at the blank lines and the remaining line feeds
    become [<br>]); a description of one line that is not blank becomes one
    paragraph with the trimmed line. *)
Theorem formatDescription_html (description : option string) :
  (description = None \/ description = Some "" ->
   Universe.formatDescription description = "")
  /\ ~ Chars.occurs Chars.LF (Universe.formatDescription description)
  /\ (forall s,
        description = Some s -> ~ Chars.occurs Chars.LF s -> trim s <> "" ->
        Universe.formatDescription description = "<p>" ++ trim s ++ "</p>").
Proof.
  split; [ intros [-> | ->]; reflexivity | ]. split.
  - unfold Universe.formatDescription.
    destruct (negb (truthy_str description)); [ simpl; tauto | ].
    unfold join. intros H. apply CharFacts.concat_occurs in H.
    destruct H as [x [Hin Hocc]].
    apply in_map_iff in Hin. destruct Hin as [p [<- _]].
    rewrite !CharFacts.occurs_app in Hocc.
    destruct Hocc as [H | [H | H]].
    + simpl in H. unfold Chars.LF in H. intuition discriminate.
    + revert H. apply CharFacts.replace_char_removes.
      simpl. unfold Chars.LF. intuition discriminate.
    + simpl in H. unfold Chars.LF in H. intuition discriminate.
  - intros s -> Hlf Hne. unfold Universe.formatDescription.
    assert (Ht : truthy_str (Some s) = true).
    { simpl. apply negb_true_iff, String.eqb_neq. intros ->. apply Hne. reflexivity. }
    rewrite Ht. simpl negb. cbv iota. simpl tpl.
    unfold split, Universe.nl.
    change (String (ascii_of_nat 10) "" ++ String (ascii_of_nat 10) "")
      with (String Chars.LF (String Chars.LF "")).
    rewrite (CharFacts.split_absent Chars.LF _ s "" Hlf).
    simpl map at 2. simpl filter.
    assert (Hlen : Nat.ltb 0 (String.length (trim s)) = true).
    { destruct (trim s); [ contradiction | reflexivity ]. }
    change ("" ++ s) with s. rewrite Hlen. simpl map. unfold join. simpl String.concat.
    rewrite CharFacts.replace_char_absent; [ reflexivity | ].
    intros H. apply Hlf. apply CharFacts.occurs_trim. exact H.
Qed.

(** X11.  [markAsError] writes the status Error with the first 1000
    characters of the message: what it writes is a prefix of the message of
    length at most 1000, and the message itself when that has no more than
    1000 characters. *)
Theorem markAsError_truncates_message
    (rt : Runtime) (w : Eff.World) (recordId errorMessage : string) (st : Eff.State) :
  exists data written entries,
    Eff.trace (snd (Airtable.markAsError rt w recordId errorMessage st))
    = (Eff.trace st ++ Eff.TableUpdate recordId data :: entries)%list
    /\ Forall (fun e => Protocol.is_log e = true) entries
    /\ Table.status data = "Error"
    /\ Table.errorMessage data = Some written
    /\ String.length written = Nat.min 1000 (String.length errorMessage)
    /\ String.prefix written errorMessage = true
    /\ ((String.length errorMessage <= 1000)%nat -> written = errorMessage).
Proof.
  unfold Airtable.markAsError, Eff.try_catch, Eff.table_update, Eff.log, Eff.emit.
  eexists. exists (substring0 1000 errorMessage).
  destruct (Eff.tableUpdate_outcome w (Eff.updateCalls st)) as [[] | e];
    cbv beta iota delta [Eff.lift snd Eff.trace].
  - exists []. split; [ reflexivity | ]. split; [ constructor | ].
    split; [ reflexivity | ]. split; [ reflexivity | ].
    split; [ apply CharFacts.substring0_length | ].
    split; [ apply CharFacts.substring0_prefix | apply CharFacts.substring0_short ].
  - eexists. split; [ rewrite <- app_assoc; reflexivity | ].
    split; [ repeat constructor | ].
    split; [ reflexivity | ]. split; [ reflexivity | ].
    split; [ apply CharFacts.substring0_length | ].
    split; [ apply CharFacts.substring0_prefix | apply CharFacts.substring0_short ].
Qed.

(** ** Batches of validations *)

Module BatchValidationFacts.

Import Eff Loop ValidatorBatch RunSpec.

Lemma filter_map_comm {A B : Type} (f : A -> B) (p : B -> bool) (l : list A) :
  filter p (map f l) = map f (filter (fun x => p (f x)) l).
Proof.
  induction l as [ | x l IH ]; simpl; [ reflexivity | ].
  destruct (p (f x)); simpl; rewrite IH; reflexivity.
Qed.

Lemma only_logged_refl (st : State) : only_logged st st.
Proof.
  unfold only_logged. repeat split. exists []. rewrite app_nil_r.
  split; [ reflexivity | constructor ].
Qed.

Lemma only_logged_trans (a b c : State) :
  only_logged a b -> only_logged b c -> only_logged a c.
Proof.
  intros [H1 [H2 [H3 [l1 [Ht1 Hl1]]]]] [G1 [G2 [G3 [l2 [Ht2 Hl2]]]]].
  unfold only_logged. rewrite G1, G2, G3, H1, H2, H3. repeat split.
  exists (l1 ++ l2)%list. rewrite Ht2, Ht1, app_assoc.
  split; [ reflexivity | apply Forall_app; split; assumption ].
Qed.

Lemma only_logged_log (l : level) (m : string) (d : option string) (st : State) :
  only_logged st (emit (Log l m d) st).
Proof.
  unfold only_logged, emit. simpl. repeat split.
  exists [Log l m d]. split; [ reflexivity | repeat constructor ].
Qed.


(** A loop that only logs. *)
Lemma forEach_log {A : Type} (f : A -> M unit) (l : list A) :
  (forall x st, exists e,
      Protocol.is_log e = true /\ f x st = (Ret tt, emit e st)) ->
  forall st : State,
    exists st', forEach f l st = (Ret tt, st') /\ only_logged st st'.
Proof.
  intros Hf. induction l as [ | x l IH ]; intros st.
  - exists st. split; [ reflexivity | apply only_logged_refl ].
  - simpl forEach. unfold bind at 1.
    destruct (Hf x st) as [e [He Hrun]]. rewrite Hrun.
    destruct (IH (emit e st)) as [st' [Hrest Hlog]].
    exists st'. split; [ exact Hrest | ].
    eapply only_logged_trans; [ | exact Hlog ].
    destruct e; try discriminate He. apply only_logged_log.
Qed.

Lemma validateBatch_run (rt : Runtime) (events : list AirtableEvent) (st : State) :
  exists st',
    validateBatch rt events st
    = (Ret {| Batch.valid := map (validated rt) (filter (is_valid rt) events);
              Batch.invalid :=
                map (validated rt) (filter (fun e => negb (is_valid rt e)) events);
              Batch.totalCount := List.length events |}, st')
    /\ only_logged st st'.
Proof.
  unfold validateBatch.
  fold (validated rt). rewrite !(filter_map_comm (validated rt)).
  change (fun x => Validator.isValid (Validated.validation (validated rt x)))
    with (is_valid rt).
  change (fun x => negb (Validator.isValid (Validated.validation (validated rt x))))
    with (fun e => negb (is_valid rt e)).
  unfold bind at 1. unfold log at 1.
  match goal with
  | |- context [ emit ?e st ] => set (st1 := emit e st);
                                 assert (H1 : only_logged st st1)
                                   by apply only_logged_log
  end.
  unfold bind at 1.
  destruct (0 <? List.length
              (map (validated rt) (filter (fun e => negb (is_valid rt e)) events)))%nat.
  - unfold bind at 1. unfold log at 1.
    match goal with
    | |- context [ forEach ?f ?l ?s ] =>
        destruct (forEach_log f l) with (st := s) as [st' [Hrun Hlog]];
        [ intros x s0; eexists; split; [ | reflexivity ]; reflexivity | ]
    end.
    rewrite Hrun. exists st'. split; [ reflexivity | ].
    eapply only_logged_trans; [ exact H1 | ].
    eapply only_logged_trans; [ apply only_logged_log | exact Hlog ].
  - exists st1. split; [ reflexivity | exact H1 ].
Qed.

End BatchValidationFacts.

(** X12.  [validateBatch] splits the results by validity and keeps the
    order of the input: [valid] holds the results of the events that
    validate, [invalid] those of the others, each in input order; every
    event is in exactly one of the two, [totalCount] is the number of
    events; a valid result has no error and an invalid one has at least
    one.  It always resolves, and it only writes to the log. *)
Theorem validateBatch_partitions
    (rt : Runtime) (events : list AirtableEvent) (st : Eff.State) :
  exists batch st',
    ValidatorBatch.validateBatch rt events st = (Eff.Ret batch, st')
    /\ RunSpec.only_logged st st'
    /\ ValidatorBatch.Batch.valid batch
       = map (RunSpec.validated rt) (filter (RunSpec.is_valid rt) events)
    /\ ValidatorBatch.Batch.invalid batch
       = map (RunSpec.validated rt)
             (filter (fun e => negb (RunSpec.is_valid rt e)) events)
    /\ (List.length (ValidatorBatch.Batch.valid batch)
        + List.length (ValidatorBatch.Batch.invalid batch)
        = ValidatorBatch.Batch.totalCount batch)%nat
    /\ ValidatorBatch.Batch.totalCount batch = List.length events
    /\ Forall (fun r => Validator.errors (ValidatorBatch.Validated.validation r) = [])
              (ValidatorBatch.Batch.valid batch)
    /\ Forall (fun r => Validator.errors (ValidatorBatch.Validated.validation r) <> [])
              (ValidatorBatch.Batch.invalid batch).
Proof.
  destruct (BatchValidationFacts.validateBatch_run rt events st) as [st' [Hrun Hlog]].
  eexists. exists st'. split; [ exact Hrun | ]. split; [ exact Hlog | ].
  simpl. split; [ reflexivity | ]. split; [ reflexivity | ].
  split.
  - rewrite !length_map. symmetry.
    rewrite <- (filter_length (RunSpec.is_valid rt) events) at 1. reflexivity.
  - split; [ reflexivity | ]. split.
    + apply Forall_map, Forall_forall. intros e He.
      apply filter_In in He. destruct He as [_ He]. simpl.
      apply ValidatorShape.isValid_no_errors. exact He.
    + apply Forall_map, Forall_forall. intros e He.
      apply filter_In in He. destruct He as [_ He]. simpl.
      intros H. apply ValidatorShape.isValid_no_errors in H.
      unfold RunSpec.is_valid in He. rewrite H in He. discriminate.
Qed.

(** ** Selection of the valid events, counts, and batch sizes *)

Module SelectionFacts.

Import Run RunSpec.

Lemma find_event_found (events : list AirtableEvent) (e : AirtableEvent) :
  In e events ->
  exists e', find_event events (airtableId e) = Some e'
             /\ airtableId e' = airtableId e /\ In e' events.
Proof.
  unfold find_event. intros Hin.
  destruct (find (fun x => String.eqb (airtableId x) (airtableId e)) events)
    as [e' | ] eqn:E.
  - apply find_some in E. destruct E as [Hin' Heq].
    apply String.eqb_eq in Heq. exists e'. repeat split; assumption.
  - apply (find_none _ _ E) in Hin. rewrite String.eqb_refl in Hin. discriminate.
Qed.

Lemma find_event_unique (events : list AirtableEvent) (e : AirtableEvent) :
  NoDup (map airtableId events) -> In e events ->
  find_event events (airtableId e) = Some e.
Proof.
  unfold find_event. induction events as [ | x l IH ]; intros Hnd Hin;
    [ contradiction | ].
  simpl. inversion Hnd as [ | ? ? Hx Hl ]; subst.
  destruct Hin as [-> | Hin]; [ rewrite String.eqb_refl; reflexivity | ].
  destruct (String.eqb (airtableId x) (airtableId e)) eqn:E.
  - apply String.eqb_eq in E. exfalso. apply Hx. rewrite E.
    apply in_map. exact Hin.
  - apply IH; assumption.
Qed.

Lemma selection_defined (rt : Runtime) (events l : list AirtableEvent) :
  (forall e, In e l -> In e events) ->
  exists sel,
    defined (validEvents events (map (validated rt) l)) = Some sel
    /\ map airtableId sel = map airtableId l
    /\ Forall (fun e => In e events) sel
    /\ (NoDup (map airtableId events) -> sel = l).
Proof.
  induction l as [ | e l IH ]; intros Hsub.
  - exists []. repeat split; constructor.
  - destruct IH as [sel [Hdef [Hids [Hin Huniq]]]];
      [ intros x Hx; apply Hsub; right; exact Hx | ].
    destruct (find_event_found events e (Hsub e (or_introl eq_refl)))
      as [e' [Hfind [Hid He']]].
    exists (e' :: sel). unfold validEvents in *. simpl map. simpl defined.
    change (ValidatorBatch.Validated.airtableId (validated rt e))
      with (airtableId e).
    rewrite Hfind, Hdef. split; [ reflexivity | ].
    split; [ simpl; rewrite Hid, Hids; reflexivity | ].
    split; [ constructor; assumption | ].
    intros Hnd. rewrite (Huniq Hnd).
    rewrite (find_event_unique events e Hnd (Hsub e (or_introl eq_refl))) in Hfind.
    injection Hfind as <-. reflexivity.
Qed.

End SelectionFacts.

Module CountFacts.

Import Eff Creator RunSpec.

Lemma tally_from (rs : list (result Universe.Event.t)) :
  forall acc : BatchResult,
    fold_left
      (fun acc r =>
         match r with
         | Ret _ => {| success := S (success acc); errors := errors acc |}
         | Exn _ => {| success := success acc; errors := S (errors acc) |}
         | Fuel => acc
         end) rs acc
    = {| success := success acc + List.length (filter resolved rs);
         errors := errors acc + List.length (filter rejected rs) |}.
Proof.
  induction rs as [ | r rs IH ]; intros [s e]; simpl.
  - rewrite !Nat.add_0_r. reflexivity.
  - destruct r; rewrite IH; simpl; f_equal; lia.
Qed.

Lemma tally_counts (rs : list (result Universe.Event.t)) :
  tally rs = {| success := List.length (filter resolved rs);
                errors := List.length (filter rejected rs) |}.
Proof. unfold tally. rewrite tally_from. reflexivity. Qed.


End CountFacts.

(** X13.  [run] selects the events to process by looking up, for each
    valid result, the first event with its record id: the lookup always
    finds an event of the list with that id, so that as many events are
    selected as there are valid results; when the record ids are distinct
    the selection is exactly the list of the events that validate, in
    input order. *)
Theorem run_selects_the_valid_events (rt : Runtime) (events : list AirtableEvent) :
  exists selected,
    Run.defined
      (Run.validEvents events
         (map (RunSpec.validated rt) (filter (RunSpec.is_valid rt) events)))
    = Some selected
    /\ map airtableId selected
       = map airtableId (filter (RunSpec.is_valid rt) events)
    /\ Forall (fun e => In e events) selected
    /\ (NoDup (map airtableId events) ->
        selected = filter (RunSpec.is_valid rt) events).
Proof.
  apply SelectionFacts.selection_defined.
  intros e He. apply filter_In in He. tauto.
Qed.

(** X14.  [processBatch] counts every record of the batch once: [success]
    is the number of records whose [processEvent] resolved, [errors] the
    number of those whose [processEvent] rejected, and the two add up to
    the size of the batch. *)
Theorem processBatch_counts_each_record
    (rt : Runtime) (maxRetries : Z) (worlds : string -> Eff.World)
    (events : list AirtableEvent) :
  Creator.success (Creator.processBatch rt maxRetries worlds events)
  = List.length (filter RunSpec.resolved (Creator.settle rt maxRetries worlds events))
  /\ Creator.errors (Creator.processBatch rt maxRetries worlds events)
     = List.length (filter RunSpec.rejected
                      (Creator.settle rt maxRetries worlds events))
  /\ (Creator.success (Creator.processBatch rt maxRetries worlds events)
      + Creator.errors (Creator.processBatch rt maxRetries worlds events)
      = List.length events)%nat.
Proof.
  unfold Creator.processBatch. rewrite CountFacts.tally_counts. simpl.
  split; [ reflexivity | ]. split; [ reflexivity | ].
  pose proof (RetryTotal.processBatch_total rt maxRetries worlds events) as H.
  unfold Creator.processBatch in H. rewrite CountFacts.tally_counts in H.
  exact H.
Qed.

(** X15.  [createBatches] only terminates for a positive batch size: with
    a batch size of 0 or less and at least one event, the loop never
    reaches its exit test (no amount of fuel is enough), while an empty
    list gives no batch whatever the batch size. *)
Theorem createBatches_needs_positive_size
    {A : Type} (batchSize : Z) (events : list A) :
  (events = [] -> Creator.createBatches batchSize events = Some [])
  /\ (batchSize <= 0 -> events <> [] ->
      forall fuel : nat,
        Creator.createBatches_loop batchSize fuel events 0 [] = None).
Proof.
  split; [ intros ->; reflexivity | ].
  intros Hb Hne fuel.
  assert (Hlen : 0 < Z.of_nat (List.length events)).
  { destruct events; [ contradiction | simpl; lia ]. }
  assert (G : forall (i : Z) (batches : list (list A)),
             i <= 0 -> Creator.createBatches_loop batchSize fuel events i batches = None).
  { induction fuel as [ | fuel IH ]; intros i batches Hi; [ reflexivity | ].
    simpl. destruct (i <? Z.of_nat (List.length events)) eqn:E.
    - apply IH. lia.
    - apply Z.ltb_ge in E. lia. }
  apply G. lia.
Qed.

(** ** The settings, the loop over the batches, and the run *)

Module BatchesFacts.

Import Eff Loop Creator Run RunSpec WaitSpec.


Section WithCreator.

Variable rt : Runtime.
Variable this : Settings.
Variable worlds : string -> World.
Variable w : World.


End WithCreator.

End BatchesFacts.

Module RunFacts.

Import Eff Loop Creator Run RunSpec WaitSpec.

Section WithCreator.

Variable rt : Runtime.
Variable this : Settings.
Variable worlds : string -> World.
Variable w : World.




End WithCreator.

End RunFacts.

Section RunExtras.

Import Eff Creator Run RunSpec WaitSpec.

(** X16.  The settings of the creator are never 0: a variable that is not
    set, is not a number, or is 0 gives the default (5 events per batch,
    2000 ms between batches, 3 retries), every other number is taken as it
    is.  So retries cannot be switched off with [MAX_RETRIES=0]: a record
    whose create call always fails is then still tried four times, with
    waits of 1000, 2000 and 3000 ms; only a negative value gives a single
    try. *)
Theorem settings_are_never_zero (env : Env) :
  batchSize (settings env) <> 0
  /\ delayBetweenBatches (settings env) <> 0
  /\ maxRetries (settings env) <> 0
  /\ (BATCH_SIZE env = None \/ BATCH_SIZE env = Some 0 ->
      batchSize (settings env) = 5)
  /\ (forall z, BATCH_SIZE env = Some z -> z <> 0 -> batchSize (settings env) = z)
  /\ (DELAY_BETWEEN_BATCHES env = None \/ DELAY_BETWEEN_BATCHES env = Some 0 ->
      delayBetweenBatches (settings env) = 2000)
  /\ (forall z, DELAY_BETWEEN_BATCHES env = Some z -> z <> 0 ->
                delayBetweenBatches (settings env) = z)
  /\ (MAX_RETRIES env = None \/ MAX_RETRIES env = Some 0 ->
      maxRetries (settings env) = 3)
  /\ (forall z, MAX_RETRIES env = Some z -> z <> 0 -> maxRetries (settings env) = z)
  /\ (forall (rt : Runtime) (w : World) (event : AirtableEvent) (msg : nat -> string),
        (forall k, createEvent_outcome w k = Throw (msg k)) ->
        (MAX_RETRIES env = None \/ MAX_RETRIES env = Some 0 ->
         Protocol.actions
           (trace (snd (processEvent rt (maxRetries (settings env)) w event 0 initial)))
         = [ CreateEvent event; Delay 1000; CreateEvent event; Delay 2000;
             CreateEvent event; Delay 3000; CreateEvent event;
             Protocol.error_write rt event (msg 3%nat) ])
        /\ (forall z, MAX_RETRIES env = Some z -> z < 0 ->
            Protocol.actions
              (trace (snd (processEvent rt (maxRetries (settings env)) w event 0
                             initial)))
            = [ CreateEvent event; Protocol.error_write rt event (msg 0%nat) ])).
Proof.
  assert (Hnz : forall n d, d <> 0 -> or_default n d <> 0).
  { intros [z | ] d Hd; simpl; [ | exact Hd ].
    destruct (z =? 0) eqn:E; [ exact Hd | apply Z.eqb_neq; exact E ]. }
  split; [ apply Hnz; discriminate | ].
  split; [ apply Hnz; discriminate | ].
  split; [ apply Hnz; discriminate | ].
  assert (Hd : forall n d, n = None \/ n = Some 0 -> or_default n d = d)
    by (intros n d [-> | ->]; reflexivity).
  assert (Hk : forall n d z, n = Some z -> z <> 0 -> or_default n d = z).
  { intros n d z -> Hne. simpl. apply Z.eqb_neq in Hne. rewrite Hne. reflexivity. }
  split; [ apply Hd | ]. split; [ intros z; apply Hk | ].
  split; [ apply Hd | ]. split; [ intros z; apply Hk | ].
  assert (H3 : MAX_RETRIES env = None \/ MAX_RETRIES env = Some 0 ->
               maxRetries (settings env) = 3) by apply Hd.
  assert (Hz : forall z, MAX_RETRIES env = Some z -> z <> 0 ->
                         maxRetries (settings env) = z)
    by (intros z; apply Hk).
  split; [ exact H3 | ]. split; [ exact Hz | ].
  intros rt w event msg Hfail. split.
  - intros H. rewrite (H3 H).
    destruct (RetrySchedule.exhausted rt 3 w event msg 3 0 initial eq_refl)
      as [st' [Hrun [_ Hact]]]; [ intros k _; apply Hfail | ].
    rewrite Hrun. exact Hact.
  - intros z H Hneg. rewrite (Hz z H) by lia.
    pose proof (RetryFacts.attempt_run rt w event initial) as Hrun.
    simpl createCalls in Hrun. rewrite Hfail in Hrun.
    rewrite (RetryFacts.processEvent_gives_up rt z w event 0 _ _ _ Hrun) by lia.
    simpl snd.
    destruct (tableUpdate_outcome w _); reflexivity.
Qed.



End RunExtras.

Section RunTheorems.

Import Eff Loop Creator Run RunSpec WaitSpec.



(** X19.  [run] never rejects.  When the Airtable query fails, or returns
    no record, it resolves after writing to the log only: no status write,
    no wait, no call to the remote API. *)
Theorem run_never_rejects
    (rt : Runtime) (this : Settings) (worlds : string -> World) (w : World)
    (selected : completion (list AirtableEvent)) (st : State) :
  (forall message, fst (run rt this worlds w selected st) <> Exn message)
  /\ (selected = Return [] \/ (exists message, selected = Throw message) ->
      exists st',
        run rt this worlds w selected st = (Ret tt, st') /\ only_logged st st').
Proof.
  split.
  - intros message. unfold run, try_catch.
    match goal with
    | |- context [ match ?m with (_, _) => _ end ] => destruct m as [[[] | e | ] s1]
    end; simpl; discriminate.
  - intros [-> | [message ->]].
    + eexists. split; [ reflexivity | ].
      apply BatchValidationFacts.only_logged_log.
    + eexists. split; [ reflexivity | ].
      eapply BatchValidationFacts.only_logged_trans;
        apply BatchValidationFacts.only_logged_log.
Qed.

End RunTheorems.

(* ====================================================================== *)
(** ** The access token and [createEvent] of universe.js *)
(* ====================================================================== *)

Module ServiceFacts.

Import UniverseService ServiceSpec.

Section WithNet.

Variable net : Net.

Lemma usable_hit (s : Service) :
  usable net s = true ->
  getAccessToken net s = (Resolved (tpl (accessToken s)), tick s).
Proof.
  unfold usable, getAccessToken. intros H.
  apply andb_prop in H. destruct H as [Ht He].
  rewrite Ht. simpl. rewrite He. reflexivity.
Qed.

Lemma usable_miss_resolved (s : Service) (r : TokenResponse) :
  usable net s = false ->
  post_outcome net (posts s) = Resolved r ->
  getAccessToken net s = (Resolved (access_token r), refreshed net r (tested s)).
Proof.
  unfold usable, getAccessToken, tested. intros H Hp.
  destruct (truthy_str (accessToken s)) eqn:Ht; simpl in H |- *.
  - rewrite H. unfold try_catch, bind, post_token, Date_now, store, log, ret, emit.
    simpl. rewrite Hp. unfold refreshed, token_log. simpl.
    rewrite <- app_assoc. reflexivity.
  - unfold try_catch, bind, post_token, Date_now, store, log, ret, emit.
    simpl. rewrite Hp. unfold refreshed, token_log. simpl.
    rewrite <- app_assoc. reflexivity.
Qed.

Lemma usable_miss_rejected (s : Service) (e : error) :
  usable net s = false ->
  post_outcome net (posts s) = Rejected e ->
  getAccessToken net s = (Rejected e, unrefreshed e (tested s)).
Proof.
  unfold usable, getAccessToken, tested. intros H Hp.
  destruct (truthy_str (accessToken s)) eqn:Ht; simpl in H |- *.
  - rewrite H. unfold try_catch, bind, post_token, log, throw, emit.
    simpl. rewrite Hp. unfold unrefreshed, token_failure. simpl.
    rewrite <- app_assoc. reflexivity.
  - unfold try_catch, bind, post_token, log, throw, emit.
    simpl. rewrite Hp. unfold unrefreshed, token_failure. simpl.
    rewrite <- app_assoc. reflexivity.
Qed.

(** The three ways [getAccessToken] can go. *)
Lemma getAccessToken_cases (s : Service) :
  (usable net s = true
   /\ getAccessToken net s = (Resolved (tpl (accessToken s)), tick s))
  \/ (exists r, usable net s = false /\ post_outcome net (posts s) = Resolved r
      /\ getAccessToken net s
         = (Resolved (access_token r), refreshed net r (tested s)))
  \/ (exists e, usable net s = false /\ post_outcome net (posts s) = Rejected e
      /\ getAccessToken net s = (Rejected e, unrefreshed e (tested s))).
Proof.
  destruct (usable net s) eqn:Hu.
  - left. split; [ reflexivity | apply usable_hit; exact Hu ].
  - right. destruct (post_outcome net (posts s)) as [r | e] eqn:Hp.
    + left. exists r. repeat split. apply usable_miss_resolved; assumption.
    + right. exists e. repeat split. apply usable_miss_rejected; assumption.
Qed.

Lemma truthy_token (s : Service) :
  truthy_str (accessToken s) = true ->
  accessToken s = Some (tpl (accessToken s)).
Proof.
  destruct (accessToken s); [ reflexivity | discriminate ].
Qed.

(** After [getAccessToken] has resolved, the client carries the token it
    gave. *)
Lemma token_client (s s1 : Service) (token : string) :
  coherent s ->
  getAccessToken net s = (Resolved token, s1) ->
  client s1 = Some token /\ coherent s1
  /\ requests s1 = requests s
  /\ Forall (fun e => is_request e = false)
       (skipn (List.length (output s)) (output s1)).
Proof.
  unfold coherent. intros Hc Hrun.
  destruct (getAccessToken_cases s)
    as [[Hu H] | [[r [Hu [Hp H]]] | [e [Hu [Hp H]]]]];
    rewrite H in Hrun; [ | | discriminate ];
    injection Hrun as <- <-.
  - unfold usable in Hu. apply andb_prop in Hu. destruct Hu as [Ht _].
    simpl. split; [ rewrite Hc; apply truthy_token; exact Ht | ].
    split; [ exact Hc | ]. split; [ reflexivity | ].
    rewrite skipn_all. constructor.
  - simpl. split; [ reflexivity | ]. split; [ reflexivity | ].
    unfold tested. destruct (truthy_str (accessToken s)); simpl;
      (split; [ reflexivity | ]);
      rewrite skipn_app, skipn_all, Nat.sub_diag; simpl;
      repeat constructor.
Qed.

(** [createEvent] once the token is there and the request is answered. *)
Lemma createEvent_answered (rt : Runtime) (s s1 : Service) (token : string)
    (eventData : AirtableEvent) (input : Universe.EventCreateInput.t)
    (payload : Payload.t) :
  getAccessToken net s = (Resolved token, s1) ->
  client s1 = Some token ->
  Universe.transformToEventCreateInput rt eventData = Return input ->
  request_outcome net (requests s1) = Resolved payload ->
  let sent (last : effect) : Service :=
    {| accessToken := accessToken s1; tokenExpiration := tokenExpiration s1;
       client := client s1; posts := posts s1; requests := S (requests s1);
       reads := reads s1;
       output := output s1
                 ++ [creating eventData input; Request token input; last] |} in
  let failure :=
    Error ("Universe API errors: "
           ++ join ", " (errors_list (Payload.errors payload))) in
  createEvent net rt eventData s
  = if has_errors (Payload.errors payload)
    then (Rejected failure, sent (create_failure eventData failure))
    else (Resolved
            {| Universe.Event.id := Payload.event_id payload;
               Universe.Event.slug := Payload.event_slug payload;
               Universe.Event.state := Payload.event_state payload;
               Universe.Event.clientMutationId :=
                 Payload.clientMutationId payload |},
          sent (Log Eff.LInfo
                  ("Event created successfully: "
                   ++ tpl (Payload.event_title payload)
                   ++ " (ID: " ++ Payload.event_id payload ++ ", MutationId: "
                   ++ tpl (Payload.clientMutationId payload) ++ ")") None)).
Proof.
  intros Hrun Hcl Hin Hreq sent failure.
  unfold createEvent. unfold bind at 1. rewrite Hrun.
  unfold try_catch. unfold bind at 1. rewrite Hin. unfold lift_completion, ret.
  unfold bind at 1. unfold log at 1. unfold bind at 1.
  unfold request, emit. simpl client. rewrite Hcl. simpl requests. rewrite Hreq.
  unfold sent, failure, creating, create_failure.
  destruct (has_errors (Payload.errors payload));
    unfold throw, bind, log, ret, emit; simpl;
    rewrite <- !app_assoc; rewrite ?Hcl; reflexivity.
Qed.

End WithNet.

End ServiceFacts.

Section ServiceExtras.

Import UniverseService ServiceSpec.

(** X20.  The access token is fetched once and then reused: when
    [getAccessToken] has to ask for a token and the request is answered, it
    keeps the token with the expiry [Date.now() + expires_in * 1000]; the
    next call gives the same token without a request as long as the clock
    is before that expiry and the token is not the empty string, and asks
    again otherwise. *)
Theorem getAccessToken_reuses_token (net : Net) (s : Service) (r : TokenResponse) :
  usable net s = false ->
  post_outcome net (posts s) = Resolved r ->
  let s1 := refreshed net r (tested s) in
  let expiry := now net (reads (tested s)) + expires_in r * 1000 in
  getAccessToken net s = (Resolved (access_token r), s1)
  /\ (access_token r <> "" -> now net (reads s1) < expiry ->
      getAccessToken net s1 = (Resolved (access_token r), tick s1))
  /\ (access_token r = "" \/ expiry <= now net (reads s1) ->
      posts (snd (getAccessToken net s1)) = S (posts s1)).
Proof.
  intros Hu Hp s1 expiry.
  split; [ apply ServiceFacts.usable_miss_resolved; assumption | ].
  split.
  - intros Hne Hlt.
    rewrite ServiceFacts.usable_hit; [ reflexivity | ].
    unfold usable. simpl accessToken. simpl tokenExpiration.
    apply andb_true_intro. split.
    + simpl. apply negb_true_iff, String.eqb_neq. exact Hne.
    + simpl. apply Z.ltb_lt. exact Hlt.
  - intros Hor.
    assert (Hmiss : usable net s1 = false).
    { unfold usable. simpl accessToken. simpl tokenExpiration.
      destruct Hor as [He | Hle].
      - rewrite He. reflexivity.
      - apply andb_false_intro2. simpl. apply Z.ltb_ge. exact Hle. }
    destruct (ServiceFacts.getAccessToken_cases net s1)
      as [[Hu1 _] | [[r1 [_ [_ H]]] | [e [_ [_ H]]]]];
      [ congruence | | ]; rewrite H; simpl;
      unfold tested; destruct (truthy_str _); reflexivity.
Qed.

Lemma getAccessToken_reuses_token_witness :
  getAccessToken (steady "tok-1" 3600 accepted) fresh
  = (Resolved "tok-1",
     refreshed (steady "tok-1" 3600 accepted)
       {| access_token := "tok-1"; expires_in := 3600 |} fresh)
  /\ posts (snd (getAccessToken (steady "tok-1" 3600 accepted)
                   (refreshed (steady "tok-1" 3600 accepted)
                      {| access_token := "tok-1"; expires_in := 3600 |} fresh)))
     = 1%nat.
Proof.
  destruct (getAccessToken_reuses_token (steady "tok-1" 3600 accepted) fresh
              {| access_token := "tok-1"; expires_in := 3600 |}
              eq_refl eq_refl) as [H1 [H2 _]].
  split; [ exact H1 | ].
  assert (Hne : "tok-1" <> "") by discriminate.
  exact (f_equal (fun x => posts (snd x)) (H2 Hne eq_refl)).
Defined.

(** X21.  When the token request fails, [getAccessToken] rejects with the
    error of the request, after logging the body of the response or, when
    there is none, the message; token, expiry and client stay as they were.
    [createEvent] then rejects with the same error: it sends no GraphQL
    request and does not log a failure of the creation. *)
Theorem token_failure_stops_createEvent
    (net : Net) (rt : Runtime) (s : Service) (e : error) (eventData : AirtableEvent) :
  usable net s = false ->
  post_outcome net (posts s) = Rejected e ->
  let s1 := unrefreshed e (tested s) in
  getAccessToken net s = (Rejected e, s1)
  /\ createEvent net rt eventData s = (Rejected e, s1)
  /\ accessToken s1 = accessToken s
  /\ tokenExpiration s1 = tokenExpiration s
  /\ client s1 = client s
  /\ requests s1 = requests s
  /\ output s1
     = (output s
        ++ [TokenPost;
            Log Eff.LError "Failed to get Universe access token:"
              (Some (if truthy_str (response_data e)
                     then tpl (response_data e) else message e))])%list.
Proof.
  intros Hu Hp s1.
  pose proof (ServiceFacts.usable_miss_rejected net s e Hu Hp) as H.
  split; [ exact H | ].
  split; [ unfold createEvent, bind; rewrite H; reflexivity | ].
  unfold s1, unrefreshed, tested.
  destruct (truthy_str (accessToken s)); repeat split; reflexivity.
Qed.

Lemma token_failure_stops_createEvent_witness :
  exists s1,
    createEvent offline Host.utc Scenario.draft fresh
    = (Rejected {| message := "Request failed with status code 401";
                   response_data := Some "invalid_client";
                   response_errors := None |}, s1)
    /\ output s1
       = [TokenPost;
          Log Eff.LError "Failed to get Universe access token:"
            (Some "invalid_client")].
Proof.
  destruct (token_failure_stops_createEvent offline Host.utc fresh
              {| message := "Request failed with status code 401";
                 response_data := Some "invalid_client";
                 response_errors := None |}
              Scenario.draft eq_refl eq_refl)
    as [_ [H [_ [_ [_ [_ Hout]]]]]].
  eexists. split; [ exact H | exact Hout ].
Defined.

(** X22.  What [createEvent] makes of the answer to its request, for a
    service whose client carries its token.  An answer with a non-empty
    [errors] list rejects with ["Universe API errors: "] followed by the
    errors joined with [", "], and the failure is logged once; an answer
    with no errors, or an empty list, resolves with the event and the
    mutation id that the API echoed.  Either way exactly one request is
    sent, with the token that [getAccessToken] gave. *)
Theorem createEvent_reads_api_errors
    (net : Net) (rt : Runtime) (s s1 : Service) (token : string)
    (eventData : AirtableEvent) (payload : Payload.t) :
  coherent s ->
  getAccessToken net s = (Resolved token, s1) ->
  request_outcome net (requests s) = Resolved payload ->
  exists input s2,
    Universe.transformToEventCreateInput rt eventData = Return input
    /\ requests s2 = S (requests s)
    /\ filter is_request (skipn (List.length (output s)) (output s2))
       = [Request token input]
    /\ match Payload.errors payload with
       | Some (err :: errs) =>
           let failure :=
             Error ("Universe API errors: " ++ join ", " (err :: errs)) in
           createEvent net rt eventData s = (Rejected failure, s2)
           /\ output s2
              = (output s1
                 ++ [creating eventData input; Request token input;
                     create_failure eventData failure])%list
       | _ =>
           createEvent net rt eventData s
           = (Resolved
                {| Universe.Event.id := Payload.event_id payload;
                   Universe.Event.slug := Payload.event_slug payload;
                   Universe.Event.state := Payload.event_state payload;
                   Universe.Event.clientMutationId :=
                     Payload.clientMutationId payload |}, s2)
       end.
Proof.
  intros Hc Hrun Hreq.
  destruct (ServiceFacts.token_client net s s1 token Hc Hrun)
    as [Hcl [_ [Hrq Hnone]]].
  destruct (TransformerFacts.transform_returns rt eventData) as [input [Hin _]].
  exists input.
  assert (Hfilter : filter is_request (skipn (List.length (output s)) (output s1))
                    = []).
  { induction Hnone as [ | x l Hx _ IH ]; [ reflexivity | ].
    simpl. rewrite Hx. exact IH. }
  assert (Hsplit : output s1
                   = (output s ++ skipn (List.length (output s)) (output s1))%list).
  { destruct (ServiceFacts.getAccessToken_cases net s)
      as [[_ H] | [[r [_ [_ H]]] | [e [_ [_ H]]]]];
      rewrite H in Hrun; [ | | discriminate ]; injection Hrun as <- <-.
    - simpl. rewrite skipn_all, app_nil_r. reflexivity.
    - unfold tested. destruct (truthy_str (accessToken s)); simpl;
        rewrite skipn_app, skipn_all, Nat.sub_diag; reflexivity. }
  rewrite <- Hrq in Hreq.
  pose proof (ServiceFacts.createEvent_answered net rt s s1 token eventData input
                payload Hrun Hcl Hin Hreq) as Hgo.
  cbv zeta in Hgo.
  assert (Hsent : forall last,
            is_request last = false ->
            filter is_request
              (skipn (List.length (output s))
                 (output s1
                  ++ [creating eventData input; Request token input; last]))
            = [Request token input]).
  { intros last Hlast. rewrite Hsplit at 1.
    rewrite <- app_assoc, skipn_app, skipn_all, Nat.sub_diag. simpl skipn.
    rewrite app_nil_l, filter_app, Hfilter. simpl. rewrite Hlast. reflexivity. }
  destruct (Payload.errors payload) as [[ | err errs] | ] eqn:He;
    simpl has_errors in Hgo; cbv iota in Hgo; eexists;
    (split; [ exact Hin | ]);
    (split; [ | split; [ | first [ exact Hgo | split; [ exact Hgo | ] ] ] ]);
    try (simpl; rewrite ?Hrq; reflexivity);
    try (apply Hsent; reflexivity).
Qed.

Lemma createEvent_reads_api_errors_witness :
  exists s2,
    createEvent (steady "tok-1" 3600 refused) Host.utc Scenario.draft fresh
    = (Rejected (Error "Universe API errors: Title is invalid, Rate is invalid"),
       s2)
    /\ requests s2 = 1%nat.
Proof.
  destruct (createEvent_reads_api_errors (steady "tok-1" 3600 refused) Host.utc
              fresh
              (refreshed (steady "tok-1" 3600 refused)
                 {| access_token := "tok-1"; expires_in := 3600 |} fresh)
              "tok-1" Scenario.draft refused eq_refl eq_refl eq_refl)
    as [input [s2 [_ [Hreq [_ H]]]]].
  exists s2. split; [ exact (proj1 H) | exact Hreq ].
Defined.

End ServiceExtras.
